(** * TalentKit: the UserService of the user-management console

    A shallow embedding of [class UserService] (the business logic of the
    console: validation, e-mail uniqueness, change notification and
    persistence) together with the properties its specification states.

    Conventions of the embedding.
    - A JavaScript object literal is a finite map from property names to
      values ([gmap string value]); reading an absent property gives
      [VUndef], as in the language.
    - The values are the primitives that forms, imported data and the
      service itself produce: [undefined], [null], booleans, strings and
      numbers.  A number is [NaN] or a double whose value is an integer
      (what [parseInt], [Math.max] and the id counter compute), kept as
      that integer; arithmetic, printing and reading round as the engine
      does (an integer beyond 2^53 has 53 significant bits).  Fractions,
      the infinities and the negative zero are not among the values.
    - A string is a sequence of 8-bit code units.
    - [new Error(msg)] thrown inside a method is a value of [exn]; every
      method body is a computation that either returns or throws, and keeps
      the state it reached when it throws.
    - Subscriber callbacks belong to the UI layer: a callback is an opaque
      identity, and handing it an event is recorded in a delivery log.
      What a callback goes on to do when it is called (the page's
      controller calls [saveUsers] when it is handed [usersChanged]) is
      not modelled: the statements are about what the service's own code
      does, and about the calls it makes itself. *)

From Stdlib Require Import ZArith Ascii String List Lia Bool Sorted.
From Stdlib Require Import DecimalString DecimalPos DecimalFacts.
From stdpp Require Import base option list gmap strings fin_maps.

Local Open Scope string_scope.
Local Open Scope list_scope.
Local Open Scope Z_scope.

(** ** Values *)

Inductive number :=
| NaN
| Int (z : Z).

Inductive value :=
| VUndef
| VNull
| VBool (b : bool)
| VNum (n : number)
| VStr (s : string).

#[global] Instance number_eq_dec : EqDecision number.
Proof. solve_decision. Defined.

#[global] Instance value_eq_dec : EqDecision value.
Proof. solve_decision. Defined.

(** An object literal: own properties by name. *)
Abbreviation obj := (gmap string value).

(** [o[k]] and [o.k]: an absent property reads as [undefined]. *)
Definition get (o : obj) (k : string) : value := default VUndef (o !! k).

(** ToBoolean. *)
Definition truthy (v : value) : bool :=
  match v with
  | VUndef | VNull => false
  | VBool b => b
  | VNum NaN => false
  | VNum (Int z) => negb (z =? 0)
  | VStr s => negb (String.eqb s "")
  end.

(** [a === b]; [NaN] is different from itself. *)
Definition strict_eq (a b : value) : bool :=
  match a, b with
  | VNum NaN, _ | _, VNum NaN => false
  | _, _ => bool_decide (a = b)
  end.

(** [list.includes(v)] for a list of string literals (SameValueZero). *)
Definition includes (l : list string) (v : value) : bool :=
  match v with
  | VStr s => bool_decide (s ∈ l)
  | _ => false
  end.

(** ** Strings *)

Module Str.

(** White space and line terminators among the 8-bit code units: TAB, LF,
    VT, FF, CR, SP and NBSP.  This is the class [\s] of regular
    expressions and what [trim] and [parseInt] strip. *)
Definition is_space (c : ascii) : bool :=
  let n := nat_of_ascii c in
  ((9 <=? n) && (n <=? 13) || (n =? 32) || (n =? 160))%nat.

Fixpoint trimStart (s : string) : string :=
  match s with
  | String c s' => if is_space c then trimStart s' else s
  | EmptyString => EmptyString
  end.

(** [trimEnd] keeps a character when it is not white space or when
    something that is kept follows it. *)
Fixpoint trimEnd (s : string) : string :=
  match s with
  | String c s' =>
      match trimEnd s' with
      | EmptyString => if is_space c then EmptyString else String c EmptyString
      | r => String c r
      end
  | EmptyString => EmptyString
  end.

(** [s.trim()] *)
Definition trim (s : string) : string := trimEnd (trimStart s).

Fixpoint all_space (s : string) : bool :=
  match s with
  | String c s' => is_space c && all_space s'
  | EmptyString => true
  end.

(** [l.join(sep)] *)
Fixpoint join (sep : string) (l : list string) : string :=
  match l with
  | [] => ""
  | [x] => x
  | x :: l' => x +:+ sep +:+ join sep l'
  end.

Fixpoint is_prefix (p s : string) : bool :=
  match p, s with
  | EmptyString, _ => true
  | String a p', String b s' => Ascii.eqb a b && is_prefix p' s'
  | String _ _, EmptyString => false
  end.

(** [s.substring(n)] *)
Fixpoint drop (n : nat) (s : string) : string :=
  match n, s with
  | S n', String _ s' => drop n' s'
  | _, _ => s
  end.

(** [s.includes(p)] *)
Fixpoint contains (p s : string) : bool :=
  is_prefix p s ||
  match s with
  | String _ s' => contains p s'
  | EmptyString => false
  end.

End Str.

(** ** Regular expressions

    The e-mail pattern is kept as a regular expression and run by
    derivatives, so that [isValidEmail] is the source's
    [emailRegex.test(email)] and not a paraphrase of the pattern. *)

Module Regex.

Inductive re :=
| Void                          (* matches nothing *)
| Eps                           (* the empty string *)
| Class (p : ascii -> bool)     (* one character of a class *)
| Cat (r1 r2 : re)
| Alt (r1 r2 : re)
| Star (r : re).

(** [r+] *)
Definition Plus (r : re) : re := Cat r (Star r).

Fixpoint nullable (r : re) : bool :=
  match r with
  | Void => false
  | Eps => true
  | Class _ => false
  | Cat r1 r2 => nullable r1 && nullable r2
  | Alt r1 r2 => nullable r1 || nullable r2
  | Star _ => true
  end.

Fixpoint deriv (c : ascii) (r : re) : re :=
  match r with
  | Void | Eps => Void
  | Class p => if p c then Eps else Void
  | Cat r1 r2 =>
      if nullable r1
      then Alt (Cat (deriv c r1) r2) (deriv c r2)
      else Cat (deriv c r1) r2
  | Alt r1 r2 => Alt (deriv c r1) (deriv c r2)
  | Star r1 => Cat (deriv c r1) (Star r1)
  end.

(** [/^r$/.test(s)] *)
Fixpoint test (r : re) (s : string) : bool :=
  match s with
  | EmptyString => nullable r
  | String c s' => test (deriv c r) s'
  end.

(** The language of a regular expression, as a relation. *)
Inductive matches : re -> string -> Prop :=
| m_eps : matches Eps ""
| m_class p c : p c = true -> matches (Class p) (String c "")
| m_cat r1 r2 s1 s2 : matches r1 s1 -> matches r2 s2 -> matches (Cat r1 r2) (s1 +:+ s2)
| m_alt_l r1 r2 s : matches r1 s -> matches (Alt r1 r2) s
| m_alt_r r1 r2 s : matches r2 s -> matches (Alt r1 r2) s
| m_star_nil r : matches (Star r) ""
| m_star_cons r s1 s2 : matches r s1 -> matches (Star r) s2 -> matches (Star r) (s1 +:+ s2).

End Regex.

(** ** Conversions of the language *)

(** The double nearest to an integer, ties going to the even significand.
    Every integer up to 2^53 in absolute value is a double; beyond, a
    double has 53 significant bits. *)
Definition round_double (z : Z) : Z :=
  let a := Z.abs z in
  if a <=? 2 ^ 53 then z
  else
    let e := Z.log2 a - 52 in
    let q := a / 2 ^ e in
    let r := a mod 2 ^ e in
    let half := 2 ^ (e - 1) in
    let q' := if (half <? r) || ((r =? half) && Z.odd q) then q + 1 else q in
    Z.sgn z * (q' * 2 ^ e).

(** An integer in decimal, with a minus sign when negative. *)
Definition decimal (z : Z) : string := NilZero.string_of_int (Z.to_int z).

(** The number of decimal digits of a positive integer. *)
Definition digits_count (a : Z) : Z := Z.of_nat (String.length (decimal a)).

(** Number::toString looks for the decimal with the fewest significant
    digits that denotes the double.  With [k] significant digits the two
    decimals next to [a] are tried; when both denote [a] the closer one is
    taken, and the one with the even last digit when they are equally
    close. *)
Definition with_digits (a k : Z) : option Z :=
  let p := 10 ^ (digits_count a - k) in
  let lo := a / p * p in
  let hi := lo + p in
  match bool_decide (round_double lo = a), bool_decide (round_double hi = a) with
  | true, true =>
      Some (if a - lo <? hi - a then lo
            else if hi - a <? a - lo then hi
            else if Z.even (a / p) then lo else hi)
  | true, false => Some lo
  | false, true => Some hi
  | false, false => None
  end.

(** Seventeen significant digits tell any two doubles apart. *)
Definition shortest_decimal (a : Z) : Z :=
  default a (head (omap (with_digits a) (seqZ 1 17))).

Fixpoint strip_zeros (s : string) : string :=
  match s with
  | String c s' =>
      match strip_zeros s' with
      | EmptyString => if Ascii.eqb c "0" then EmptyString else String c EmptyString
      | r => String c r
      end
  | EmptyString => EmptyString
  end.

(** [d.ddde+n], for the numbers of more than 21 digits. *)
Definition exponent_form (v : Z) : string :=
  let exponent := decimal (digits_count v - 1) in
  match strip_zeros (decimal v) with
  | String d EmptyString => String d ("e+" +:+ exponent)
  | String d rest => String d ("." +:+ rest +:+ "e+" +:+ exponent)
  | EmptyString => EmptyString
  end.

(** Number::toString on an integer-valued double: in decimal below 2^53;
    from there on the shortest decimal that denotes the double, padded
    with zeros up to 21 digits ([2 ** 64] prints as 18446744073709552000)
    and in exponent form beyond ([1e21] prints as 1e+21). *)
Definition Number_toString (z : Z) : string :=
  if Z.abs z <? 2 ^ 53 then decimal z
  else
    let v := shortest_decimal (Z.abs z) in
    (if z <? 0 then "-" else "")
    +:+ (if v <? 10 ^ 21 then decimal v else exponent_form v).

(** ToString. *)
Definition ToString (v : value) : string :=
  match v with
  | VUndef => "undefined"
  | VNull => "null"
  | VBool true => "true"
  | VBool false => "false"
  | VNum NaN => "NaN"
  | VNum (Int z) => Number_toString z
  | VStr s => s
  end.

(** The value of a character as a digit in the given radix. *)
Definition digit_of (radix : Z) (c : ascii) : option Z :=
  let n := Z.of_nat (nat_of_ascii c) in
  let d := if (48 <=? n) && (n <=? 57) then Some (n - 48)
           else if (97 <=? n) && (n <=? 122) then Some (n - 87)
           else if (65 <=? n) && (n <=? 90) then Some (n - 55)
           else None in
  match d with
  | Some d => if d <? radix then Some d else None
  | None => None
  end.

(** The longest prefix of digits, read in the radix; [None] when the
    prefix is empty. *)
Fixpoint scan_digits (radix : Z) (s : string) (acc : option Z) : option Z :=
  match s with
  | String c s' =>
      match digit_of radix c with
      | Some d => scan_digits radix s' (Some (default 0 acc * radix + d))
      | None => acc
      end
  | EmptyString => acc
  end.

(** The magnitude [parseInt] reads once white space and sign are gone: a
    [0x] or [0X] prefix selects radix 16 and is skipped, otherwise the
    radix is 10. *)
Definition parse_magnitude (s : string) : option Z :=
  let hex := Str.is_prefix "0x" s || Str.is_prefix "0X" s in
  scan_digits (if hex then 16 else 10) (if hex then Str.drop 2 s else s) None.

(** [parseInt(s)] without a radix argument: leading white space, a sign,
    then the magnitude, as the double nearest to it; [NaN] when there is
    no digit. *)
Definition parseInt_string (s : string) : number :=
  let s1 := Str.trimStart s in
  let negative := Str.is_prefix "-" s1 in
  let s2 := if negative || Str.is_prefix "+" s1 then Str.drop 1 s1 else s1 in
  match parse_magnitude s2 with
  | Some m => Int (round_double (if negative then - m else m))
  | None => NaN
  end.

(** [parseInt(v)] converts its argument to a string first. *)
Definition parseInt (v : value) : number := parseInt_string (ToString v).

(** ToNumber on the values that are not strings. *)
Definition ToNumber_prim (v : value) : option number :=
  match v with
  | VUndef => Some NaN
  | VNull => Some (Int 0)
  | VBool b => Some (Int (if b then 1 else 0))
  | VNum n => Some n
  | VStr _ => None
  end.

(** ** Validation (lines 194-231) *)

(** What a method body can throw. *)
Inductive exn :=
| ValidationError (errors : list string)  (* new Error(validation.errors.join(', ')) *)
| DuplicateEmailError                     (* new Error('A user with this email already exists') *)
| NotFoundError                           (* new Error('User not found') *)
| TypeError (msg : string)                (* raised by the engine *)
| DOMException (msg : string).            (* raised by the storage *)

(** [error.message] *)
Definition message (e : exn) : string :=
  match e with
  | ValidationError errors => Str.join ", " errors
  | DuplicateEmailError => "A user with this email already exists"
  | NotFoundError => "User not found"
  | TypeError msg => msg
  | DOMException msg => msg
  end.

(** [[^\s@]] *)
Definition not_space_at (c : ascii) : bool :=
  negb (Str.is_space c) && negb (Ascii.eqb c "@"%char).

Definition is_char (a c : ascii) : bool := Ascii.eqb a c.

(** [/^[^\s@]+@[^\s@]+\.[^\s@]+$/] *)
Definition emailRegex : Regex.re :=
  Regex.Cat (Regex.Plus (Regex.Class not_space_at))
    (Regex.Cat (Regex.Class (is_char "@"))
       (Regex.Cat (Regex.Plus (Regex.Class not_space_at))
          (Regex.Cat (Regex.Class (is_char "."))
             (Regex.Plus (Regex.Class not_space_at))))).

(** [emailRegex.test(email)]: the argument is converted to a string. *)
Definition isValidEmail (email : value) : bool :=
  Regex.test emailRegex (ToString email).

Definition required : list string :=
  ["firstName"; "lastName"; "email"; "phone"; "userType"].

Definition validTypes : list string := ["client"; "provider"; "admin"].
Definition validStatuses : list string := ["active"; "inactive"].

(** The body of the [forEach] callback at one field.  [!userData[field]]
    is tried first; [.trim()] exists on strings only, and calling it on any
    other (truthy) value throws. *)
Definition check_required (userData : obj) (field : string) (errors : list string)
  : exn + list string :=
  let v := get userData field in
  if negb (truthy v) then inr (errors ++ [field +:+ " is required"])
  else match v with
       | VStr s =>
           if String.eqb (Str.trim s) ""
           then inr (errors ++ [field +:+ " is required"])
           else inr errors
       | _ => inl (TypeError "userData[field].trim is not a function")
       end.

(** [required.forEach(...)]: a throw in the callback ends the loop. *)
Fixpoint forEach_required (userData : obj) (fields : list string) (errors : list string)
  : exn + list string :=
  match fields with
  | [] => inr errors
  | field :: rest =>
      match check_required userData field errors with
      | inl e => inl e
      | inr errors' => forEach_required userData rest errors'
      end
  end.

Definition email_check (userData : obj) (errors : list string) : list string :=
  if truthy (get userData "email") && negb (isValidEmail (get userData "email"))
  then errors ++ ["Invalid email format"] else errors.

Definition type_check (userData : obj) (errors : list string) : list string :=
  if truthy (get userData "userType") && negb (includes validTypes (get userData "userType"))
  then errors ++ ["Invalid user type"] else errors.

Definition status_check (userData : obj) (errors : list string) : list string :=
  if truthy (get userData "status") && negb (includes validStatuses (get userData "status"))
  then errors ++ ["Invalid status"] else errors.

Record validation := { isValid : bool; errors : list string }.

Definition validateUser (userData : obj) : exn + validation :=
  match forEach_required userData required [] with
  | inl e => inl e
  | inr errors1 =>
      let errors2 := email_check userData errors1 in
      let errors3 := type_check userData errors2 in
      let errors4 := status_check userData errors3 in
      inr {| isValid := bool_decide (length errors4 = 0%nat); errors := errors4 |}
  end.

(** ** The service and its environment *)

(** A subscriber callback, known by its identity only. *)
Abbreviation callback := nat.

(** The outcome of [importUsers]: [{success: [...], failed: [...]}]; an
    entry of [failed] is [{userData, error}]. *)
Record import_results := {
  success : list obj;
  failed : list (obj * string);
}.

(** [notify(event, data)]: the event name with its payload. *)
Inductive event :=
| userCreated (newUser : obj)
| usersChanged (users : list obj)
| userUpdated (original updated : obj)
| userDeleted (deletedUser : obj)
| usersLoaded (users : list obj)
| usersSaved (users : list obj)
| bulkImport (results : import_results)
| error (msg : string) (type : string).

Definition event_name (ev : event) : string :=
  match ev with
  | userCreated _ => "userCreated"
  | usersChanged _ => "usersChanged"
  | userUpdated _ _ => "userUpdated"
  | userDeleted _ => "userDeleted"
  | usersLoaded _ => "usersLoaded"
  | usersSaved _ => "usersSaved"
  | bulkImport _ => "bulkImport"
  | error _ _ => "error"
  end.

(** The fields the constructor sets (the auto-save timer handle is left
    out: timers are not part of the model). *)
Record UserService := {
  users : list obj;
  nextId : number;
  observers : list callback;
}.

(** [new UserService()] *)
Definition constructor : UserService :=
  {| users := []; nextId := Int 1; observers := [] |}.

(** JSON documents.  [JSON.stringify] leaves out properties whose value is
    [undefined] and writes [NaN] as [null]. *)
Inductive json :=
| JNull
| JBool (b : bool)
| JNumber (z : Z)
| JString (s : string).

Definition to_json (v : value) : option json :=
  match v with
  | VUndef => None
  | VNull => Some JNull
  | VBool b => Some (JBool b)
  | VNum NaN => Some JNull
  | VNum (Int z) => Some (JNumber z)
  | VStr s => Some (JString s)
  end.

Definition of_json (j : json) : value :=
  match j with
  | JNull => VNull
  | JBool b => VBool b
  | JNumber z => VNum (Int z)
  | JString s => VStr s
  end.

(** The text of a JSON array of objects, kept as the document it denotes. *)
Abbreviation json_text := (list (gmap string json)).

Definition JSON_stringify (us : list obj) : json_text := map (omap to_json) us.
Definition JSON_parse (text : json_text) : list obj := map (fmap of_json) text.

(** Everything a method call can read or change: the instance, the
    browser's [localStorage] (whose slots hold what [saveUsers] wrote), the
    log of callback invocations, and the clock with the number of times it
    was read.  A write to the storage can fail (the quota is exceeded, the
    storage is disabled); which writes do is the browser's matter:
    [storage_throws k] is the message of the exception that the k-th call
    of [setItem] throws, and [None] when that call stores. *)
Record world := {
  this : UserService;
  localStorage : gmap string json_text;
  delivered : list (callback * event);
  clock : nat -> string;
  reads : nat;
  storage_throws : nat -> option string;
  writes : nat;
}.

Definition with_this (w : world) (s : UserService) : world :=
  {| this := s; localStorage := localStorage w; delivered := delivered w;
     clock := clock w; reads := reads w;
     storage_throws := storage_throws w; writes := writes w |}.

(** A second instance created in the same page: same storage, same clock. *)
Definition fresh_instance (w : world) : world := with_this w constructor.

(** *** Computations that may throw *)

Definition St (A : Type) : Type := world -> A * world.
Definition M (A : Type) : Type := St (exn + A).

Definition ret {A} (a : A) : M A := fun w => (inr a, w).
Definition throw {A} (e : exn) : M A := fun w => (inl e, w).
Definition bind {A B} (c : M A) (k : A -> M B) : M B :=
  fun w => match c w with
           | (inl e, w') => (inl e, w')
           | (inr a, w') => k a w'
           end.
Definition lift {A} (c : St A) : M A := fun w => let '(a, w') := c w in (inr a, w').
Definition of_sum {A} (r : exn + A) : M A := fun w => (r, w).

Notation "'let!' x ':=' c 'in' k" := (bind c (fun x => k))
  (at level 10, x name, c at level 100, k at level 200).
Notation "'do!' c 'in' k" := (bind c (fun _ => k))
  (at level 10, c at level 100, k at level 200).

(** [{success: true, data}] or [{success: false, error}] *)
Inductive result (A : Type) :=
| Success (data : A)
| Failure (error : string).
Arguments Success {A} data.
Arguments Failure {A} error.


(** *** Observers (lines 15-25) *)

Definition subscribe (cb : callback) : St unit :=
  fun w => (tt, with_this w {| users := users (this w); nextId := nextId (this w);
                               observers := observers (this w) ++ [cb] |}).

Definition unsubscribe (cb : callback) : St unit :=
  fun w => (tt, with_this w {| users := users (this w); nextId := nextId (this w);
                               observers := filter (fun obs => obs ≠ cb) (observers (this w)) |}).

(** [this.observers.forEach(callback => callback(event, data))]: each
    subscriber is called, in the order of registration, and the call is
    logged.  The body of a callback is not the service's: what it does
    when called is not modelled, and [delivered] lists the calls that the
    operation at hand makes itself. *)
Definition notify (ev : event) : St unit :=
  fun w => (tt, {| this := this w; localStorage := localStorage w;
                   delivered := delivered w ++ map (fun cb => (cb, ev)) (observers (this w));
                   clock := clock w; reads := reads w;
                   storage_throws := storage_throws w; writes := writes w |}).

(** [try { body } catch (error) { notify('error', ...); return {success: false, ...} }] *)
Definition try_catch {A} (body : M A) (type : string) : St (result A) :=
  fun w => match body w with
           | (inr a, w') => (Success a, w')
           | (inl e, w') =>
               let '(_, w'') := notify (error (message e) type) w' in
               (Failure (message e), w'')
           end.

(** *** State access *)

Definition get_users : M (list obj) := fun w => (inr (users (this w)), w).

Definition set_users (us : list obj) : M unit :=
  fun w => (inr tt, with_this w {| users := us; nextId := nextId (this w);
                                   observers := observers (this w) |}).

Definition set_nextId (n : number) : M unit :=
  fun w => (inr tt, with_this w {| users := users (this w); nextId := n;
                                   observers := observers (this w) |}).

(** [n + 1] on doubles: from 2^53 on the sum is rounded, and 2^53 + 1 is
    2^53 again. *)
Definition succ_number (n : number) : number :=
  match n with
  | NaN => NaN
  | Int z => Int (round_double (z + 1))
  end.

(** [this.nextId++] *)
Definition nextId_postincr : M number :=
  fun w => let n := nextId (this w) in
           (inr n, with_this w {| users := users (this w); nextId := succ_number n;
                                  observers := observers (this w) |}).

(** [new Date().toISOString()] *)
Definition Date_toISOString : M string :=
  fun w => (inr (clock w (reads w)),
            {| this := this w; localStorage := localStorage w; delivered := delivered w;
               clock := clock w; reads := S (reads w);
               storage_throws := storage_throws w; writes := writes w |}).

(** [l.findIndex(p)], with [None] for -1. *)
Fixpoint findIndex {A} (p : A -> bool) (l : list A) : option nat :=
  match l with
  | [] => None
  | x :: l' => if p x then Some O else S <$> findIndex p l'
  end.

(** *** Helper (lines 236-238) *)

Definition findUserByEmail (us : list obj) (email : value) : option obj :=
  List.find (fun user => strict_eq (get user "email") email) us.

(** *** createUser (lines 30-65) *)

(** [userData.status || 'active'] *)
Definition status_or_active (userData : obj) : value :=
  if truthy (get userData "status") then get userData "status" else VStr "active".

(** The object literal
    [{ id, ...userData, createdAt, lastActive, status }]: a later property
    replaces an earlier one of the same name, so the properties of
    [userData] win over [id] and lose to the three that follow. *)
Definition new_user_literal (id : number) (userData : obj)
    (createdAt lastActive : string) : obj :=
  <["status" := status_or_active userData]>
    (<["lastActive" := VStr lastActive]>
       (<["createdAt" := VStr createdAt]>
          (userData ∪ {["id" := VNum id]}))).

Definition createUser_body (userData : obj) : M obj :=
  let! validation := of_sum (validateUser userData) in
  if negb (isValid validation) then throw (ValidationError (errors validation)) else
  let! us := get_users in
  if bool_decide (is_Some (findUserByEmail us (get userData "email")))
  then throw DuplicateEmailError else
  let! id := nextId_postincr in
  let! createdAt := Date_toISOString in
  let! lastActive := Date_toISOString in
  let newUser := new_user_literal id userData createdAt lastActive in
  do! set_users (us ++ [newUser]) in
  do! lift (notify (userCreated newUser)) in
  do! lift (notify (usersChanged (us ++ [newUser]))) in
  ret newUser.

Definition createUser (userData : obj) : St (result obj) :=
  try_catch (createUser_body userData) "create".

(** *** updateUser (lines 67-107) *)

(** [user => user.id === parseInt(id)] *)
Definition has_id (id : value) (user : obj) : bool :=
  strict_eq (get user "id") (VNum (parseInt id)).

(** [{ ...this.users[userIndex], ...userData, lastModified }] *)
Definition merged_literal (existing userData : obj) (lastModified : string) : obj :=
  <["lastModified" := VStr lastModified]> (userData ∪ existing).

(** [this.users[userIndex]]; spreading [undefined] gives no property. *)
Definition at_index (us : list obj) (userIndex : nat) : obj :=
  default ∅ (us !! userIndex).

Definition updateUser_body (id : value) (userData : obj) : M obj :=
  let! us := get_users in
  match findIndex (has_id id) us with
  | None => throw NotFoundError
  | Some userIndex =>
      let! validation := of_sum (validateUser userData) in
      if negb (isValid validation) then throw (ValidationError (errors validation)) else
      do! (match findUserByEmail us (get userData "email") with
           | Some existingUser =>
               if negb (has_id id existingUser) then throw DuplicateEmailError else ret tt
           | None => ret tt
           end) in
      let originalUser := at_index us userIndex in
      let! lastModified := Date_toISOString in
      let updated := merged_literal (at_index us userIndex) userData lastModified in
      let us' := <[userIndex := updated]> us in
      do! set_users us' in
      do! lift (notify (userUpdated originalUser updated)) in
      do! lift (notify (usersChanged us')) in
      ret updated
  end.

Definition updateUser (id : value) (userData : obj) : St (result obj) :=
  try_catch (updateUser_body id userData) "update".

(** *** deleteUser (lines 109-129) *)

Definition deleteUser_body (id : value) : M obj :=
  let! us := get_users in
  match findIndex (has_id id) us with
  | None => throw NotFoundError
  | Some userIndex =>
      let deletedUser := at_index us userIndex in
      let us' := delete userIndex us in          (* splice(userIndex, 1) *)
      do! set_users us' in
      do! lift (notify (userDeleted deletedUser)) in
      do! lift (notify (usersChanged us')) in
      ret deletedUser
  end.

Definition deleteUser (id : value) : St (result obj) :=
  try_catch (deleteUser_body id) "delete".

(** *** Queries (lines 134-148) *)

(** The content of the array [getAllUsers] returns; what the copy shares
    with the store is the subject of [Module Heap] below. *)
Definition getAllUsers (w : world) : list obj := users (this w).

Definition getUserById (id : value) (w : world) : option obj :=
  List.find (has_id id) (users (this w)).

Definition getUserByEmail (email : value) (w : world) : option obj :=
  List.find (fun user => strict_eq (get user "email") email) (users (this w)).

Definition getUsersByType (type : value) (w : world) : list obj :=
  List.filter (fun user => strict_eq (get user "userType") type) (users (this w)).

(** *** importUsers (lines 243-260) *)

Fixpoint importUsers_loop (usersData : list obj) (results : import_results)
  : St import_results :=
  match usersData with
  | [] => fun w => (results, w)
  | userData :: rest =>
      fun w =>
        let '(r, w') := createUser userData w in
        match r with
        | Success data =>
            importUsers_loop rest
              {| success := success results ++ [data]; failed := failed results |} w'
        | Failure err =>
            importUsers_loop rest
              {| success := success results; failed := failed results ++ [(userData, err)] |} w'
        end
  end.

Definition importUsers (usersData : list obj) : St import_results :=
  fun w =>
    let '(results, w') := importUsers_loop usersData {| success := []; failed := [] |} w in
    let '(_, w'') := notify (bulkImport results) w' in
    (results, w'').

(** *** Persistence (lines 273-347) *)

Definition storage_key : string := "appointme_users".

Definition sampleUsers : list obj :=
  [ {[ "firstName" := VStr "John"; "lastName" := VStr "Doe";
       "email" := VStr "john.doe@example.com"; "phone" := VStr "+1 (555) 123-4567";
       "userType" := VStr "client"; "status" := VStr "active" ]};
    {[ "firstName" := VStr "Dr. Sarah"; "lastName" := VStr "Smith";
       "email" := VStr "sarah.smith@clinic.com"; "phone" := VStr "+1 (555) 987-6543";
       "userType" := VStr "provider"; "status" := VStr "active" ]};
    {[ "firstName" := VStr "Admin"; "lastName" := VStr "User";
       "email" := VStr "admin@appointme.com"; "phone" := VStr "+1 (555) 000-0000";
       "userType" := VStr "admin"; "status" := VStr "active" ]} ].

(** [for (const userData of sampleUsers) await this.createUser(userData)] *)
Fixpoint loadSampleData_loop (l : list obj) : St unit :=
  match l with
  | [] => fun w => (tt, w)
  | userData :: rest => fun w => let '(_, w') := createUser userData w in
                                 loadSampleData_loop rest w'
  end.

Definition loadSampleData : St unit := loadSampleData_loop sampleUsers.

(** [localStorage.getItem(key)]; [None] is [null]. *)
Definition getItem (key : string) : M (option json_text) :=
  fun w => (inr (localStorage w !! key), w).

(** [localStorage.setItem(key, text)]: the text is stored, or the call
    throws and the storage is as before. *)
Definition setItem (key : string) (text : json_text) : M unit :=
  fun w =>
    match storage_throws w (writes w) with
    | Some msg =>
        (inl (DOMException msg),
         {| this := this w; localStorage := localStorage w;
            delivered := delivered w; clock := clock w; reads := reads w;
            storage_throws := storage_throws w; writes := S (writes w) |})
    | None =>
        (inr tt,
         {| this := this w; localStorage := <[key := text]> (localStorage w);
            delivered := delivered w; clock := clock w; reads := reads w;
            storage_throws := storage_throws w; writes := S (writes w) |})
    end.

Definition num_max (a b : number) : number :=
  match a, b with
  | Int x, Int y => Int (Z.max x y)
  | _, _ => NaN
  end.

Section Engine.

(** The engine's conversion of a string to a number, for the strings
    whose number the model has; [Math.max] applies it to an id that is a
    string. *)
Variable StringToNumber : string -> number.

Definition ToNumber (v : value) : number :=
  match v with
  | VStr s => StringToNumber s
  | _ => default NaN (ToNumber_prim v)
  end.

(** [Math.max(...ids, 0)] *)
Definition Math_max_0 (ids : list value) : number :=
  fold_right (fun v acc => num_max (ToNumber v) acc) (Int 0) ids.

(** The text kept in a slot is that of an array, hence never the empty
    string: [if (stored)] asks whether the slot exists. *)
Definition loadUsers_body : M (list obj) :=
  let! stored := getItem storage_key in
  do! (match stored with
       | Some text =>
           do! set_users (JSON_parse text) in
           set_nextId (succ_number (Math_max_0 (map (fun u => get u "id") (JSON_parse text))))
       | None => lift loadSampleData
       end) in
  let! us := get_users in
  do! lift (notify (usersLoaded us)) in
  ret us.

Definition loadUsers : St (result (list obj)) := try_catch loadUsers_body "load".

End Engine.

Definition saveUsers_body : M unit :=
  let! us := get_users in
  do! setItem storage_key (JSON_stringify us) in
  do! lift (notify (usersSaved us)) in
  ret tt.

Definition saveUsers : St (result unit) := try_catch saveUsers_body "save".

(** ** Shapes used by the statements *)

(** A field counts as missing when it is falsy (absent, [undefined],
    [null], [false], [0], [NaN] or the empty string) or made of white
    space only. *)
Definition blank (v : value) : bool :=
  negb (truthy v) ||
  match v with
  | VStr s => Str.all_space s
  | _ => false
  end.

(** The error list as the specification words it: the required-field
    messages in field order, then the three format messages. *)
Definition spec_errors (candidate : obj) : list string :=
  flat_map (fun field => if blank (get candidate field)
                         then [field +:+ " is required"] else []) required
  ++ (if truthy (get candidate "email") && negb (isValidEmail (get candidate "email"))
      then ["Invalid email format"] else [])
  ++ (if truthy (get candidate "userType")
         && negb (includes validTypes (get candidate "userType"))
      then ["Invalid user type"] else [])
  ++ (if truthy (get candidate "status")
         && negb (includes validStatuses (get candidate "status"))
      then ["Invalid status"] else []).

(** The required fields hold strings wherever they hold something truthy. *)
Definition string_or_falsy (v : value) : bool :=
  negb (truthy v) || match v with VStr _ => true | _ => false end.

Definition textual (candidate : obj) : bool :=
  forallb (fun field => string_or_falsy (get candidate field)) required.

(** The error event delivered to every subscriber. *)
Definition error_deliveries (w : world) (msg type : string) : list (callback * event) :=
  map (fun cb => (cb, error msg type)) (observers (this w)).

(** The world a caught exception leaves behind: only the log has grown. *)
Definition after_error (w : world) (msg type : string) : world :=
  {| this := this w; localStorage := localStorage w;
     delivered := delivered w ++ error_deliveries w msg type;
     clock := clock w; reads := reads w;
     storage_throws := storage_throws w; writes := writes w |}.

(** The record [createUser] builds in a given world. *)
Definition created_user (w : world) (userData : obj) : obj :=
  new_user_literal (nextId (this w)) userData (clock w (reads w)) (clock w (S (reads w))).

(** The world after a successful [createUser]. *)
Definition after_create (w : world) (userData : obj) : world :=
  let newUser := created_user w userData in
  let us := users (this w) ++ [newUser] in
  {| this := {| users := us; nextId := succ_number (nextId (this w));
                observers := observers (this w) |};
     localStorage := localStorage w;
     delivered := (delivered w
                   ++ map (fun cb => (cb, userCreated newUser)) (observers (this w)))
                   ++ map (fun cb => (cb, usersChanged us)) (observers (this w));
     clock := clock w; reads := S (S (reads w));
     storage_throws := storage_throws w; writes := writes w |}.

Definition email_taken (w : world) (userData : obj) : bool :=
  bool_decide (is_Some (findUserByEmail (users (this w)) (get userData "email"))).

(** The world after a successful [updateUser] at [userIndex]. *)
Definition updated_user (w : world) (userIndex : nat) (userData : obj) : obj :=
  merged_literal (at_index (users (this w)) userIndex) userData (clock w (reads w)).

Definition after_update (w : world) (userIndex : nat) (userData : obj) : world :=
  let updated := updated_user w userIndex userData in
  let us := <[userIndex := updated]> (users (this w)) in
  {| this := {| users := us; nextId := nextId (this w); observers := observers (this w) |};
     localStorage := localStorage w;
     delivered := (delivered w
                   ++ map (fun cb => (cb, userUpdated (at_index (users (this w)) userIndex) updated))
                        (observers (this w)))
                   ++ map (fun cb => (cb, usersChanged us)) (observers (this w));
     clock := clock w; reads := S (reads w);
     storage_throws := storage_throws w; writes := writes w |}.

(** [existingUser && existingUser.id !== parseInt(id)] *)
Definition email_taken_by_other (w : world) (id : value) (userData : obj) : bool :=
  match findUserByEmail (users (this w)) (get userData "email") with
  | Some existingUser => negb (has_id id existingUser)
  | None => false
  end.

Definition after_delete (w : world) (userIndex : nat) : world :=
  let us := delete userIndex (users (this w)) in
  {| this := {| users := us; nextId := nextId (this w); observers := observers (this w) |};
     localStorage := localStorage w;
     delivered := (delivered w
                   ++ map (fun cb => (cb, userDeleted (at_index (users (this w)) userIndex)))
                        (observers (this w)))
                   ++ map (fun cb => (cb, usersChanged us)) (observers (this w));
     clock := clock w; reads := reads w;
     storage_throws := storage_throws w; writes := writes w |}.

(** ** Sample data for the worked cases *)

Definition alice : obj :=
  {[ "firstName" := VStr "A"; "lastName" := VStr "B"; "email" := VStr "a@b.com";
     "phone" := VStr "1"; "userType" := VStr "client" ]}.

Definition bob : obj :=
  {[ "firstName" := VStr "Bob"; "lastName" := VStr "C"; "email" := VStr "bob@c.org";
     "phone" := VStr "2"; "userType" := VStr "provider" ]}.

Definition carol : obj :=
  {[ "firstName" := VStr "Carol"; "lastName" := VStr "D"; "email" := VStr "carol@d.net";
     "phone" := VStr "3"; "userType" := VStr "admin" ]}.

(** A page in which the given instance runs: nothing stored, nothing
    delivered yet, a clock that counts its readings, and a storage that
    takes every write. *)
Definition page (s : UserService) : world :=
  {| this := s; localStorage := ∅; delivered := [];
     clock := fun n => "T" +:+ NilZero.string_of_uint (Nat.to_uint n); reads := 0;
     storage_throws := fun _ => None; writes := 0 |}.

(** A fresh instance with one subscriber. *)
Definition watched : world :=
  page {| users := []; nextId := Int 1; observers := [0%nat] |}.

(** The watched instance after [alice] was created. *)
Definition watched_alice : world := snd (createUser alice watched).

(** ** The three mutating calls *)

Inductive crud :=
| CreateUser (userData : obj)
| UpdateUser (id : value) (userData : obj)
| DeleteUser (id : value).

(** The [try] block of a call. *)
Definition crud_body (c : crud) : M obj :=
  match c with
  | CreateUser userData => createUser_body userData
  | UpdateUser id userData => updateUser_body id userData
  | DeleteUser id => deleteUser_body id
  end.

(** The call itself. *)
Definition crud_call (c : crud) : St (result obj) :=
  match c with
  | CreateUser userData => createUser userData
  | UpdateUser id userData => updateUser id userData
  | DeleteUser id => deleteUser id
  end.

(** The [type] its [catch] block reports. *)
Definition crud_type (c : crud) : string :=
  match c with
  | CreateUser _ => "create"
  | UpdateUser _ _ => "update"
  | DeleteUser _ => "delete"
  end.

(** ** Decimal numerals *)

Definition is_digit (c : ascii) : bool :=
  let n := Z.of_nat (nat_of_ascii c) in (48 <=? n) && (n <=? 57).

(** The decimal digits a string starts with. *)
Fixpoint leading_digits (s : string) : string :=
  match s with
  | String c s' => if is_digit c then String c (leading_digits s') else ""
  | EmptyString => ""
  end.

(** The number a string of decimal digits denotes. *)
Fixpoint digits_value_from (s : string) (acc : Z) : Z :=
  match s with
  | String c s' => digits_value_from s' (acc * 10 + (Z.of_nat (nat_of_ascii c) - 48))
  | EmptyString => acc
  end.

Definition digits_value (s : string) : Z := digits_value_from s 0.


(** ** Importing, call by call *)

(** [createUser] once per entry, in list order, each call in the world the
    previous one left; every entry is paired with the result of its call. *)
Fixpoint create_each (usersData : list obj) (w : world) : list (obj * result obj) * world :=
  match usersData with
  | [] => ([], w)
  | userData :: rest =>
      let '(r, w') := createUser userData w in
      let '(rs, w'') := create_each rest w' in
      ((userData, r) :: rs, w'')
  end.

(** The records of the calls that succeeded. *)
Definition created (outcomes : list (obj * result obj)) : list obj :=
  flat_map (fun o => match snd o with
                     | Success data => [data]
                     | Failure _ => []
                     end) outcomes.

(** The inputs of the calls that failed, each with its error message. *)
Definition rejected (outcomes : list (obj * result obj)) : list (obj * string) :=
  flat_map (fun o => match snd o with
                     | Success _ => []
                     | Failure err => [(fst o, err)]
                     end) outcomes.

(** The input passes validation. *)
Definition passes (userData : obj) : bool :=
  match validateUser userData with
  | inr v => isValid v
  | inl _ => false
  end.

Definition is_bulkImport (ev : event) : bool :=
  match ev with
  | bulkImport _ => true
  | _ => false
  end.

(** ** Sequences of operations *)

Inductive op :=
| Crud (c : crud)
| ImportUsers (usersData : list obj)
| SaveUsers
| LoadUsers
| Subscribe (cb : callback)
| Unsubscribe (cb : callback).

(** The ids of the given records. *)
Definition ids_of (records : list obj) : list value :=
  map (fun u => get u "id") records.

Section Runs.

Variable StringToNumber : string -> number.

(** One operation: the ids of the records its [createUser] calls
    returned, in call order, and the world it leaves.  [loadUsers] calls
    [createUser] for the sample records when the slot is empty. *)
Definition step (o : op) (w : world) : list value * world :=
  match o with
  | Crud (CreateUser userData) =>
      let '(r, w') := createUser userData w in
      (match r with
       | Success data => [get data "id"]
       | Failure _ => []
       end, w')
  | Crud c => ([], snd (crud_call c w))
  | ImportUsers usersData =>
      let '(results, w') := importUsers usersData w in
      (ids_of (success results), w')
  | SaveUsers => ([], snd (saveUsers w))
  | LoadUsers =>
      (match localStorage w !! storage_key with
       | Some _ => []
       | None => ids_of (created (fst (create_each sampleUsers w)))
       end, snd (loadUsers StringToNumber w))
  | Subscribe cb => ([], snd (subscribe cb w))
  | Unsubscribe cb => ([], snd (unsubscribe cb w))
  end.

(** A sequence of operations on one instance: all the ids assigned, in
    order, and the final world. *)
Fixpoint run (ops : list op) (w : world) : list value * world :=
  match ops with
  | [] => ([], w)
  | o :: rest =>
      let '(ids, w') := step o w in
      let '(ids', w'') := run rest w' in
      (ids ++ ids', w'')
  end.

End Runs.

(** The input has no property named [id] of its own. *)
Definition no_own_id (userData : obj) : bool := bool_decide (userData !! "id" = None).

(** The operations in which the counter alone decides the ids: no
    [loadUsers], which sets the counter from the stored records, and no
    input of [createUser] carrying an [id]. *)
Definition counter_driven (o : op) : bool :=
  match o with
  | Crud (CreateUser userData) => no_own_id userData
  | ImportUsers usersData => forallb no_own_id usersData
  | LoadUsers => false
  | _ => true
  end.

(** How many times an operation calls [createUser], at most. *)
Definition creations (o : op) : Z :=
  match o with
  | Crud (CreateUser _) => 1
  | ImportUsers usersData => Z.of_nat (length usersData)
  | LoadUsers => Z.of_nat (length sampleUsers)
  | _ => 0
  end.

Definition total_creations (ops : list op) : Z :=
  fold_right (fun o acc => creations o + acc) 0 ops.

(** [zs] increases strictly, from [lo] on and below [hi]. *)
Fixpoint ascending (lo : Z) (zs : list Z) (hi : Z) : Prop :=
  match zs with
  | [] => lo <= hi
  | z :: rest => lo <= z /\ ascending (z + 1) rest hi
  end.

(** ** Comparing records *)




(** The world after a [saveUsers] whose write was taken. *)
Definition after_save (w : world) : world :=
  {| this := this w;
     localStorage := <[storage_key := JSON_stringify (users (this w))]> (localStorage w);
     delivered := delivered w
                  ++ map (fun cb => (cb, usersSaved (users (this w)))) (observers (this w));
     clock := clock w; reads := reads w;
     storage_throws := storage_throws w; writes := S (writes w) |}.

(** The next write to the storage will be taken. *)
Definition storage_takes (w : world) : Prop := storage_throws w (writes w) = None.



(** A page whose storage is full: every write throws. *)
Definition full_storage_page : world :=
  {| this := this watched_alice; localStorage := ∅; delivered := [];
     clock := clock watched_alice; reads := reads watched_alice;
     storage_throws := fun _ => Some "The quota has been exceeded."; writes := 0 |}.



(** A page whose counter has reached 2^53. *)
Definition page_at_2_53 : world :=
  page {| users := []; nextId := Int (2 ^ 53); observers := [] |}.

(** ** References: what [getAllUsers] copies and what it shares

    In the engine an array and a record are objects reached through
    references.  [this.users] is a reference to an array whose elements
    are references to records, and [[...this.users]] allocates a new array
    holding the same element references.  This module keeps that heap
    explicit, for the one method where the difference between a copy and
    an alias is what matters. *)

Module Heap.

Abbreviation ref := positive.

Inductive cell :=
| Arr (elems : list ref)
| Rec (o : obj).

#[global] Instance cell_eq_dec : EqDecision cell.
Proof. solve_decision. Defined.

Abbreviation heap := (gmap ref cell).

(** The elements of the array at [a] (nothing when [a] is no array). *)
Definition array_at (h : heap) (a : ref) : list ref :=
  match h !! a with
  | Some (Arr elems) => elems
  | _ => []
  end.

(** The record at [r]. *)
Definition record_at (h : heap) (r : ref) : obj :=
  match h !! r with
  | Some (Rec o) => o
  | _ => ∅
  end.

(** The records the store holds, read through [this.users]. *)
Definition store_records (h : heap) (users_ref : ref) : list obj :=
  map (record_at h) (array_at h users_ref).

(** [return [...this.users]]: a new array with the same elements. *)
Definition getAllUsers (users_ref : ref) (h : heap) : ref * heap :=
  let a := fresh (dom h) in
  (a, <[a := Arr (array_at h users_ref)]> h).

(** What a caller can do to an array it holds a reference to. *)
Inductive array_mutation :=
| Push (r : ref)                 (* a.push(x) *)
| Assign (i : nat) (r : ref)     (* a[i] = x, for an index in range *)
| Splice (i : nat)               (* a.splice(i, 1) *)
| Truncate (n : nat).            (* a.length = n, shortening *)

Definition apply_mutation (m : array_mutation) (elems : list ref) : list ref :=
  match m with
  | Push r => elems ++ [r]
  | Assign i r => <[i := r]> elems
  | Splice i => delete i elems
  | Truncate n => take n elems
  end.

Definition mutate_array (a : ref) (h : heap) (m : array_mutation) : heap :=
  <[a := Arr (apply_mutation m (array_at h a))]> h.

(** [a[i][k] = v]: a write to the record the element refers to. *)
Definition mutate_record (a : ref) (i : nat) (k : string) (v : value) (h : heap) : heap :=
  match array_at h a !! i with
  | Some r => <[r := Rec (<[k := v]> (record_at h r))]> h
  | None => h
  end.

(** A store with one record, [alice], at reference 2; [this.users] is
    the array at reference 1. *)
Definition one_record : heap := {[ 1%positive := Arr [2%positive]; 2%positive := Rec alice ]}.

End Heap.

(** * The rest of the service *)

(** ** Case conversion

    [toLowerCase] on the 8-bit code units: the letters A-Z and the
    Latin-1 capitals (192-222, the multiplication sign 215 apart) move up
    by 32. *)

Definition toLowerCase_char (c : ascii) : ascii :=
  let n := nat_of_ascii c in
  if ((65 <=? n) && (n <=? 90) || (192 <=? n) && (n <=? 222) && negb (n =? 215))%nat
  then ascii_of_nat (n + 32) else c.

Fixpoint toLowerCase (s : string) : string :=
  match s with
  | String c s' => String (toLowerCase_char c) (toLowerCase s')
  | EmptyString => EmptyString
  end.

(** ** searchUsers (lines 150-162) *)

(** [user.field.toLowerCase().includes(searchTerm)]: reading
    [toLowerCase] from [undefined] or [null] throws, and the other values
    that are not strings have no such method. *)
Definition lowercase_includes (user : obj) (field : string) (searchTerm : string)
  : exn + bool :=
  match get user field with
  | VStr s => inr (Str.contains searchTerm (toLowerCase s))
  | VUndef => inl (TypeError "Cannot read properties of undefined (reading 'toLowerCase')")
  | VNull => inl (TypeError "Cannot read properties of null (reading 'toLowerCase')")
  | _ => inl (TypeError ("user." +:+ field +:+ ".toLowerCase is not a function"))
  end.

(** [a || b] on computations: [b] is evaluated only when [a] is false. *)
Definition or_else (a b : exn + bool) : exn + bool :=
  match a with
  | inl e => inl e
  | inr true => inr true
  | inr false => b
  end.

(** The callback of the [filter] in [searchUsers]. *)
Definition search_predicate (searchTerm : string) (user : obj) : exn + bool :=
  or_else (lowercase_includes user "firstName" searchTerm)
    (or_else (lowercase_includes user "lastName" searchTerm)
       (or_else (lowercase_includes user "email" searchTerm)
          (lowercase_includes user "userType" searchTerm))).

(** [l.filter(p)] for a callback that may throw: the first throw ends it. *)
Fixpoint filter_throwing {A} (p : A -> exn + bool) (l : list A) : exn + list A :=
  match l with
  | [] => inr []
  | x :: l' =>
      match p x with
      | inl e => inl e
      | inr b =>
          match filter_throwing p l' with
          | inl e => inl e
          | inr kept => inr (if b then x :: kept else kept)
          end
      end
  end.

(** [searchUsers(query)] has no [try]: what it throws reaches the caller.
    It changes nothing. *)
Definition searchUsers (query : value) (w : world) : exn + list obj :=
  if negb (truthy query) then inr (getAllUsers w)
  else match query with
       | VStr q =>
           if String.eqb (Str.trim q) "" then inr (getAllUsers w)
           else filter_throwing (search_predicate (Str.trim (toLowerCase q)))
                  (users (this w))
       | _ => inl (TypeError "query.trim is not a function")
       end.

(** ** getStats and exportUsers (lines 167-189, 262-268) *)

Record stats := {
  total : nat;
  active : nat;
  inactive : Z;
  newToday : nat;
  byType : option (gmap string Z);
}.

(** The names every object inherits from [Object.prototype].  The object
    in which [getStats] counts starts as [{}], so [acc[name]] is not
    [undefined] for these names even before anything was counted. *)
Definition Object_prototype_names : list string :=
  ["constructor"; "__defineGetter__"; "__defineSetter__"; "hasOwnProperty";
   "__lookupGetter__"; "__lookupSetter__"; "isPrototypeOf"; "propertyIsEnumerable";
   "toString"; "valueOf"; "__proto__"; "toLocaleString"].

(** One step of the [reduce]: [acc[user.userType] = (acc[user.userType] || 0) + 1].
    The property name is the string of the value.  The counts are kept for
    the names that are not inherited.  For an inherited name what is read
    is a function or an object, and the sum is a string: assigned to
    [__proto__] it is ignored, so that the step changes nothing; assigned
    to one of the other names it becomes a property that is no count
    ([None]). *)
Definition byType_step (acc : option (gmap string Z)) (user : obj) : option (gmap string Z) :=
  match acc with
  | None => None
  | Some counts =>
      let key := ToString (get user "userType") in
      if String.eqb key "__proto__" then Some counts
      else if bool_decide (key ∈ Object_prototype_names) then None
      else Some (<[key := default 0 (counts !! key) + 1]> counts)
  end.

Record export := {
  export_users : list obj;
  exportDate : string;
  export_stats : stats;
}.

Section Dates.

(** [new Date(v).toDateString()] for a value [v]: the engine's reading of
    the value as a date, printed as a day in the local time zone ("Invalid
    Date" when it is none). *)
Variable Date_toDateString : value -> string.

(** [new Date().toDateString()]: the day of the instant the clock shows. *)
Definition today : St string :=
  fun w => (Date_toDateString (VStr (clock w (reads w))),
            {| this := this w; localStorage := localStorage w; delivered := delivered w;
               clock := clock w; reads := S (reads w);
               storage_throws := storage_throws w; writes := writes w |}).

Definition getStats : St stats :=
  fun w =>
    let us := users (this w) in
    let total := length us in
    let active := length (List.filter (fun user => strict_eq (get user "status") (VStr "active")) us) in
    let inactive := (Z.of_nat total - Z.of_nat active)%Z in
    let '(day, w') := today w in
    let newToday :=
      length (List.filter
                (fun user => String.eqb (Date_toDateString (get user "createdAt")) day) us) in
    ({| total := total; active := active; inactive := inactive; newToday := newToday;
        byType := fold_left byType_step us (Some ∅) |}, w').

Definition exportUsers : St export :=
  fun w =>
    let us := getAllUsers w in
    let '(now, w1) :=
      (clock w (reads w),
       {| this := this w; localStorage := localStorage w; delivered := delivered w;
          clock := clock w; reads := S (reads w);
          storage_throws := storage_throws w; writes := writes w |}) in
    let '(st, w2) := getStats w1 in
    ({| export_users := us; exportDate := now; export_stats := st |}, w2).

End Dates.

(** ** Auto-save (lines 352-363)

    The instance keeps the handle of one timer in [this.autoSaveInterval];
    the timers themselves belong to the page.  [setInterval] hands out a
    new handle, an integer greater than zero, at every call. *)

Module AutoSave.

Record timers := {
  autoSaveInterval : option nat;     (* [None] is [undefined] or [null] *)
  running : list (nat * Z);          (* the page's timers: handle, interval *)
  started : nat;                     (* how many timers were ever started *)
}.

Definition initial : timers :=
  {| autoSaveInterval := None; running := []; started := 0 |}.

(** [enableAutoSave(interval = 30000)] *)
Definition enableAutoSave (interval : option Z) (t : timers) : timers :=
  let handle := S (started t) in
  {| autoSaveInterval := Some handle;
     running := running t ++ [(handle, default 30000 interval)];
     started := S (started t) |}.

(** [clearInterval(handle)] *)
Definition clearInterval (handle : nat) (l : list (nat * Z)) : list (nat * Z) :=
  List.filter (fun e => negb (fst e =? handle)%nat) l.

(** [disableAutoSave()]: [if (this.autoSaveInterval)] tests the handle. *)
Definition disableAutoSave (t : timers) : timers :=
  match autoSaveInterval t with
  | Some handle =>
      if (handle =? 0)%nat then t
      else {| autoSaveInterval := None;
              running := clearInterval handle (running t);
              started := started t |}
  | None => t
  end.

Inductive call :=
| Enable (interval : option Z)
| Disable.

Definition perform (t : timers) (c : call) : timers :=
  match c with
  | Enable interval => enableAutoSave interval t
  | Disable => disableAutoSave t
  end.

End AutoSave.

(** ** What the store keeps *)

Definition nonblank_string (v : value) : bool :=
  match v with
  | VStr s => negb (Str.all_space s)
  | _ => false
  end.

(** The inputs the validator lets through, said directly. *)
Definition acceptable (u : obj) : bool :=
  forallb (fun field => nonblank_string (get u field)) required
  && isValidEmail (get u "email")
  && includes validTypes (get u "userType")
  && (negb (truthy (get u "status")) || includes validStatuses (get u "status")).

Definition emails_of (records : list obj) : list value :=
  map (fun u => get u "email") records.

(** The id of the record is an integer from [lo] up to, not including, [hi]. *)
Definition id_in (lo hi : Z) (r : obj) : Prop :=
  exists k, get r "id" = VNum (Int k) /\ lo <= k < hi.

(** Records that pass validation, with ids from 1 below the counter [n],
    no id twice and no e-mail twice; the counter is at most 2^53, up to
    where it counts exactly. *)
Definition store_ok (n : Z) (us : list obj) : Prop :=
  1 <= n <= 2 ^ 53
  /\ Forall (fun r => passes r = true /\ id_in 1 n r) us
  /\ NoDup (ids_of us)
  /\ NoDup (emails_of us).

Definition service_ok (s : UserService) : Prop :=
  exists n, nextId s = Int n /\ store_ok n (users s).

(** The instance is in order, and so is what the slot holds. *)
Definition world_ok (w : world) : Prop :=
  service_ok (this w)
  /\ forall text, localStorage w !! storage_key = Some text ->
                  exists n, store_ok n (JSON_parse text).

(** In order, with room for [k] more records: the counter can move on [k]
    times and still be at most 2^53. *)
Definition service_room (k : Z) (s : UserService) : Prop :=
  exists n, nextId s = Int n /\ n + k <= 2 ^ 53 /\ store_ok n (users s).

(** The same of the instance and of what the slot holds. *)
Definition world_room (k : Z) (w : world) : Prop :=
  service_room k (this w)
  /\ forall text, localStorage w !! storage_key = Some text ->
                  exists n, n + k <= 2 ^ 53 /\ store_ok n (JSON_parse text).

(** The operations whose inputs bring no [id] of their own. *)
Definition keeps_ids (o : op) : bool :=
  match o with
  | Crud (CreateUser userData) => no_own_id userData
  | Crud (UpdateUser _ userData) => no_own_id userData
  | ImportUsers usersData => forallb no_own_id usersData
  | _ => true
  end.

Definition is_Subscribe_of (cb : callback) (o : op) : bool :=
  match o with
  | Subscribe cb' => bool_decide (cb' = cb)
  | _ => false
  end.

(** The deliveries of the given events to the given subscribers: event by
    event, each to every subscriber in registration order. *)
Definition fan_out (obs : list callback) (evs : list event) : list (callback * event) :=
  flat_map (fun ev => map (fun cb => (cb, ev)) obs) evs.

(** ** Searching and counting, said directly *)

(** The text of a field, for the records whose field is a string. *)
Definition field_text (u : obj) (k : string) : string :=
  match get u k with
  | VStr s => s
  | _ => ""
  end.

(** One of the four searched fields contains the term, letter case apart. *)
Definition matches_term (searchTerm : string) (u : obj) : bool :=
  existsb (fun k => Str.contains searchTerm (toLowerCase (field_text u k)))
    ["firstName"; "lastName"; "email"; "userType"].

(** How many of the records have exactly this type. *)
Definition count_type (t : string) (us : list obj) : Z :=
  Z.of_nat (length (List.filter (fun user => strict_eq (get user "userType") (VStr t)) us)).

(** The type of the record is a string that [Object.prototype] has no
    property for. *)
Definition plain_type (u : obj) : Prop :=
  exists t, get u "userType" = VStr t /\ t ∉ Object_prototype_names.

(** [new] is [old] as [createUser] takes it in: the same properties, the
    two stamps and the status apart, and the same id when [old] has one. *)
Definition imported_as (old new : obj) : Prop :=
  (forall k, k <> "id" -> k <> "createdAt" -> k <> "lastActive" -> k <> "status" ->
             get new k = get old k)
  /\ (is_Some (old !! "id") -> get new "id" = get old "id").

(** The timer with the given handle comes due: while it is running, its
    callback calls [saveUsers] (and drops the result). *)
Definition timer_fires (t : AutoSave.timers) (handle : nat) : St unit :=
  fun w =>
    if existsb (fun e => (fst e =? handle)%nat) (AutoSave.running t)
    then (tt, snd (saveUsers w))
    else (tt, w).

(** The handles the page has given out so far are those from 1 to
    [started]. *)
Definition timers_ok (t : AutoSave.timers) : Prop :=
  Forall (fun e => (1 <= fst e <= AutoSave.started t)%nat) (AutoSave.running t)
  /\ match AutoSave.autoSaveInterval t with
     | Some handle => (1 <= handle <= AutoSave.started t)%nat
     | None => True
     end.

(** Every character of the string is in the class. *)
Fixpoint all_chars (p : ascii -> bool) (s : string) : bool :=
  match s with
  | String c s' => p c && all_chars p s'
  | EmptyString => true
  end.

(** A part of an address: not empty, no white space and no [@]. *)
Definition address_part (s : string) : Prop :=
  s <> "" /\ all_chars not_space_at s = true.

(** * Properties *)

(** ** Strings and white space *)

Lemma trimEnd_keeps_nonspace c s :
  Str.is_space c = false -> Str.trimEnd (String c s) <> "".
Proof.
  intros Hc. simpl. destruct (Str.trimEnd s); [rewrite Hc|]; discriminate.
Qed.

Lemma trimStart_all_space s :
  Str.all_space s = true -> Str.trimStart s = "".
Proof.
  induction s as [|c s IH]; simpl; [reflexivity|].
  intros [Hc Hs]%andb_true_iff. rewrite Hc. auto.
Qed.

Lemma trimStart_not_all_space s :
  Str.all_space s = false ->
  exists c s', Str.trimStart s = String c s' /\ Str.is_space c = false.
Proof.
  induction s as [|c s IH]; simpl; [discriminate|].
  destruct (Str.is_space c) eqn:Hc; simpl; [exact IH|].
  intros _. eauto.
Qed.

(** [s.trim() === ''] holds exactly for the strings made of white space. *)
Lemma trim_empty_iff s :
  String.eqb (Str.trim s) "" = Str.all_space s.
Proof.
  unfold Str.trim. destruct (Str.all_space s) eqn:Hs.
  - rewrite trimStart_all_space by assumption. reflexivity.
  - destruct (trimStart_not_all_space s Hs) as (c & s' & -> & Hc).
    apply String.eqb_neq. apply trimEnd_keeps_nonspace. assumption.
Qed.

(** ** Regular expressions: the matcher decides the language *)

Lemma append_empty (s1 s2 : string) : s1 +:+ s2 = "" -> s1 = "" /\ s2 = "".
Proof. destruct s1; simpl; [auto|discriminate]. Qed.

Lemma matches_nullable (r : Regex.re) :
  Regex.matches r "" -> Regex.nullable r = true.
Proof.
  intros H. remember "" as s eqn:Hs.
  induction H as [|p c Hp|r1 r2 s1 s2 H1 IH1 H2 IH2|r1 r2 s H IH|r1 r2 s H IH
                 | r | r s1 s2 H1 IH1 H2 IH2]; simpl; try discriminate; try reflexivity.
  - apply append_empty in Hs as [-> ->]. now rewrite IH1, IH2.
  - now rewrite IH.
  - rewrite IH by assumption. apply orb_true_r.
Qed.

Lemma nullable_matches (r : Regex.re) :
  Regex.nullable r = true -> Regex.matches r "".
Proof.
  induction r as [| |p|r1 IH1 r2 IH2|r1 IH1 r2 IH2|r IH]; simpl; intros H;
    try discriminate.
  - constructor.
  - apply andb_true_iff in H as [H1 H2].
    change "" with ("" +:+ ""). constructor; auto.
  - apply orb_true_iff in H as [H|H]; [apply Regex.m_alt_l|apply Regex.m_alt_r]; auto.
  - constructor.
Qed.

Lemma matches_deriv (r : Regex.re) (c : ascii) (s : string) :
  Regex.matches r (String c s) -> Regex.matches (Regex.deriv c r) s.
Proof.
  intros H. remember (String c s) as s0 eqn:Hs0. revert c s Hs0.
  induction H as [|p a Hp|r1 r2 s1 s2 H1 IH1 H2 IH2|r1 r2 s' H IH|r1 r2 s' H IH
                 | r | r s1 s2 H1 IH1 H2 IH2]; intros c s Hs0; simpl.
  - discriminate.
  - injection Hs0 as -> <-. rewrite Hp. constructor.
  - destruct s1 as [|a s1]; simpl in Hs0.
    + rewrite (matches_nullable _ H1). apply Regex.m_alt_r. now apply IH2.
    + injection Hs0 as -> <-.
      destruct (Regex.nullable r1); [apply Regex.m_alt_l|]; constructor; auto.
  - apply Regex.m_alt_l. now apply IH.
  - apply Regex.m_alt_r. now apply IH.
  - discriminate.
  - destruct s1 as [|a s1]; simpl in Hs0.
    + now apply IH2.
    + injection Hs0 as -> <-. constructor; auto.
Qed.

Lemma deriv_matches (r : Regex.re) (c : ascii) (s : string) :
  Regex.matches (Regex.deriv c r) s -> Regex.matches r (String c s).
Proof.
  revert s. induction r as [| |p|r1 IH1 r2 IH2|r1 IH1 r2 IH2|r IH]; simpl; intros s H.
  - inversion H.
  - inversion H.
  - destruct (p c) eqn:Hp; inversion H; subst. now constructor.
  - assert (Hcat : forall s, Regex.matches (Regex.Cat (Regex.deriv c r1) r2) s ->
                             Regex.matches (Regex.Cat r1 r2) (String c s)).
    { intros s' H'. inversion H' as [| |? ? s1 s2 Ha Hb| | | |]; subst.
      change (String c (s1 +:+ s2)) with (String c s1 +:+ s2). constructor; auto. }
    destruct (Regex.nullable r1) eqn:Hn; [|now apply Hcat].
    inversion H as [| | |? ? ? Ha|? ? ? Hb| |]; subst; [now apply Hcat|].
    change (String c s) with ("" +:+ String c s).
    constructor; [now apply nullable_matches|now apply IH2].
  - inversion H; subst; [apply Regex.m_alt_l|apply Regex.m_alt_r]; auto.
  - inversion H as [| |? ? s1 s2 Ha Hb| | | |]; subst.
    change (String c (s1 +:+ s2)) with (String c s1 +:+ s2). constructor; auto.
Qed.

(** [Regex.test] accepts exactly the strings of the language. *)
Lemma test_matches (r : Regex.re) (s : string) :
  Regex.test r s = true <-> Regex.matches r s.
Proof.
  revert r. induction s as [|c s IH]; intros r; simpl.
  - split; [apply nullable_matches|apply matches_nullable].
  - rewrite IH. split; [apply deriv_matches|apply matches_deriv].
Qed.

Lemma isValidEmail_matches (email : string) :
  isValidEmail (VStr email) = true <-> Regex.matches emailRegex email.
Proof. apply test_matches. Qed.

Example isValidEmail_examples :
  isValidEmail (VStr "a@b.com") = true /\ isValidEmail (VStr "a@b.c.d") = true
  /\ isValidEmail (VStr "a@b") = false /\ isValidEmail (VStr "a b@c.d") = false
  /\ isValidEmail (VStr "a@@b.c") = false /\ isValidEmail (VStr "@b.c") = false
  /\ isValidEmail (VStr "a@b.") = false.
Proof. repeat split; reflexivity. Qed.

Example parseInt_examples :
  parseInt (VStr "3") = Int 3 /\ parseInt (VStr "3x") = Int 3
  /\ parseInt (VStr "  -12abc") = Int (-12) /\ parseInt (VStr "0x1f") = Int 31
  /\ parseInt (VStr "abc") = NaN /\ parseInt (VNum (Int 42)) = Int 42
  /\ parseInt VUndef = NaN /\ parseInt (VStr "0x") = NaN /\ parseInt (VStr "+7") = Int 7.
Proof. repeat split; reflexivity. Qed.

(** ** The validator *)

Lemma check_required_textual userData field errs :
  string_or_falsy (get userData field) = true ->
  check_required userData field errs =
    inr (errs ++ if blank (get userData field) then [field +:+ " is required"] else []).
Proof.
  unfold check_required, string_or_falsy, blank.
  destruct (get userData field) as [| |b|n|s] eqn:Hv; simpl.
  - reflexivity.
  - reflexivity.
  - destruct b; [discriminate|reflexivity].
  - destruct n as [|z]; [reflexivity|].
    destruct (z =? 0); [reflexivity|discriminate].
  - intros _. rewrite trim_empty_iff.
    destruct (String.eqb s ""); simpl.
    + reflexivity.
    + destruct (Str.all_space s); [reflexivity|]. now rewrite app_nil_r.
Qed.

Lemma forEach_required_textual userData fields errs :
  forallb (fun field => string_or_falsy (get userData field)) fields = true ->
  forEach_required userData fields errs =
    inr (errs ++ flat_map (fun field => if blank (get userData field)
                                        then [field +:+ " is required"] else []) fields).
Proof.
  revert errs. induction fields as [|f fields IH]; intros errs; simpl.
  - intros _. now rewrite app_nil_r.
  - intros [Hf Hrest]%andb_true_iff.
    rewrite check_required_textual by assumption.
    rewrite IH by assumption. now rewrite <- app_assoc.
Qed.

Lemma validation_ext (l1 l2 : list string) :
  l1 = l2 ->
  {| isValid := bool_decide (length l1 = 0%nat); errors := l1 |} =
  {| isValid := bool_decide (l2 = []); errors := l2 |}.
Proof.
  intros ->. f_equal. apply bool_decide_ext. apply length_zero_iff_nil.
Qed.

Lemma validateUser_textual candidate :
  textual candidate = true ->
  validateUser candidate =
    inr {| isValid := bool_decide (spec_errors candidate = []);
           errors := spec_errors candidate |}.
Proof.
  intros Ht. unfold validateUser.
  rewrite forEach_required_textual by exact Ht. simpl app at 1.
  f_equal. apply validation_ext.
  unfold status_check, type_check, email_check, spec_errors.
  destruct (truthy (get candidate "email") && _),
           (truthy (get candidate "userType") && _),
           (truthy (get candidate "status") && _);
    simpl; rewrite ?app_nil_r, <- ?app_assoc; reflexivity.
Qed.

(** ** What each method body does, case by case *)

Ltac unfold_monad :=
  unfold bind, ret, throw, lift, of_sum, get_users, set_users, set_nextId,
    nextId_postincr, Date_toISOString, notify, getItem, setItem, with_this in *.

Lemma try_catch_throw {A} (body : M A) type w e w1 :
  body w = (inl e, w1) ->
  try_catch body type w = (Failure (message e), after_error w1 (message e) type).
Proof. intros H. unfold try_catch. rewrite H. reflexivity. Qed.

Lemma try_catch_return {A} (body : M A) type w a w1 :
  body w = (inr a, w1) ->
  try_catch body type w = (Success a, w1).
Proof. intros H. unfold try_catch. rewrite H. reflexivity. Qed.

Lemma createUser_body_cases userData w :
  createUser_body userData w =
    match validateUser userData with
    | inl e => (inl e, w)
    | inr v =>
        if negb (isValid v) then (inl (ValidationError (errors v)), w)
        else if email_taken w userData then (inl DuplicateEmailError, w)
        else (inr (created_user w userData), after_create w userData)
    end.
Proof.
  unfold createUser_body, email_taken. unfold_monad.
  destruct (validateUser userData) as [e|v]; [reflexivity|].
  destruct (negb (isValid v)); [reflexivity|].
  destruct (bool_decide _); reflexivity.
Qed.

(** A throwing [createUser] has changed nothing when it throws. *)
Lemma createUser_body_throw userData w e w1 :
  createUser_body userData w = (inl e, w1) -> w1 = w.
Proof.
  rewrite createUser_body_cases.
  destruct (validateUser userData) as [e'|v]; [congruence|].
  destruct (negb (isValid v)); [congruence|].
  destruct (email_taken w userData); congruence.
Qed.

Lemma find_findIndex_None {A} (p : A -> bool) (l : list A) :
  List.find p l = None <-> findIndex p l = None.
Proof.
  induction l as [|x l IH]; simpl; [tauto|].
  destruct (p x); [split; discriminate|].
  rewrite IH. destruct (findIndex p l); simpl; split; congruence.
Qed.

Lemma findIndex_Some {A} (p : A -> bool) (l : list A) i :
  findIndex p l = Some i ->
  exists x, l !! i = Some x /\ p x = true /\ List.find p l = Some x.
Proof.
  revert i. induction l as [|x l IH]; intros i; simpl; [discriminate|].
  destruct (p x) eqn:Hp.
  - intros [= <-]. exists x. auto.
  - destruct (findIndex p l) as [j|]; simpl; [|discriminate].
    intros [= <-]. destruct (IH j eq_refl) as (y & ? & ? & ?). exists y. auto.
Qed.

Lemma updateUser_body_cases id userData w :
  updateUser_body id userData w =
    match findIndex (has_id id) (users (this w)) with
    | None => (inl NotFoundError, w)
    | Some userIndex =>
        match validateUser userData with
        | inl e => (inl e, w)
        | inr v =>
            if negb (isValid v) then (inl (ValidationError (errors v)), w)
            else if email_taken_by_other w id userData then (inl DuplicateEmailError, w)
            else (inr (updated_user w userIndex userData), after_update w userIndex userData)
        end
    end.
Proof.
  unfold updateUser_body, email_taken_by_other. unfold_monad.
  destruct (findIndex _ _) as [i|]; [|reflexivity].
  destruct (validateUser userData) as [e|v]; [reflexivity|].
  destruct (negb (isValid v)); [reflexivity|].
  destruct (findUserByEmail _ _) as [u|]; [|reflexivity].
  destruct (negb (has_id id u)); reflexivity.
Qed.

Lemma updateUser_body_throw id userData w e w1 :
  updateUser_body id userData w = (inl e, w1) -> w1 = w.
Proof.
  rewrite updateUser_body_cases.
  destruct (findIndex _ _); [|congruence].
  destruct (validateUser userData) as [e'|v]; [congruence|].
  destruct (negb (isValid v)); [congruence|].
  destruct (email_taken_by_other w id userData); congruence.
Qed.

Lemma deleteUser_body_cases id w :
  deleteUser_body id w =
    match findIndex (has_id id) (users (this w)) with
    | None => (inl NotFoundError, w)
    | Some userIndex => (inr (at_index (users (this w)) userIndex), after_delete w userIndex)
    end.
Proof.
  unfold deleteUser_body. unfold_monad.
  destruct (findIndex _ _); reflexivity.
Qed.

Lemma deleteUser_body_throw id w e w1 :
  deleteUser_body id w = (inl e, w1) -> w1 = w.
Proof.
  rewrite deleteUser_body_cases. destruct (findIndex _ _); congruence.
Qed.

(** ** The validator accumulates its errors *)

(** C8 (amended).  For every candidate whose firstName, lastName, email,
    phone and userType are each falsy or a string, [validateUser] returns,
    and its error list is: one ["<field> is required"] per field that is
    falsy or made of white space only, in the order firstName, lastName,
    email, phone, userType; then ["Invalid email format"],
    ["Invalid user type"] and ["Invalid status"] for each of these checks
    that applies and fails.  [isValid] holds exactly when the list is empty.
    The validator is a function of the candidate alone: it reads no state
    and changes none. *)
Theorem validateUser_accumulates (candidate : obj) :
  textual candidate = true ->
  exists v, validateUser candidate = inr v
            /\ errors v = spec_errors candidate
            /\ (isValid v = true <-> errors v = []).
Proof.
  intros Ht. eexists. split; [apply validateUser_textual; exact Ht|].
  simpl. split; [reflexivity|]. apply bool_decide_eq_true.
Qed.

Lemma validateUser_accumulates_witness :
  textual (<["email" := VStr "  "]> (<["status" := VStr "gone"]> ∅)) = true /\
  exists v, validateUser (<["email" := VStr "  "]> (<["status" := VStr "gone"]> ∅)) = inr v
            /\ errors v = ["firstName is required"; "lastName is required";
                           "email is required"; "phone is required";
                           "userType is required"; "Invalid email format";
                           "Invalid status"]
            /\ (isValid v = true <-> errors v = []).
Proof.
  split; [reflexivity|].
  exact (validateUser_accumulates
           (<["email" := VStr "  "]> (<["status" := VStr "gone"]> ∅)) eq_refl).
Defined.

(** C8, as stated, fails: a candidate whose phone is the number 5551234
    makes [validateUser] throw instead of returning an error list. *)
Lemma validateUser_throws_on_number :
  validateUser (<["phone" := VNum (Int 5551234)]> alice)
    = inl (TypeError "userData[field].trim is not a function")
  /\ ~ (exists v, validateUser (<["phone" := VNum (Int 5551234)]> alice) = inr v).
Proof.
  assert (H : validateUser (<["phone" := VNum (Int 5551234)]> alice)
              = inl (TypeError "userData[field].trim is not a function"))
    by (vm_compute; reflexivity).
  split; [exact H|]. intros [v Hv]. rewrite H in Hv. discriminate.
Qed.

(** ** Updating an id that is not there *)

(** C2 (amended).  For every store state and every id not present in the
    store, [updateUser(id, data)] fails with the message "User not found",
    leaves the instance (records, counter, subscribers) and the storage
    unchanged, and delivers exactly one event to each subscriber: the
    [error] event [{message: "User not found", type: "update"}]; no
    [userUpdated] or [usersChanged] event is emitted. *)
Theorem updateUser_absent_id (w : world) (id : value) (userData : obj) :
  getUserById id w = None ->
  updateUser id userData w =
    (Failure "User not found",
     {| this := this w; localStorage := localStorage w;
        delivered := delivered w
                     ++ map (fun cb => (cb, error "User not found" "update"))
                          (observers (this w));
        clock := clock w; reads := reads w;
        storage_throws := storage_throws w; writes := writes w |}).
Proof.
  intros Hnone. apply find_findIndex_None in Hnone.
  unfold updateUser.
  rewrite (try_catch_throw _ _ w NotFoundError w).
  - reflexivity.
  - rewrite updateUser_body_cases. now rewrite Hnone.
Qed.

Lemma updateUser_absent_id_witness :
  updateUser (VStr "7") bob watched_alice =
    (Failure "User not found",
     {| this := this watched_alice; localStorage := localStorage watched_alice;
        delivered := delivered watched_alice
                     ++ map (fun cb => (cb, error "User not found" "update"))
                          (observers (this watched_alice));
        clock := clock watched_alice; reads := reads watched_alice;
        storage_throws := storage_throws watched_alice; writes := writes watched_alice |}).
Proof.
  apply (updateUser_absent_id watched_alice (VStr "7") bob).
  vm_compute. reflexivity.
Defined.

(** C2, as stated, fails: with one subscriber and no record, the failed
    update delivers an event to that subscriber. *)
Lemma updateUser_absent_id_emits :
  getUserById (VNum (Int 1)) watched = None
  /\ delivered watched = []
  /\ delivered (snd (updateUser (VNum (Int 1)) alice watched))
     = [(0%nat, error "User not found" "update")].
Proof. repeat split; vm_compute; reflexivity. Qed.

(** ** Creating a user whose e-mail is taken *)

Lemma findUserByEmail_live (us : list obj) (u : obj) (e : string) :
  u ∈ us -> get u "email" = VStr e -> is_Some (findUserByEmail us (VStr e)).
Proof.
  intros Hin He. unfold findUserByEmail.
  destruct (List.find _ us) as [x|] eqn:Hfind; [eauto|].
  apply list_elem_of_In in Hin.
  pose proof (List.find_none _ _ Hfind u Hin) as Hno. simpl in Hno.
  rewrite He in Hno. unfold strict_eq in Hno.
  rewrite bool_decide_eq_true_2 in Hno by reflexivity. discriminate.
Qed.

(** C3 (amended).  For every store containing a live record with email e,
    [createUser] on any input whose email equals e (exact string match)
    fails, and the store afterwards holds exactly the records it held
    before.  When the input passes validation the failure is the
    duplicate-email error, whose message "A user with this email already
    exists" contains "already exists", whatever the other fields are; when
    the input does not pass validation, the failure reports the validation
    errors instead. *)
Theorem createUser_duplicate_email (w : world) (userData u : obj) (e : string) :
  u ∈ users (this w) ->
  get u "email" = VStr e ->
  get userData "email" = VStr e ->
  exists msg w',
    createUser userData w = (Failure msg, w')
    /\ users (this w') = users (this w)
    /\ (forall v, validateUser userData = inr v -> isValid v = true ->
          msg = "A user with this email already exists"
          /\ Str.contains "already exists" msg = true)
    /\ (forall v, validateUser userData = inr v -> isValid v = false ->
          msg = Str.join ", " (errors v)).
Proof.
  intros Hin Hu Hd.
  assert (Htaken : email_taken w userData = true).
  { unfold email_taken. rewrite Hd. apply bool_decide_eq_true.
    eapply findUserByEmail_live; eassumption. }
  pose proof (createUser_body_cases userData w) as Hbody.
  rewrite Htaken in Hbody. unfold createUser.
  destruct (validateUser userData) as [ex|v] eqn:Hval.
  - rewrite (try_catch_throw _ _ _ _ _ Hbody).
    do 2 eexists. split; [reflexivity|]. split; [reflexivity|].
    split; intros v' [=].
  - destruct (isValid v) eqn:Hv; simpl in Hbody;
      rewrite (try_catch_throw _ _ _ _ _ Hbody);
      do 2 eexists; (split; [reflexivity|]); (split; [reflexivity|]);
      split; intros v' [= <-] Hv'; try congruence.
    + split; reflexivity.
    + reflexivity.
Qed.

Lemma createUser_duplicate_email_witness :
  exists msg w',
    createUser (<["firstName" := VStr "Zed"]> alice) watched_alice = (Failure msg, w')
    /\ users (this w') = users (this watched_alice)
    /\ (forall v, validateUser (<["firstName" := VStr "Zed"]> alice) = inr v ->
          isValid v = true ->
          msg = "A user with this email already exists"
          /\ Str.contains "already exists" msg = true)
    /\ (forall v, validateUser (<["firstName" := VStr "Zed"]> alice) = inr v ->
          isValid v = false ->
          msg = Str.join ", " (errors v)).
Proof.
  apply (createUser_duplicate_email watched_alice (<["firstName" := VStr "Zed"]> alice)
           (created_user watched alice) "a@b.com").
  - change (users (this watched_alice)) with [created_user watched alice].
    apply list_elem_of_here.
  - vm_compute. reflexivity.
  - vm_compute. reflexivity.
Defined.

(** C3, as stated, fails: an input that carries the taken e-mail and
    nothing else is turned down by the validator, so the message is the
    list of missing fields and does not contain "already exists". *)
Lemma createUser_duplicate_email_invalid_input :
  get (created_user watched alice) "email" = VStr "a@b.com"
  /\ users (this watched_alice) = [created_user watched alice]
  /\ fst (createUser {[ "email" := VStr "a@b.com" ]} watched_alice)
     = Failure "firstName is required, lastName is required, phone is required, userType is required"
  /\ Str.contains "already exists"
       "firstName is required, lastName is required, phone is required, userType is required"
     = false.
Proof. repeat split; vm_compute; reflexivity. Qed.

(** ** Failures are caught and reported *)

Lemma crud_body_throw (c : crud) (w : world) (e : exn) (w1 : world) :
  crud_body c w = (inl e, w1) -> w1 = w.
Proof.
  destruct c; simpl.
  - apply createUser_body_throw.
  - apply updateUser_body_throw.
  - apply deleteUser_body_throw.
Qed.

Lemma crud_call_try_catch (c : crud) :
  crud_call c = try_catch (crud_body c) (crud_type c).
Proof. destruct c; reflexivity. Qed.

(** C9.  Whatever the body of [createUser], [updateUser] or [deleteUser]
    throws is caught: the call returns [{success: false, error: message}]
    with the message of what was thrown, every subscriber is handed the
    [error] event [{message, type}] with type "create", "update" or
    "delete" respectively, and the instance is as it was before the call.
    The three methods are total functions into [result]: nothing
    propagates to the caller. *)
Theorem failures_are_recovered (c : crud) (w : world) (e : exn) (w1 : world) :
  crud_body c w = (inl e, w1) ->
  exists w', crud_call c w = (Failure (message e), w')
             /\ this w' = this w
             /\ delivered w' = delivered w
                  ++ map (fun cb => (cb, error (message e) (crud_type c)))
                       (observers (this w)).
Proof.
  intros Hbody. pose proof (crud_body_throw _ _ _ _ Hbody) as ->.
  rewrite crud_call_try_catch, (try_catch_throw _ _ _ _ _ Hbody).
  eexists. repeat split.
Qed.

Lemma failures_are_recovered_witness :
  exists w', deleteUser (VStr "9") watched_alice = (Failure "User not found", w')
             /\ this w' = this watched_alice
             /\ delivered w' = delivered watched_alice
                  ++ map (fun cb => (cb, error "User not found" "delete"))
                       (observers (this watched_alice)).
Proof.
  apply (failures_are_recovered (DeleteUser (VStr "9")) watched_alice NotFoundError
           watched_alice).
  vm_compute. reflexivity.
Defined.

(** A call that returns a failure is a call whose body threw. *)
Lemma crud_failure_was_thrown (c : crud) (w w' : world) (msg : string) :
  crud_call c w = (Failure msg, w') ->
  exists e, crud_body c w = (inl e, w) /\ msg = message e.
Proof.
  rewrite crud_call_try_catch. unfold try_catch.
  destruct (crud_body c w) as [[e|a] w1] eqn:Hbody; [|discriminate].
  pose proof (crud_body_throw _ _ _ _ Hbody) as ->.
  intros [= <- _]. eauto.
Qed.

(** ** Validation looks at the patch only *)

Lemma getUserById_findIndex (id : value) (w : world) :
  is_Some (getUserById id w) -> exists i, findIndex (has_id id) (users (this w)) = Some i.
Proof.
  unfold getUserById. intros [u Hu].
  destruct (findIndex _ _) as [i|] eqn:Hi; [eauto|].
  apply find_findIndex_None in Hi. congruence.
Qed.

Lemma updateUser_validation_error (w : world) (id : value) (patch : obj) (errs : list string) :
  is_Some (getUserById id w) ->
  fst (updateUser_body id patch w) = inl (ValidationError errs) <->
  exists v, validateUser patch = inr v /\ isValid v = false /\ errors v = errs.
Proof.
  intros [i Hi]%getUserById_findIndex.
  rewrite updateUser_body_cases, Hi.
  destruct (validateUser patch) as [ex|v] eqn:Hval.
  - simpl. split.
    + intros [= ->]. unfold validateUser in Hval.
      destruct (forEach_required _ _ _) as [ex|l] eqn:Hloop; [|discriminate].
      injection Hval as ->. exfalso. revert Hloop. generalize (@nil string).
      induction required as [|f fs IH]; intros acc; simpl; [discriminate|].
      unfold check_required at 1.
      destruct (negb _); [apply IH|].
      destruct (get patch f); try discriminate.
      destruct (String.eqb _ _); apply IH.
    + intros (v & [=] & _).
  - destruct (isValid v) eqn:Hv; simpl.
    + split.
      * destruct (email_taken_by_other w id patch); simpl; discriminate.
      * intros (v' & [= <-] & ? & _). congruence.
    + split.
      * intros [= <-]. eauto.
      * intros (v' & [= <-] & _ & ->). reflexivity.
Qed.

(** C5.  In [updateUser], validation is applied to the incoming patch
    alone.  For an id present in the store, the update fails with a
    validation error carrying the messages [errs] exactly when the
    validator, run on the patch, is not satisfied and reports [errs]; the
    store does not enter into it.  Hence for any two stores and ids present
    in them the same patch gives the same validation verdict and the same
    messages, and the message returned is those messages joined by ", ". *)
Theorem updateUser_validates_patch_only (w1 w2 : world) (id1 id2 : value)
    (patch : obj) (errs : list string) :
  is_Some (getUserById id1 w1) ->
  is_Some (getUserById id2 w2) ->
  (fst (updateUser_body id1 patch w1) = inl (ValidationError errs) <->
   exists v, validateUser patch = inr v /\ isValid v = false /\ errors v = errs)
  /\ (fst (updateUser_body id1 patch w1) = inl (ValidationError errs) <->
      fst (updateUser_body id2 patch w2) = inl (ValidationError errs))
  /\ (fst (updateUser_body id1 patch w1) = inl (ValidationError errs) ->
      fst (updateUser id1 patch w1) = Failure (Str.join ", " errs)).
Proof.
  intros H1 H2. split; [|split].
  - apply updateUser_validation_error; assumption.
  - rewrite !updateUser_validation_error by assumption. reflexivity.
  - intros Hbody. unfold updateUser, try_catch.
    destruct (updateUser_body id1 patch w1) as [[e|a] w'] eqn:Hb; simpl in Hbody.
    + injection Hbody as ->. reflexivity.
    + discriminate.
Qed.

Lemma updateUser_validates_patch_only_witness :
  (fst (updateUser_body (VStr "1") {[ "email" := VStr "nowhere" ]} watched_alice)
     = inl (ValidationError ["firstName is required"; "lastName is required";
                             "phone is required"; "userType is required";
                             "Invalid email format"]) <->
   exists v, validateUser {[ "email" := VStr "nowhere" ]} = inr v /\ isValid v = false
             /\ errors v = ["firstName is required"; "lastName is required";
                            "phone is required"; "userType is required";
                            "Invalid email format"])
  /\ (fst (updateUser_body (VStr "1") {[ "email" := VStr "nowhere" ]} watched_alice)
        = inl (ValidationError ["firstName is required"; "lastName is required";
                                "phone is required"; "userType is required";
                                "Invalid email format"]) <->
      fst (updateUser_body (VNum (Int 1)) {[ "email" := VStr "nowhere" ]}
             (snd (createUser bob watched)))
        = inl (ValidationError ["firstName is required"; "lastName is required";
                                "phone is required"; "userType is required";
                                "Invalid email format"]))
  /\ (fst (updateUser_body (VStr "1") {[ "email" := VStr "nowhere" ]} watched_alice)
        = inl (ValidationError ["firstName is required"; "lastName is required";
                                "phone is required"; "userType is required";
                                "Invalid email format"]) ->
      fst (updateUser (VStr "1") {[ "email" := VStr "nowhere" ]} watched_alice)
        = Failure (Str.join ", " ["firstName is required"; "lastName is required";
                                  "phone is required"; "userType is required";
                                  "Invalid email format"])).
Proof.
  apply (updateUser_validates_patch_only watched_alice (snd (createUser bob watched))
           (VStr "1") (VNum (Int 1)) {[ "email" := VStr "nowhere" ]}).
  - exists (created_user watched alice).
    apply (bool_decide_unpack _). vm_compute. exact I.
  - exists (created_user watched bob).
    apply (bool_decide_unpack _). vm_compute. exact I.
Defined.

(** ** The id argument is read with parseInt *)

Lemma digit_of_10 (c : ascii) :
  digit_of 10 c = if is_digit c then Some (Z.of_nat (nat_of_ascii c) - 48) else None.
Proof.
  unfold digit_of, is_digit.
  set (n := Z.of_nat (nat_of_ascii c)).
  destruct (48 <=? n) eqn:H1, (n <=? 57) eqn:H2; simpl.
  - destruct (n - 48 <? 10) eqn:H3; [reflexivity|lia].
  - destruct (97 <=? n) eqn:H3, (n <=? 122) eqn:H4; simpl.
    + destruct (n - 87 <? 10) eqn:H5; [lia|reflexivity].
    + destruct (65 <=? n) eqn:H5, (n <=? 90) eqn:H6; simpl; try reflexivity.
      destruct (n - 55 <? 10) eqn:H7; [lia|reflexivity].
    + destruct (65 <=? n) eqn:H5, (n <=? 90) eqn:H6; simpl; try reflexivity.
      destruct (n - 55 <? 10) eqn:H7; [lia|reflexivity].
    + destruct (65 <=? n) eqn:H5, (n <=? 90) eqn:H6; simpl; try reflexivity.
      destruct (n - 55 <? 10) eqn:H7; [lia|reflexivity].
  - destruct (97 <=? n) eqn:H3; [lia|]. simpl.
    destruct (65 <=? n) eqn:H5; [lia|]. reflexivity.
  - lia.
Qed.

Lemma scan_digits_decimal (s : string) (acc : Z) :
  scan_digits 10 s (Some acc) = Some (digits_value_from (leading_digits s) acc).
Proof.
  revert acc. induction s as [|c s IH]; intros acc; simpl; [reflexivity|].
  rewrite digit_of_10. destruct (is_digit c); simpl; [apply IH|reflexivity].
Qed.

Lemma scan_digits_decimal_start (s : string) :
  leading_digits s <> "" ->
  scan_digits 10 s None = Some (digits_value (leading_digits s)).
Proof.
  destruct s as [|c s]; simpl; [congruence|].
  rewrite digit_of_10. destruct (is_digit c); [|congruence].
  intros _. simpl. apply scan_digits_decimal.
Qed.

Lemma is_digit_not (c d : ascii) :
  is_digit c = true -> is_digit d = false -> Ascii.eqb d c = false.
Proof.
  intros Hc Hd. destruct (Ascii.eqb_spec d c) as [->|]; congruence.
Qed.

Lemma is_digit_not_space (c : ascii) : is_digit c = true -> Str.is_space c = false.
Proof.
  unfold is_digit, Str.is_space. intros [H1 H2]%andb_true_iff.
  apply Z.leb_le in H1. apply Z.leb_le in H2.
  set (n := nat_of_ascii c) in *.
  destruct (9 <=? n)%nat eqn:A, (n <=? 13)%nat eqn:B, (n =? 32)%nat eqn:C,
    (n =? 160)%nat eqn:D; simpl; try reflexivity;
    try apply Nat.leb_le in B; try apply Nat.eqb_eq in C; try apply Nat.eqb_eq in D; lia.
Qed.

(** The integers up to 2^53 are doubles. *)
Lemma round_double_safe (z : Z) : Z.abs z <= 2 ^ 53 -> round_double z = z.
Proof.
  intros Hz. unfold round_double.
  destruct (Z.leb_spec (Z.abs z) (2 ^ 53)); [reflexivity|lia].
Qed.

(** A string that starts with a digit has no white space or sign to skip. *)
Lemma parseInt_string_digit_first (s : string) :
  leading_digits s <> "" ->
  parseInt_string s = match parse_magnitude s with
                      | Some m => Int (round_double m)
                      | None => NaN
                      end.
Proof.
  destruct s as [|c s]; simpl; [congruence|].
  destruct (is_digit c) eqn:Hc; [|congruence]. intros _.
  unfold parseInt_string. cbn [Str.trimStart].
  rewrite (is_digit_not_space c Hc). cbn [Str.is_prefix].
  rewrite (is_digit_not c "-"), (is_digit_not c "+") by (assumption || reflexivity).
  reflexivity.
Qed.

Lemma hex_prefix_leading_zero (s : string) :
  Str.is_prefix "0x" s || Str.is_prefix "0X" s = true -> leading_digits s = "0".
Proof.
  destruct s as [|a [|b s]]; cbn [Str.is_prefix leading_digits].
  - discriminate.
  - rewrite !andb_false_r. discriminate.
  - rewrite !andb_true_r.
    destruct (Ascii.eqb_spec "0" a) as [<-|]; cbn [andb orb]; [|discriminate].
    destruct (Ascii.eqb_spec "x" b) as [<-|]; [reflexivity|].
    destruct (Ascii.eqb_spec "X" b) as [<-|]; [reflexivity|discriminate].
Qed.

Lemma parse_magnitude_decimal (s : string) :
  leading_digits s <> "" ->
  Str.is_prefix "0x" s || Str.is_prefix "0X" s = false ->
  parse_magnitude s = Some (digits_value (leading_digits s)).
Proof.
  intros Hd Hx. unfold parse_magnitude. rewrite Hx.
  apply scan_digits_decimal_start. assumption.
Qed.


(** *** Printing an integer and reading it back *)

Lemma leading_digits_uint (d : Decimal.uint) :
  leading_digits (NilEmpty.string_of_uint d) = NilEmpty.string_of_uint d.
Proof.
  induction d; cbn [NilEmpty.string_of_uint leading_digits]; try reflexivity;
    (replace (is_digit _) with true by reflexivity); now rewrite IHd.
Qed.

Lemma digits_value_from_uint_acc (d : Decimal.uint) (acc : positive) :
  digits_value_from (NilEmpty.string_of_uint d) (Z.pos acc) = Z.pos (Pos.of_uint_acc d acc).
Proof.
  revert acc.
  induction d; intros acc; cbn [NilEmpty.string_of_uint digits_value_from Pos.of_uint_acc];
    try reflexivity; rewrite <- IHd; f_equal;
    match goal with
    | |- context [Z.of_nat (nat_of_ascii ?c) - 48] =>
        let v := eval vm_compute in (Z.of_nat (nat_of_ascii c) - 48) in
        change (Z.of_nat (nat_of_ascii c) - 48) with v
    end; lia.
Qed.

Lemma digits_value_uint (d : Decimal.uint) :
  digits_value (NilEmpty.string_of_uint d) = Z.of_N (Pos.of_uint d).
Proof.
  unfold digits_value.
  induction d; cbn [NilEmpty.string_of_uint digits_value_from Pos.of_uint];
    try reflexivity; try exact IHd;
    cbn [Z.of_N]; rewrite <- digits_value_from_uint_acc; reflexivity.
Qed.

Lemma string_of_uint_nonempty (d : Decimal.uint) :
  d <> Decimal.Nil -> NilEmpty.string_of_uint d <> "".
Proof. destruct d; simpl; congruence. Qed.

Lemma parseInt_string_uint (d : Decimal.uint) :
  d <> Decimal.Nil ->
  parse_magnitude (NilEmpty.string_of_uint d) = Some (Z.of_N (Pos.of_uint d))
  /\ leading_digits (NilEmpty.string_of_uint d) <> "".
Proof.
  intros Hd.
  assert (Hne : leading_digits (NilEmpty.string_of_uint d) <> "")
    by (rewrite leading_digits_uint; now apply string_of_uint_nonempty).
  split; [|exact Hne].
  rewrite parse_magnitude_decimal.
  - now rewrite leading_digits_uint, digits_value_uint.
  - exact Hne.
  - destruct (Str.is_prefix "0x" _ || Str.is_prefix "0X" _) eqn:Hx; [|reflexivity].
    pose proof (hex_prefix_leading_zero _ Hx) as H0.
    rewrite leading_digits_uint in H0. rewrite H0 in Hx. discriminate.
Qed.

Lemma string_of_uint_NilZero (d : Decimal.uint) :
  d <> Decimal.Nil -> NilZero.string_of_uint d = NilEmpty.string_of_uint d.
Proof. destruct d; simpl; congruence. Qed.

(** [parseInt(n)] is [n] for every integer [n] below 2^53 in absolute
    value: such a number prints in decimal. *)
Lemma parseInt_integer (z : Z) : Z.abs z < 2 ^ 53 -> parseInt (VNum (Int z)) = Int z.
Proof.
  intros Hz. unfold parseInt, ToString, Number_toString.
  destruct (Z.ltb_spec (Z.abs z) (2 ^ 53)) as [_|]; [|lia].
  unfold decimal. destruct z as [|p|p]; cbn [Z.to_int NilZero.string_of_int].
  - reflexivity.
  - pose proof (DecimalPos.Unsigned.to_uint_nonnil p) as Hp.
    rewrite string_of_uint_NilZero by assumption.
    destruct (parseInt_string_uint _ Hp) as [Hm Hd].
    rewrite parseInt_string_digit_first by assumption.
    rewrite Hm, DecimalPos.Unsigned.of_to. cbn [Z.of_N].
    rewrite round_double_safe by lia. reflexivity.
  - pose proof (DecimalPos.Unsigned.to_uint_nonnil p) as Hp.
    rewrite string_of_uint_NilZero by assumption.
    destruct (parseInt_string_uint _ Hp) as [Hm Hd].
    unfold parseInt_string. cbn [Str.trimStart].
    replace (Str.is_space "-") with false by reflexivity.
    cbn [Str.is_prefix]. replace (Ascii.eqb "-" "-") with true by reflexivity.
    cbn [andb orb Str.drop]. rewrite Hm, DecimalPos.Unsigned.of_to. cbn [Z.of_N].
    rewrite round_double_safe by lia. reflexivity.
Qed.

Example Number_toString_examples :
  Number_toString 42 = "42"
  /\ Number_toString (- 7) = "-7"
  /\ Number_toString (2 ^ 53) = "9007199254740992"
  /\ Number_toString (2 ^ 64) = "18446744073709552000"
  /\ Number_toString (10 ^ 21) = "1e+21"
  /\ Number_toString (2 ^ 70) = "1.1805916207174113e+21"
  /\ Number_toString (- 2 ^ 70) = "-1.1805916207174113e+21"
  /\ parseInt (VNum (Int (10 ^ 21))) = Int 1
  /\ parseInt (VStr "9007199254740993") = Int (2 ^ 53)
  /\ round_double (2 ^ 53 + 1) = 2 ^ 53
  /\ round_double (2 ^ 53 + 3) = 2 ^ 53 + 4.
Proof. repeat split; vm_compute; reflexivity. Qed.


Example getUserById_by_string :
  getUserById (VStr "1x") watched_alice = Some (created_user watched alice)
  /\ getUserById (VStr "1") watched_alice = Some (created_user watched alice)
  /\ getUserById (VNum (Int 1)) watched_alice = Some (created_user watched alice)
  /\ getUserById (VStr "x1") watched_alice = None.
Proof. repeat split; vm_compute; reflexivity. Qed.

(** ** Importing a list *)

Lemma createUser_cases (userData : obj) (w : world) :
  createUser userData w =
    match validateUser userData with
    | inl e => (Failure (message e), after_error w (message e) "create")
    | inr v =>
        if negb (isValid v)
        then (Failure (Str.join ", " (errors v)),
              after_error w (Str.join ", " (errors v)) "create")
        else if email_taken w userData
        then (Failure "A user with this email already exists",
              after_error w "A user with this email already exists" "create")
        else (Success (created_user w userData), after_create w userData)
    end.
Proof.
  unfold createUser, try_catch. rewrite createUser_body_cases.
  destruct (validateUser userData) as [e|v]; [reflexivity|].
  destruct (negb (isValid v)); [reflexivity|].
  destruct (email_taken w userData); reflexivity.
Qed.

(** What a [createUser] call leaves: either nothing but an [error] event,
    or the world after a creation. *)
Lemma createUser_outcome (userData : obj) (w : world) :
  (exists msg, createUser userData w = (Failure msg, after_error w msg "create"))
  \/ (passes userData = true /\ email_taken w userData = false
      /\ createUser userData w = (Success (created_user w userData), after_create w userData)).
Proof.
  rewrite createUser_cases. unfold passes.
  destruct (validateUser userData) as [e|v]; [eauto|].
  destruct (isValid v); simpl; [|eauto].
  destruct (email_taken w userData); eauto.
Qed.

Lemma createUser_success (userData : obj) (w : world) :
  passes userData = true -> email_taken w userData = false ->
  createUser userData w = (Success (created_user w userData), after_create w userData).
Proof.
  intros Hp Ht. rewrite createUser_cases. unfold passes in Hp.
  destruct (validateUser userData) as [e|v]; [discriminate|].
  rewrite Hp, Ht. reflexivity.
Qed.

Lemma createUser_failure (userData : obj) (w : world) :
  passes userData = false ->
  exists msg, createUser userData w = (Failure msg, after_error w msg "create").
Proof.
  intros Hp. destruct (createUser_outcome userData w) as [H|(Hp' & _)]; [exact H|congruence].
Qed.

(** A call to [createUser] keeps the subscribers, and hands them no
    [bulkImport] event. *)
Lemma createUser_deliveries (userData : obj) (w : world) :
  observers (this (snd (createUser userData w))) = observers (this w)
  /\ exists evs, delivered (snd (createUser userData w)) = delivered w ++ evs
                 /\ Forall (fun d => is_bulkImport (snd d) = false) evs.
Proof.
  destruct (createUser_outcome userData w) as [[msg ->]|(_ & _ & ->)]; simpl.
  - split; [reflexivity|]. eexists. split; [reflexivity|].
    unfold error_deliveries. apply Forall_map. apply Forall_forall. reflexivity.
  - split; [reflexivity|]. eexists. split; [symmetry; apply app_assoc|].
    apply Forall_app; split; apply Forall_map, Forall_forall; reflexivity.
Qed.

Lemma create_each_deliveries (usersData : list obj) (w : world) :
  observers (this (snd (create_each usersData w))) = observers (this w)
  /\ exists evs, delivered (snd (create_each usersData w)) = delivered w ++ evs
                 /\ Forall (fun d => is_bulkImport (snd d) = false) evs.
Proof.
  revert w. induction usersData as [|userData rest IH]; intros w; simpl.
  - split; [reflexivity|]. exists []. split; [now rewrite app_nil_r|constructor].
  - destruct (createUser_deliveries userData w) as (Ho & evs & Hd & Hev).
    destruct (createUser userData w) as [r w'] eqn:Hc. simpl in Ho, Hd.
    specialize (IH w'). destruct (create_each rest w') as [rs w''] eqn:He.
    simpl in *. destruct IH as (Ho' & evs' & Hd' & Hev').
    split; [congruence|]. exists (evs ++ evs'). split.
    + rewrite Hd', Hd. symmetry. apply app_assoc.
    + apply Forall_app. split; assumption.
Qed.

Lemma create_each_length (usersData : list obj) (w : world) :
  length (fst (create_each usersData w)) = length usersData.
Proof.
  revert w. induction usersData as [|userData rest IH]; intros w; simpl; [reflexivity|].
  destruct (createUser userData w) as [r w']. specialize (IH w').
  destruct (create_each rest w') as [rs w'']. simpl in *. now rewrite IH.
Qed.

Lemma created_rejected_length (outcomes : list (obj * result obj)) :
  (length (created outcomes) + length (rejected outcomes))%nat = length outcomes.
Proof.
  induction outcomes as [|[userData [data|err]] rest IH]; simpl.
  - reflexivity.
  - unfold created, rejected in *. simpl. lia.
  - unfold created, rejected in *. simpl. lia.
Qed.

(** The loop of [importUsers] sorts the results of the calls into the two
    lists, in call order. *)
Lemma importUsers_loop_create_each (usersData : list obj) (acc : import_results) (w : world) :
  importUsers_loop usersData acc w =
    ({| success := success acc ++ created (fst (create_each usersData w));
        failed := failed acc ++ rejected (fst (create_each usersData w)) |},
     snd (create_each usersData w)).
Proof.
  revert acc w. induction usersData as [|userData rest IH]; intros acc w; simpl.
  - unfold created, rejected. simpl. rewrite !app_nil_r. now destruct acc.
  - destruct (createUser userData w) as [[data|err] w'] eqn:Hc;
      rewrite IH; destruct (create_each rest w') as [rs w'']; simpl;
      unfold created, rejected; simpl; rewrite <- ?app_assoc; reflexivity.
Qed.

Lemma check_required_extends (userData : obj) (field : string) (acc l : list string) :
  check_required userData field acc = inr l -> exists extra, l = acc ++ extra.
Proof.
  unfold check_required. destruct (negb _).
  - intros [= <-]. eauto.
  - destruct (get userData field); try discriminate.
    destruct (String.eqb _ _); intros [= <-]; [eauto|]. exists []. now rewrite app_nil_r.
Qed.

Lemma forEach_required_extends (userData : obj) (fields : list string) (acc l : list string) :
  forEach_required userData fields acc = inr l -> exists extra, l = acc ++ extra.
Proof.
  revert acc. induction fields as [|f fields IH]; intros acc; simpl.
  - intros [= <-]. exists []. now rewrite app_nil_r.
  - destruct (check_required userData f acc) as [e|l1] eqn:Hc; [discriminate|].
    intros Hrest. destruct (check_required_extends _ _ _ _ Hc) as [x ->].
    destruct (IH _ Hrest) as [y ->]. exists (x ++ y). now rewrite app_assoc.
Qed.

(** A falsy required field is reported, wherever it stands in the list. *)
Lemma forEach_required_reports (userData : obj) (fields : list string) (field : string)
    (acc l : list string) :
  field ∈ fields -> truthy (get userData field) = false ->
  forEach_required userData fields acc = inr l -> l <> [].
Proof.
  intros Hin Hf. revert acc. induction Hin as [f fields|f g fields Hin IH]; intros acc; simpl.
  - unfold check_required at 1. rewrite Hf. simpl.
    intros [x ->]%forEach_required_extends. destruct acc; discriminate.
  - destruct (check_required userData g acc) as [e|l1]; [discriminate|]. exact (IH Hf l1).
Qed.

(** An input without a (truthy) email does not pass validation. *)
Lemma missing_email_fails (userData : obj) :
  truthy (get userData "email") = false -> passes userData = false.
Proof.
  intros He. unfold passes, validateUser.
  destruct (forEach_required userData required []) as [e|l] eqn:Hloop; [reflexivity|].
  assert (Hl : l <> []).
  { eapply (forEach_required_reports userData required "email"); [|exact He|exact Hloop].
    unfold required. set_solver. }
  simpl. apply bool_decide_eq_false. unfold status_check, type_check, email_check.
  destruct l; [congruence|].
  destruct (_ && _), (_ && _), (_ && _); simpl; discriminate.
Qed.

(** The new record carries the fields of the input other than the four
    the literal sets. *)
Lemma created_user_field (w : world) (userData : obj) (k : string) :
  k <> "id" -> k <> "createdAt" -> k <> "lastActive" -> k <> "status" ->
  get (created_user w userData) k = get userData k.
Proof.
  intros H1 H2 H3 H4. unfold get, created_user, new_user_literal.
  rewrite !lookup_insert_ne by congruence.
  rewrite lookup_union, lookup_singleton_ne by congruence.
  now destruct (userData !! k).
Qed.

Lemma strict_eq_neq (a b : value) : a <> b -> strict_eq a b = false.
Proof.
  intros Hne. unfold strict_eq.
  destruct a as [| | |[|?]|], b as [| | |[|?]|]; try reflexivity;
    apply bool_decide_eq_false; exact Hne.
Qed.

Lemma find_app_first {A} (p : A -> bool) (l1 l2 : list A) :
  List.find p (l1 ++ l2) = match List.find p l1 with
                           | Some x => Some x
                           | None => List.find p l2
                           end.
Proof.
  induction l1 as [|x l1 IH]; simpl; [reflexivity|]. now destruct (p x).
Qed.

Lemma email_taken_after_create (w : world) (first second : obj) :
  email_taken w second = false ->
  get first "email" <> get second "email" ->
  email_taken (after_create w first) second = false.
Proof.
  unfold email_taken, findUserByEmail. intros Hfree Hne.
  apply bool_decide_eq_false in Hfree. apply bool_decide_eq_false.
  intros [u Hu]. apply Hfree. simpl in Hu.
  rewrite find_app_first in Hu.
  destruct (List.find _ (users (this w))) as [x|]; [eauto|].
  simpl in Hu. rewrite created_user_field in Hu by congruence.
  rewrite strict_eq_neq in Hu by assumption. discriminate.
Qed.

(** C6.  [importUsers(list)] calls [createUser] once per entry, in list
    order.  Every entry whose call succeeds appears, as the created record,
    in [success], and every entry whose call fails appears with its error
    in [failed], both in call order, so that the two lengths add up to the
    length of the input.  After the last call, and not before, every
    subscriber is handed one [bulkImport] event carrying these results;
    nothing else changes.  In particular, for inputs [valid1] and [valid2]
    that pass validation, with different e-mails that no record holds, and
    an input without e-mail between them, [success] has length 2 and
    [failed] has length 1. *)
Theorem importUsers_reports_each_entry :
  (forall (usersData : list obj) (w : world),
      let outcomes := fst (create_each usersData w) in
      let w1 := snd (create_each usersData w) in
      let results := fst (importUsers usersData w) in
      let w2 := snd (importUsers usersData w) in
      map fst outcomes = usersData
      /\ success results = created outcomes
      /\ failed results = rejected outcomes
      /\ (length (success results) + length (failed results))%nat = length usersData
      /\ this w2 = this w1
      /\ observers (this w1) = observers (this w)
      /\ delivered w2 = delivered w1
                        ++ map (fun cb => (cb, bulkImport results)) (observers (this w))
      /\ exists evs, delivered w1 = delivered w ++ evs
                     /\ Forall (fun d => is_bulkImport (snd d) = false) evs)
  /\ (forall (w : world) (valid1 invalidMissingEmail valid2 : obj),
         passes valid1 = true -> passes valid2 = true ->
         truthy (get invalidMissingEmail "email") = false ->
         email_taken w valid1 = false -> email_taken w valid2 = false ->
         get valid1 "email" <> get valid2 "email" ->
         length (success (fst (importUsers [valid1; invalidMissingEmail; valid2] w))) = 2%nat
         /\ length (failed (fst (importUsers [valid1; invalidMissingEmail; valid2] w))) = 1%nat).
Proof.
  split.
  - intros usersData w. cbv zeta.
    unfold importUsers. rewrite importUsers_loop_create_each. simpl.
    destruct (create_each_deliveries usersData w) as (Hobs & evs & Hd & Hev).
    repeat split.
    + clear. revert w. induction usersData as [|u rest IH]; intros w; simpl; [reflexivity|].
      destruct (createUser u w) as [r w']. specialize (IH w').
      destruct (create_each rest w') as [rs w'']. simpl in *. now rewrite IH.
    + rewrite created_rejected_length. apply create_each_length.
    + exact Hobs.
    + now rewrite Hobs.
    + eauto.
  - intros w valid1 invalid valid2 Hp1 Hp2 Hmiss Hfree1 Hfree2 Hne.
    unfold importUsers. rewrite importUsers_loop_create_each. simpl.
    rewrite (createUser_success valid1 w) by assumption.
    destruct (createUser_failure invalid (after_create w valid1)
                (missing_email_fails _ Hmiss)) as [msg ->].
    rewrite (createUser_success valid2).
    + split; reflexivity.
    + assumption.
    + apply (email_taken_after_create w valid1 valid2 Hfree2 Hne).
Qed.

Lemma importUsers_reports_each_entry_witness :
  passes alice = true /\ passes bob = true
  /\ truthy (get (delete "email" carol) "email") = false
  /\ length (success (fst (importUsers [alice; delete "email" carol; bob] watched))) = 2%nat
  /\ length (failed (fst (importUsers [alice; delete "email" carol; bob] watched))) = 1%nat.
Proof.
  split; [reflexivity|]. split; [reflexivity|]. split; [reflexivity|].
  apply (proj2 importUsers_reports_each_entry watched alice (delete "email" carol) bob).
  - reflexivity.
  - reflexivity.
  - reflexivity.
  - vm_compute. reflexivity.
  - vm_compute. reflexivity.
  - vm_compute. discriminate.
Defined.

Example importUsers_scenario :
  failed (fst (importUsers [alice; delete "email" carol; bob] watched))
    = [(delete "email" carol, "email is required")]
  /\ map (fun u => get u "id") (success (fst (importUsers [alice; delete "email" carol; bob] watched)))
     = [VNum (Int 1); VNum (Int 2)]
  /\ length (filter (fun d => is_bulkImport (snd d) = true)
               (delivered (snd (importUsers [alice; delete "email" carol; bob] watched)))) = 1%nat.
Proof. repeat split; vm_compute; reflexivity. Qed.

(** ** Ids come from the counter *)

Lemma ascending_app (lo mid hi : Z) (zs zs' : list Z) :
  ascending lo zs mid -> ascending mid zs' hi -> ascending lo (zs ++ zs') hi.
Proof.
  revert lo. induction zs as [|z zs IH]; intros lo; simpl.
  - intros Hlo Hzs'. destruct zs' as [|z' zs']; simpl in *; [lia|].
    split; [lia|tauto].
  - intros [Hz Hrest] Hzs'. split; [assumption|]. now apply IH.
Qed.

Lemma ascending_bounds (lo hi : Z) (zs : list Z) :
  ascending lo zs hi -> lo <= hi /\ Forall (fun z => lo <= z < hi) zs.
Proof.
  revert lo. induction zs as [|z zs IH]; intros lo; simpl.
  - intros H. split; [assumption|constructor].
  - intros [Hz Hrest]. destruct (IH _ Hrest) as [Hle Hall]. split; [lia|].
    constructor; [lia|]. eapply Forall_impl; [exact Hall|]. simpl. intros; lia.
Qed.

Lemma ascending_sorted (lo hi : Z) (zs : list Z) :
  ascending lo zs hi -> StronglySorted Z.lt zs.
Proof.
  revert lo. induction zs as [|z zs IH]; intros lo; simpl.
  - constructor.
  - intros [Hz Hrest]. constructor; [eapply IH; eassumption|].
    destruct (ascending_bounds _ _ _ Hrest) as [_ Hall].
    eapply Forall_impl; [exact Hall|]. simpl. intros; lia.
Qed.

(** The id of a record created from an input without [id] is the counter. *)
Lemma created_user_id (w : world) (userData : obj) :
  no_own_id userData = true ->
  get (created_user w userData) "id" = VNum (nextId (this w)).
Proof.
  intros Hno%bool_decide_eq_true. unfold get, created_user, new_user_literal.
  rewrite !lookup_insert_ne by congruence.
  rewrite lookup_union, Hno, lookup_singleton_eq. reflexivity.
Qed.

(** Below 2^53 the counter moves on by one. *)
Lemma succ_number_safe (n : Z) :
  - 2 ^ 53 <= n < 2 ^ 53 -> succ_number (Int n) = Int (n + 1).
Proof. intros Hn. unfold succ_number. rewrite round_double_safe by lia. reflexivity. Qed.

Lemma create_each_ascending (usersData : list obj) (w : world) (n : Z) :
  nextId (this w) = Int n ->
  - 2 ^ 53 <= n ->
  n + Z.of_nat (length usersData) <= 2 ^ 53 ->
  forallb no_own_id usersData = true ->
  exists zs n',
    ids_of (created (fst (create_each usersData w))) = map (fun z => VNum (Int z)) zs
    /\ nextId (this (snd (create_each usersData w))) = Int n'
    /\ ascending n zs n'
    /\ n' <= n + Z.of_nat (length usersData).
Proof.
  revert w n. induction usersData as [|userData rest IH]; intros w n Hn Hlo Hhi.
  - intros _. exists [], n. simpl. repeat split; [assumption|lia|lia].
  - cbn [length] in Hhi. cbn [forallb create_each].
    intros [Hno Hrest]%andb_true_iff.
    destruct (createUser_outcome userData w) as [[msg Hc]|(_ & _ & Hc)]; rewrite Hc.
    + destruct (IH (after_error w msg "create") n Hn Hlo ltac:(lia) Hrest)
        as (zs & n' & Hids & Hn' & Hasc & Hle).
      destruct (create_each rest _) as [rs w'']. simpl in *.
      exists zs, n'. repeat split; [assumption|assumption|assumption|cbn [length]; lia].
    + assert (Hn1 : nextId (this (after_create w userData)) = Int (n + 1))
        by (cbn [after_create this nextId]; rewrite Hn; apply succ_number_safe; lia).
      destruct (IH (after_create w userData) (n + 1) Hn1 ltac:(lia) ltac:(lia) Hrest)
        as (zs & n' & Hids & Hn' & Hasc & Hle).
      destruct (create_each rest _) as [rs w'']. cbn [fst snd] in *.
      exists (n :: zs), n'. repeat split.
      * unfold created, ids_of in *. cbn [flat_map snd map app].
        rewrite created_user_id, Hn by assumption. simpl. now f_equal.
      * assumption.
      * simpl. lia.
      * assumption.
      * cbn [length]. lia.
Qed.

Lemma crud_call_nextId (c : crud) (w : world) :
  match c with CreateUser _ => False | _ => True end ->
  nextId (this (snd (crud_call c w))) = nextId (this w).
Proof.
  destruct c as [userData|id userData|id]; [tauto| |]; intros _; simpl.
  - unfold updateUser, try_catch. rewrite updateUser_body_cases.
    destruct (findIndex _ _); [|reflexivity].
    destruct (validateUser userData) as [e|v]; [reflexivity|].
    destruct (negb _); [reflexivity|].
    destruct (email_taken_by_other _ _ _); reflexivity.
  - unfold deleteUser, try_catch. rewrite deleteUser_body_cases.
    destruct (findIndex _ _); reflexivity.
Qed.

Section RunsFacts.

Variable StringToNumber : string -> number.

Lemma saveUsers_nextId (w : world) : nextId (this (snd (saveUsers w))) = nextId (this w).
Proof.
  unfold saveUsers, try_catch, saveUsers_body, setItem. unfold_monad.
  destruct (storage_throws w (writes w)); reflexivity.
Qed.

Lemma step_ascending (o : op) (w : world) (n : Z) :
  nextId (this w) = Int n ->
  - 2 ^ 53 <= n ->
  n + creations o <= 2 ^ 53 ->
  counter_driven o = true ->
  exists zs n',
    fst (step StringToNumber o w) = map (fun z => VNum (Int z)) zs
    /\ nextId (this (snd (step StringToNumber o w))) = Int n'
    /\ ascending n zs n'
    /\ n' <= n + creations o.
Proof.
  intros Hn Hlo Hhi Hcd. destruct o as [c|usersData| | |cb|cb]; simpl in Hcd.
  - destruct c as [userData|id userData|id].
    + destruct (create_each_ascending [userData] w n Hn Hlo)
        as (zs & n' & Hids & Hn' & Hasc & Hle).
      { exact Hhi. }
      { simpl. now rewrite Hcd. }
      cbn [creations length Z.of_nat] in *. cbn [create_each step] in *.
      destruct (createUser userData w) as [[data|err] w'];
        cbn [fst snd created flat_map app ids_of map] in *; exists zs, n'; auto.
    + pose proof (crud_call_nextId (UpdateUser id userData) w I) as Hsame.
      exists [], n. simpl in *. rewrite Hsame. repeat split; [assumption|lia|lia].
    + pose proof (crud_call_nextId (DeleteUser id) w I) as Hsame.
      exists [], n. simpl in *. rewrite Hsame. repeat split; [assumption|lia|lia].
  - destruct (create_each_ascending usersData w n Hn Hlo Hhi Hcd)
      as (zs & n' & Hids & Hn' & Hasc & Hle).
    exists zs, n'. cbn [step creations]. unfold importUsers.
    rewrite importUsers_loop_create_each. simpl. auto.
  - exists [], n. cbn [step fst snd map creations]. rewrite saveUsers_nextId.
    repeat split; [assumption|simpl; lia|lia].
  - discriminate.
  - exists [], n. simpl. repeat split; [assumption|lia|lia].
  - exists [], n. simpl. repeat split; [assumption|lia|lia].
Qed.

Lemma ascending_le (lo hi : Z) (zs : list Z) : ascending lo zs hi -> lo <= hi.
Proof.
  revert lo. induction zs as [|z zs IH]; intros lo; simpl; [auto|].
  intros [Hz Hrest]. apply IH in Hrest. lia.
Qed.

Lemma run_ascending (ops : list op) (w : world) (n : Z) :
  nextId (this w) = Int n ->
  - 2 ^ 53 <= n ->
  n + total_creations ops <= 2 ^ 53 ->
  forallb counter_driven ops = true ->
  exists zs n',
    fst (run StringToNumber ops w) = map (fun z => VNum (Int z)) zs
    /\ nextId (this (snd (run StringToNumber ops w))) = Int n'
    /\ ascending n zs n'.
Proof.
  assert (Hpos : forall o, 0 <= creations o) by (intros [[]| | | | |]; simpl; lia).
  assert (Htot : forall l, 0 <= total_creations l).
  { induction l as [|o l IHl]; simpl; [lia|]. specialize (Hpos o). lia. }
  revert w n. induction ops as [|o rest IH]; intros w n Hn Hlo Hhi.
  - intros _. exists [], n. simpl. repeat split; [assumption|lia].
  - cbn [total_creations fold_right] in Hhi. fold (total_creations rest) in Hhi.
    cbn [forallb run]. intros [Ho Hrest]%andb_true_iff.
    pose proof (Htot rest) as Hrest0. pose proof (Hpos o) as Ho0.
    destruct (step_ascending o w n Hn Hlo ltac:(lia) Ho) as (zs & n1 & Hids & Hn1 & Hasc & Hle).
    destruct (step StringToNumber o w) as [ids w']. cbn [fst snd] in *.
    pose proof (ascending_le _ _ _ Hasc) as Hge.
    destruct (IH w' n1 Hn1 ltac:(lia) ltac:(lia) Hrest) as (zs' & n2 & Hids' & Hn2 & Hasc').
    destruct (run StringToNumber rest w') as [ids' w'']. cbn [fst snd] in *.
    exists (zs ++ zs'), n2. repeat split.
    + rewrite map_app. congruence.
    + assumption.
    + eapply ascending_app; eassumption.
Qed.

End RunsFacts.

Lemma sorted_lt_NoDup (zs : list Z) : StronglySorted Z.lt zs -> NoDup zs.
Proof.
  induction 1 as [|z zs Hs IH Hall]; constructor; [|assumption].
  intros Hin. rewrite Forall_forall in Hall. specialize (Hall _ Hin). lia.
Qed.

(** C1 (amended).  Take any sequence of [createUser], [updateUser],
    [deleteUser], [importUsers], [saveUsers], [subscribe] and [unsubscribe]
    calls on an instance whose counter is an integer n (it is 1 after
    construction), in which no input of [createUser] or entry of
    [importUsers] has an [id] property of its own, and which is short
    enough for the counter to stay within 2^53: n is at least -2^53, and
    n plus the number of [createUser] calls and of entries of
    [importUsers] is at most 2^53.  Then every successful [createUser]
    assigns the value of the counter: the ids assigned are integers, each
    at least n and strictly greater than all those assigned earlier in the
    sequence.  So no id is assigned twice, whatever was deleted in
    between. *)
Theorem createUser_ids_increase (StringToNumber : string -> number)
    (ops : list op) (w : world) (n : Z) :
  nextId (this w) = Int n ->
  - 2 ^ 53 <= n ->
  n + total_creations ops <= 2 ^ 53 ->
  forallb counter_driven ops = true ->
  exists zs,
    fst (run StringToNumber ops w) = map (fun z => VNum (Int z)) zs
    /\ StronglySorted Z.lt zs
    /\ Forall (fun z => n <= z) zs
    /\ NoDup (fst (run StringToNumber ops w)).
Proof.
  intros Hn Hlo Hhi Hops.
  destruct (run_ascending StringToNumber ops w n Hn Hlo Hhi Hops) as (zs & n' & Hids & _ & Hasc).
  exists zs. split; [exact Hids|].
  pose proof (ascending_sorted _ _ _ Hasc) as Hsorted.
  split; [exact Hsorted|]. split.
  - destruct (ascending_bounds _ _ _ Hasc) as [_ Hall].
    eapply Forall_impl; [exact Hall|]. simpl. intros; lia.
  - rewrite Hids. apply NoDup_fmap_2; [|now apply sorted_lt_NoDup].
    intros a b [=]. assumption.
Qed.

Lemma createUser_ids_increase_witness :
  exists zs,
    fst (run (fun _ => NaN)
           [Crud (CreateUser alice); Crud (CreateUser bob); Crud (DeleteUser (VStr "2"));
            SaveUsers; Crud (CreateUser carol)] (page constructor))
      = map (fun z => VNum (Int z)) zs
    /\ StronglySorted Z.lt zs
    /\ Forall (fun z => 1 <= z) zs
    /\ NoDup (fst (run (fun _ => NaN)
                     [Crud (CreateUser alice); Crud (CreateUser bob);
                      Crud (DeleteUser (VStr "2")); SaveUsers; Crud (CreateUser carol)]
                     (page constructor))).
Proof.
  apply (createUser_ids_increase (fun _ => NaN)
           [Crud (CreateUser alice); Crud (CreateUser bob); Crud (DeleteUser (VStr "2"));
            SaveUsers; Crud (CreateUser carol)] (page constructor) 1).
  - reflexivity.
  - lia.
  - vm_compute. discriminate.
  - vm_compute. reflexivity.
Defined.

Example ids_after_delete :
  fst (run (fun _ => NaN)
         [Crud (CreateUser alice); Crud (CreateUser bob); Crud (DeleteUser (VStr "2"));
          SaveUsers; Crud (CreateUser carol)] (page constructor))
    = [VNum (Int 1); VNum (Int 2); VNum (Int 3)].
Proof. vm_compute. reflexivity. Qed.

(** C1, as stated, fails in two ways.  After a record is deleted and the
    store saved, [loadUsers] on the same instance sets the counter to one
    more than the largest stored id, and the next [createUser] assigns the
    deleted id again.  And an input that has an [id] property keeps it: the
    counter value is overwritten by the spread of the input.  (No id is a
    string in these runs, so the conversion of strings to numbers is never
    called.) *)
Lemma createUser_reuses_ids :
  fst (run (fun _ => NaN)
         [Crud (CreateUser alice); Crud (CreateUser bob); Crud (DeleteUser (VNum (Int 2)));
          SaveUsers; LoadUsers; Crud (CreateUser carol)] (page constructor))
    = [VNum (Int 1); VNum (Int 2); VNum (Int 2)]
  /\ fst (run (fun _ => NaN)
            [Crud (CreateUser (<["id" := VNum (Int 7)]> alice));
             Crud (CreateUser (<["id" := VNum (Int 7)]> bob))] (page constructor))
     = [VNum (Int 7); VNum (Int 7)].
Proof. split; vm_compute; reflexivity. Qed.

(** The bound is needed: at 2^53 the counter stays where it is, and two
    records in a row get the same id. *)
Example counter_sticks_at_2_53 :
  succ_number (Int (2 ^ 53)) = Int (2 ^ 53)
  /\ fst (run (fun _ => NaN) [Crud (CreateUser alice); Crud (CreateUser bob)] page_at_2_53)
     = [VNum (Int (2 ^ 53)); VNum (Int (2 ^ 53))].
Proof. split; vm_compute; reflexivity. Qed.

(** ** Saving and loading *)

(** [saveUsers] when the storage takes the write. *)
Lemma saveUsers_spec (w : world) :
  storage_takes w -> saveUsers w = (Success tt, after_save w).
Proof.
  intros Htakes. unfold saveUsers, try_catch, saveUsers_body, setItem. unfold_monad.
  rewrite Htakes. reflexivity.
Qed.

(** [saveUsers] when the storage throws: the slot and the instance are as
    before, and the subscribers are handed the [error] event. *)
Lemma saveUsers_fails (w : world) (msg : string) :
  storage_throws w (writes w) = Some msg ->
  fst (saveUsers w) = Failure msg
  /\ this (snd (saveUsers w)) = this w
  /\ localStorage (snd (saveUsers w)) = localStorage w
  /\ delivered (snd (saveUsers w)) = delivered w ++ error_deliveries w msg "save".
Proof.
  intros Hthrows. unfold saveUsers, try_catch, saveUsers_body, setItem. unfold_monad.
  rewrite Hthrows. simpl. auto.
Qed.




Section Persistence.

Variable StringToNumber : string -> number.

(** What [loadUsers] does when the slot holds a text. *)
Lemma loadUsers_stored (w : world) (text : json_text) :
  localStorage w !! storage_key = Some text ->
  loadUsers StringToNumber w =
    (Success (JSON_parse text),
     {| this := {| users := JSON_parse text;
                   nextId := succ_number
                               (Math_max_0 StringToNumber
                                  (map (fun u => get u "id") (JSON_parse text)));
                   observers := observers (this w) |};
        localStorage := localStorage w;
        delivered := delivered w
                     ++ map (fun cb => (cb, usersLoaded (JSON_parse text)))
                          (observers (this w));
        clock := clock w; reads := reads w;
        storage_throws := storage_throws w; writes := writes w |}).
Proof.
  intros Hslot. unfold loadUsers, try_catch, loadUsers_body. unfold_monad.
  rewrite Hslot. reflexivity.
Qed.


End Persistence.



Example empty_store_is_not_seeded :
  users (this (snd (loadUsers (fun _ => NaN)
                      (fresh_instance (snd (saveUsers (page constructor))))))) = []
  /\ length (users (this (snd (loadUsers (fun _ => NaN) (page constructor))))) = 3%nat.
Proof. split; vm_compute; reflexivity. Qed.

(** ** The copy returned by getAllUsers *)

Lemma heap_array_mutation_frame (h : Heap.heap) (a users_ref : Heap.ref)
    (m : Heap.array_mutation) :
  a <> users_ref ->
  (exists elems, h !! a = Some (Heap.Arr elems)) ->
  Heap.array_at (Heap.mutate_array a h m) users_ref = Heap.array_at h users_ref
  /\ Heap.store_records (Heap.mutate_array a h m) users_ref = Heap.store_records h users_ref
  /\ exists elems, Heap.mutate_array a h m !! a = Some (Heap.Arr elems).
Proof.
  intros Hne [elems Ha].
  assert (Harr : Heap.array_at (Heap.mutate_array a h m) users_ref = Heap.array_at h users_ref).
  { unfold Heap.array_at, Heap.mutate_array. now rewrite lookup_insert_ne. }
  split; [exact Harr|]. split.
  - unfold Heap.store_records. rewrite Harr. apply map_ext. intros r.
    unfold Heap.record_at, Heap.mutate_array.
    destruct (decide (a = r)) as [<-|Hr].
    + now rewrite lookup_insert_eq, Ha.
    + now rewrite lookup_insert_ne.
  - eexists. unfold Heap.mutate_array. apply lookup_insert_eq.
Qed.

Lemma heap_array_mutations_frame (ms : list Heap.array_mutation) (h : Heap.heap)
    (a users_ref : Heap.ref) :
  a <> users_ref ->
  (exists elems, h !! a = Some (Heap.Arr elems)) ->
  Heap.array_at (foldl (Heap.mutate_array a) h ms) users_ref = Heap.array_at h users_ref
  /\ Heap.store_records (foldl (Heap.mutate_array a) h ms) users_ref
     = Heap.store_records h users_ref.
Proof.
  revert h. induction ms as [|m ms IH]; intros h Hne Ha; simpl; [split; reflexivity|].
  destruct (heap_array_mutation_frame h a users_ref m Hne Ha) as (H1 & H2 & H3).
  destruct (IH _ Hne H3) as [H4 H5]. split; congruence.
Qed.

(** C4 (amended).  [getAllUsers] returns a new array holding the store's
    records in the store's order.  Whatever the caller then does to that
    array (pushing, assigning or removing elements, shortening it) changes
    neither the store's array nor the records it holds.  The records
    themselves are not copied: the elements of the returned array are the
    store's own records. *)
Theorem getAllUsers_copies_the_array (h : Heap.heap) (users_ref : Heap.ref)
    (elems : list Heap.ref) (ms : list Heap.array_mutation) :
  h !! users_ref = Some (Heap.Arr elems) ->
  let a := fst (Heap.getAllUsers users_ref h) in
  let h1 := snd (Heap.getAllUsers users_ref h) in
  let h2 := foldl (Heap.mutate_array a) h1 ms in
  a <> users_ref
  /\ Heap.array_at h1 a = elems
  /\ map (Heap.record_at h1) (Heap.array_at h1 a) = Heap.store_records h users_ref
  /\ Heap.array_at h2 users_ref = elems
  /\ Heap.store_records h2 users_ref = Heap.store_records h users_ref.
Proof.
  intros Hu. cbv zeta. unfold Heap.getAllUsers. cbn [fst snd].
  set (a := fresh (dom h)).
  assert (Hfresh : h !! a = None) by (apply not_elem_of_dom, is_fresh).
  assert (Hne : a <> users_ref) by congruence.
  assert (Helems : Heap.array_at h users_ref = elems)
    by (unfold Heap.array_at; now rewrite Hu).
  rewrite Helems. set (h1 := <[a := Heap.Arr elems]> h).
  assert (Hrec : forall r, Heap.record_at h1 r = Heap.record_at h r).
  { intros r. unfold Heap.record_at, h1. destruct (decide (a = r)) as [<-|Hr].
    - now rewrite lookup_insert_eq, Hfresh.
    - now rewrite lookup_insert_ne. }
  assert (Hret : Heap.array_at h1 a = elems).
  { unfold Heap.array_at, h1. now rewrite lookup_insert_eq. }
  assert (Hstore1 : Heap.array_at h1 users_ref = elems).
  { unfold Heap.array_at, h1. rewrite lookup_insert_ne by exact Hne. now rewrite Hu. }
  assert (Hrecords : Heap.store_records h1 users_ref = Heap.store_records h users_ref).
  { unfold Heap.store_records. rewrite Hstore1, Helems. apply map_ext. exact Hrec. }
  split; [exact Hne|]. split; [exact Hret|]. split.
  - rewrite Hret. unfold Heap.store_records. rewrite Helems.
    apply map_ext. exact Hrec.
  - destruct (heap_array_mutations_frame ms h1 a users_ref Hne) as [H1 H2].
    { eexists. apply lookup_insert_eq. }
    split; congruence.
Qed.

Lemma getAllUsers_copies_the_array_witness :
  let a := fst (Heap.getAllUsers 1%positive Heap.one_record) in
  let h1 := snd (Heap.getAllUsers 1%positive Heap.one_record) in
  let h2 := foldl (Heap.mutate_array a) h1 [Heap.Push 2%positive; Heap.Splice 0%nat;
                                             Heap.Truncate 0%nat] in
  a <> 1%positive
  /\ Heap.array_at h1 a = [2%positive]
  /\ map (Heap.record_at h1) (Heap.array_at h1 a) = Heap.store_records Heap.one_record 1%positive
  /\ Heap.array_at h2 1%positive = [2%positive]
  /\ Heap.store_records h2 1%positive = Heap.store_records Heap.one_record 1%positive.
Proof.
  apply (getAllUsers_copies_the_array Heap.one_record 1%positive [2%positive]
           [Heap.Push 2%positive; Heap.Splice 0%nat; Heap.Truncate 0%nat]).
  apply (bool_decide_unpack _). vm_compute. exact I.
Defined.

(** C4, as stated, fails: the caller that writes to a record of the
    returned array writes to the store's record.  Here the store holds
    [alice]; after [getAllUsers()[0].email = "x"] the store's record has
    the new e-mail. *)
Lemma getAllUsers_shares_the_records :
  let a := fst (Heap.getAllUsers 1%positive Heap.one_record) in
  let h1 := snd (Heap.getAllUsers 1%positive Heap.one_record) in
  let h2 := Heap.mutate_record a 0 "email" (VStr "x") h1 in
  Heap.store_records h1 1%positive = [alice]
  /\ Heap.store_records h2 1%positive = [<["email" := VStr "x"]> alice]
  /\ Heap.store_records h2 1%positive <> Heap.store_records h1 1%positive.
Proof.
  cbv zeta.
  assert (H1 : Heap.store_records (snd (Heap.getAllUsers 1%positive Heap.one_record)) 1%positive
               = [alice]) by (apply (bool_decide_unpack _); vm_compute; exact I).
  assert (H2 : Heap.store_records
                 (Heap.mutate_record (fst (Heap.getAllUsers 1%positive Heap.one_record)) 0
                    "email" (VStr "x") (snd (Heap.getAllUsers 1%positive Heap.one_record)))
                 1%positive = [<["email" := VStr "x"]> alice])
    by (apply (bool_decide_unpack _); vm_compute; exact I).
  split; [exact H1|]. split; [exact H2|].
  rewrite H1, H2. intros Heq.
  apply (f_equal (fun l : list obj => (fun o => get o "email") <$> head l)) in Heq.
  vm_compute in Heq. discriminate.
Qed.

(** * More of the service *)

(** ** What the validator accepts *)

Lemma forEach_required_throws (userData : obj) (fields : list string) (acc : list string) :
  forallb (fun field => string_or_falsy (get userData field)) fields = false ->
  forEach_required userData fields acc
    = inl (TypeError "userData[field].trim is not a function").
Proof.
  revert acc. induction fields as [|f fields IH]; intros acc; simpl; [discriminate|].
  destruct (string_or_falsy (get userData f)) eqn:Hf; simpl.
  - intros Hrest. rewrite check_required_textual by exact Hf. now apply IH.
  - intros _. unfold check_required. unfold string_or_falsy in Hf.
    apply orb_false_iff in Hf as [Ht Hs]. rewrite Ht.
    destruct (get userData f); try reflexivity. discriminate.
Qed.

Lemma nonblank_string_textual (v : value) :
  string_or_falsy v = true -> negb (blank v) = nonblank_string v.
Proof.
  unfold string_or_falsy, blank, nonblank_string.
  destruct v as [| |b|[|z]|s]; simpl; try reflexivity.
  - destruct b; [discriminate|reflexivity].
  - destruct (z =? 0); [reflexivity|discriminate].
  - intros _. destruct s; reflexivity.
Qed.

Lemma nonblank_string_truthy (v : value) : nonblank_string v = true -> truthy v = true.
Proof. destruct v as [| | | |s]; try discriminate. now destruct s. Qed.

Lemma required_part_nil (u : obj) (fields : list string) :
  forallb (fun field => string_or_falsy (get u field)) fields = true ->
  bool_decide (flat_map (fun field => if blank (get u field)
                                      then [field +:+ " is required"] else []) fields = [])
  = forallb (fun field => nonblank_string (get u field)) fields.
Proof.
  induction fields as [|f fields IH]; simpl; [reflexivity|].
  intros [Hf Hrest]%andb_true_iff.
  rewrite <- (nonblank_string_textual _ Hf), <- IH by assumption.
  destruct (blank (get u f)); simpl; [reflexivity|].
  reflexivity.
Qed.

(** The validator, said directly. *)
Lemma passes_acceptable (u : obj) : passes u = acceptable u.
Proof.
  unfold passes, acceptable.
  destruct (textual u) eqn:Ht.
  - rewrite validateUser_textual by exact Ht. cbn [isValid]. unfold spec_errors.
    rewrite <- (required_part_nil u required Ht).
    destruct (flat_map _ required) as [|m l] eqn:Hreq; [|reflexivity].
    + assert (Hnb : forallb (fun field => nonblank_string (get u field)) required = true).
      { rewrite <- (required_part_nil u required Ht), Hreq. reflexivity. }
      unfold required in Hnb. simpl in Hnb.
      repeat (apply andb_true_iff in Hnb as [? Hnb]).
      rewrite (nonblank_string_truthy (get u "email")) by assumption.
      rewrite (nonblank_string_truthy (get u "userType")) by assumption.
      destruct (isValidEmail (get u "email")), (includes validTypes (get u "userType")),
        (truthy (get u "status")), (includes validStatuses (get u "status")); reflexivity.
  - unfold validateUser. rewrite forEach_required_throws by exact Ht.
    symmetry. apply andb_false_iff. left. apply andb_false_iff. left.
    apply andb_false_iff. left.
    unfold textual in Ht. clear -Ht. induction required as [|f fs IH]; simpl in *;
      [discriminate|].
    apply andb_false_iff in Ht as [Hf|Hrest].
    + apply andb_false_iff. left. unfold string_or_falsy in Hf.
      apply orb_false_iff in Hf as [_ Hs]. now destruct (get u f).
    + apply andb_false_iff. right. now apply IH.
Qed.

(** X1.  The validator lets an input through exactly when its five
    required fields are strings with something other than white space in
    them, its email matches the pattern, its userType is one of client,
    provider, admin, and its status, if truthy, is active or inactive.
    Every other input is turned down (or makes the validator throw). *)
Theorem passes_iff_acceptable (u : obj) : passes u = acceptable u.
Proof. exact (passes_acceptable u). Qed.

(** ** The store stays in order *)

Lemma strict_eq_true (a b : value) : strict_eq a b = true -> a = b.
Proof.
  unfold strict_eq.
  destruct a as [| | |[|?]|], b as [| | |[|?]|]; try discriminate;
    intros H; apply bool_decide_eq_true in H; exact H.
Qed.

Lemma strict_eq_refl_string (s : string) : strict_eq (VStr s) (VStr s) = true.
Proof. unfold strict_eq. now apply bool_decide_eq_true. Qed.

Lemma acceptable_fields (u : obj) :
  acceptable u = true ->
  (forall f, f ∈ required -> exists s, get u f = VStr s /\ Str.all_space s = false)
  /\ isValidEmail (get u "email") = true
  /\ includes validTypes (get u "userType") = true
  /\ (negb (truthy (get u "status")) || includes validStatuses (get u "status")) = true.
Proof.
  unfold acceptable. intros H.
  apply andb_true_iff in H as [H Hstatus]. apply andb_true_iff in H as [H Htype].
  apply andb_true_iff in H as [H Hemail]. repeat split; try assumption.
  intros f Hf. rewrite forallb_forall in H. apply list_elem_of_In in Hf.
  specialize (H f Hf). destruct (get u f) as [| | | |s]; try discriminate.
  exists s. split; [reflexivity|]. now apply negb_true_iff in H.
Qed.

(** Validation looks at the five required fields and at the status. *)
Lemma acceptable_agree (u u' : obj) :
  (forall f, f ∈ required -> get u' f = get u f) ->
  (negb (truthy (get u' "status")) || includes validStatuses (get u' "status")) = true ->
  acceptable u = true -> acceptable u' = true.
Proof.
  intros Hreq Hstatus Hu. unfold acceptable in *.
  apply andb_true_iff in Hu as [Hu _]. apply andb_true_iff in Hu as [Hu Htype].
  apply andb_true_iff in Hu as [Hu Hemail].
  rewrite !(Hreq "email"), !(Hreq "userType") by (unfold required; set_solver).
  apply andb_true_iff; split; [|assumption].
  apply andb_true_iff; split; [|assumption].
  apply andb_true_iff; split; [|assumption].
  rewrite forallb_forall in Hu. apply forallb_forall. intros f Hf.
  rewrite Hreq by now apply list_elem_of_In. now apply Hu.
Qed.

Lemma required_not_stamped (f : string) :
  f ∈ required ->
  f <> "id" /\ f <> "createdAt" /\ f <> "lastActive" /\ f <> "status" /\ f <> "lastModified".
Proof.
  intros Hf. apply list_elem_of_In in Hf. simpl in Hf.
  destruct Hf as [<-|[<-|[<-|[<-|[<-|[]]]]]]; repeat split; discriminate.
Qed.

Lemma created_user_status (w : world) (userData : obj) :
  get (created_user w userData) "status" = status_or_active userData.
Proof. unfold get, created_user, new_user_literal. now rewrite lookup_insert_eq. Qed.

Lemma created_user_passes (w : world) (userData : obj) :
  passes userData = true -> passes (created_user w userData) = true.
Proof.
  rewrite !passes_acceptable. intros Hu.
  apply (acceptable_agree userData); [| |exact Hu].
  - intros f Hf. destruct (required_not_stamped f Hf) as (? & ? & ? & ? & _).
    now apply created_user_field.
  - rewrite created_user_status. unfold status_or_active.
    destruct (acceptable_fields _ Hu) as (_ & _ & _ & Hs).
    destruct (truthy (get userData "status")) eqn:Ht; [|reflexivity].
    rewrite Ht. exact Hs.
Qed.

(** The fields of the record an update leaves: the property of the patch
    where the patch has one, the old property otherwise. *)
Lemma merged_literal_field (existing userData : obj) (now k : string) :
  k <> "lastModified" ->
  get (merged_literal existing userData now) k
  = match userData !! k with
    | Some v => v
    | None => get existing k
    end.
Proof.
  intros Hk. unfold get, merged_literal.
  rewrite lookup_insert_ne by congruence. rewrite lookup_union.
  destruct (userData !! k), (existing !! k); reflexivity.
Qed.

Lemma get_string_own (u : obj) (k s : string) : get u k = VStr s -> u !! k = Some (VStr s).
Proof. unfold get. destruct (u !! k); simpl; congruence. Qed.

Lemma merged_literal_passes (existing userData : obj) (now : string) :
  passes existing = true -> passes userData = true ->
  passes (merged_literal existing userData now) = true.
Proof.
  rewrite !passes_acceptable. intros Hold Hnew.
  destruct (acceptable_fields _ Hnew) as (Hreq & _ & _ & Hs).
  apply (acceptable_agree userData); [| |exact Hnew].
  - intros f Hf. destruct (required_not_stamped f Hf) as (_ & _ & _ & _ & Hlm).
    rewrite merged_literal_field by exact Hlm.
    destruct (Hreq f Hf) as (s & Hfs & _). now rewrite (get_string_own _ _ _ Hfs).
  - rewrite merged_literal_field by discriminate.
    destruct (userData !! "status") as [v|] eqn:Hst.
    + unfold get in Hs. now rewrite Hst in Hs.
    + now destruct (acceptable_fields _ Hold) as (_ & _ & _ & Hs').
Qed.

Lemma merged_literal_id (existing userData : obj) (now : string) :
  no_own_id userData = true ->
  get (merged_literal existing userData now) "id" = get existing "id".
Proof.
  intros Hno%bool_decide_eq_true. rewrite merged_literal_field by discriminate.
  now rewrite Hno.
Qed.

Lemma merged_literal_email (existing userData : obj) (now : string) :
  passes userData = true ->
  get (merged_literal existing userData now) "email" = get userData "email".
Proof.
  rewrite passes_acceptable. intros Hu.
  destruct (acceptable_fields _ Hu) as (Hreq & _).
  destruct (Hreq "email") as (s & Hs & _); [unfold required; set_solver|].
  rewrite merged_literal_field by discriminate.
  now rewrite (get_string_own _ _ _ Hs), Hs.
Qed.

(** What JSON keeps of a property. *)
Lemma json_round_trip_field (r : obj) (k : string) :
  get (of_json <$> omap to_json r) k
  = match get r k with
    | VNum NaN => VNull
    | v => v
    end.
Proof.
  unfold get. rewrite lookup_fmap, lookup_omap.
  destruct (r !! k) as [[| | |[|z]|]|]; reflexivity.
Qed.

Lemma json_round_trip_passes (r : obj) :
  passes r = true -> passes (of_json <$> omap to_json r) = true.
Proof.
  rewrite !passes_acceptable. intros Hr.
  destruct (acceptable_fields _ Hr) as (Hreq & _ & _ & Hs).
  apply (acceptable_agree r); [| |exact Hr].
  - intros f Hf. rewrite json_round_trip_field.
    destruct (Hreq f Hf) as (s & -> & _). reflexivity.
  - rewrite json_round_trip_field.
    destruct (get r "status") as [| | |[|z]|]; try exact Hs; reflexivity.
Qed.

Lemma elem_of_insert_inv {A} (l : list A) (i : nat) (x y : A) :
  y ∈ <[i := x]> l -> y = x \/ y ∈ l.
Proof.
  revert i. induction l as [|z l IH]; intros [|i]; simpl; auto.
  - intros [->|Hy]%elem_of_cons; [auto|]. right. now apply list_elem_of_further.
  - intros [->|Hy]%elem_of_cons; [right; apply list_elem_of_here|].
    destruct (IH _ Hy); [auto|]. right. now apply list_elem_of_further.
Qed.

Lemma NoDup_insert_fresh {A} (l : list A) (i : nat) (x : A) :
  NoDup l -> x ∉ l -> NoDup (<[i := x]> l).
Proof.
  intros Hnd. revert i. induction Hnd as [|y l Hy Hnd IH]; intros i Hx; [constructor|].
  apply not_elem_of_cons in Hx as [Hxy Hxl].
  destruct i as [|i]; simpl.
  - constructor; assumption.
  - constructor; [|now apply IH].
    intros [->|Hin]%elem_of_insert_inv; [congruence|contradiction].
Qed.

Lemma id_in_weaken (lo hi hi' : Z) (r : obj) : hi <= hi' -> id_in lo hi r -> id_in lo hi' r.
Proof. intros Hle (k & Hk & Hr). exists k. split; [assumption|lia]. Qed.

Lemma store_ok_weaken (n n' : Z) (us : list obj) :
  n <= n' <= 2 ^ 53 -> store_ok n us -> store_ok n' us.
Proof.
  intros Hle (Hn & Hall & Hids & Hemails). repeat split; try assumption; try lia.
  eapply Forall_impl; [exact Hall|]. intros r [Hp Hid]. split; [assumption|].
  eapply id_in_weaken; [|eassumption]. lia.
Qed.

Lemma service_room_weaken (k k' : Z) (s : UserService) :
  k' <= k -> service_room k s -> service_room k' s.
Proof.
  intros Hle (n & Hn & Hroom & Hok). exists n.
  split; [assumption|]. split; [lia|assumption].
Qed.

Lemma service_room_ok (k : Z) (s : UserService) : 0 <= k -> service_room k s -> service_ok s.
Proof. intros _ (n & Hn & _ & Hok). exists n. auto. Qed.

Lemma service_ok_room (s : UserService) : service_ok s -> service_room 0 s.
Proof.
  intros (n & Hn & Hok). exists n. split; [assumption|]. split; [|assumption].
  destruct Hok as (Hb & _). lia.
Qed.

Lemma world_room_ok (k : Z) (w : world) : 0 <= k -> world_room k w -> world_ok w.
Proof.
  intros Hk [Hsvc Hslot]. split; [eapply service_room_ok; eassumption|].
  intros text Ht. destruct (Hslot text Ht) as (n & _ & Hok). eauto.
Qed.

(** When no record holds the e-mail of the input, the e-mail is new. *)
Lemma not_taken_fresh (us : list obj) (e : string) :
  findUserByEmail us (VStr e) = None -> VStr e ∉ emails_of us.
Proof.
  unfold findUserByEmail, emails_of. intros Hnone Hin.
  apply list_elem_of_fmap in Hin as (u & Hu & Hin).
  apply list_elem_of_In in Hin.
  pose proof (List.find_none _ _ Hnone u Hin) as Hf. simpl in Hf.
  rewrite <- Hu, strict_eq_refl_string in Hf. discriminate.
Qed.

Lemma passes_email_string (u : obj) :
  passes u = true -> exists e, get u "email" = VStr e.
Proof.
  rewrite passes_acceptable. intros Hu.
  destruct (acceptable_fields _ Hu) as (Hreq & _).
  destruct (Hreq "email") as (s & Hs & _); [unfold required; set_solver|]. eauto.
Qed.

Lemma store_ok_append (n : Z) (us : list obj) (r : obj) (e : string) :
  store_ok n us ->
  n < 2 ^ 53 ->
  passes r = true -> get r "id" = VNum (Int n) -> get r "email" = VStr e ->
  VStr e ∉ emails_of us ->
  store_ok (n + 1) (us ++ [r]).
Proof.
  intros (Hn & Hall & Hids & Hemails) Hroom Hp Hid He Hfresh.
  split; [lia|]. split; [|split].
  - apply Forall_app. split.
    + eapply Forall_impl; [exact Hall|]. intros x [Hx Hxid]. split; [assumption|].
      eapply id_in_weaken; [|exact Hxid]. lia.
    + constructor; [|constructor]. split; [assumption|]. exists n. split; [assumption|lia].
  - unfold ids_of. rewrite map_app. apply NoDup_app. split; [exact Hids|]. split.
    + intros v Hv Hin. simpl in Hin. apply list_elem_of_singleton in Hin. subst v.
      apply list_elem_of_fmap in Hv as (x & Hx & Hxin).
      rewrite Forall_forall in Hall. destruct (Hall x Hxin) as [_ (k & Hk & Hrange)].
      rewrite Hid in Hx. rewrite Hk in Hx. injection Hx as ->. lia.
    + simpl. apply NoDup_singleton.
  - unfold emails_of. rewrite map_app. apply NoDup_app. split; [exact Hemails|]. split.
    + intros v Hv Hin. simpl in Hin. apply list_elem_of_singleton in Hin. subst v.
      rewrite He in Hv. contradiction.
    + simpl. apply NoDup_singleton.
Qed.

Lemma createUser_keeps_room (userData : obj) (w : world) (k : Z) :
  no_own_id userData = true ->
  0 <= k ->
  service_room (k + 1) (this w) ->
  service_room k (this (snd (createUser userData w))).
Proof.
  intros Hno Hk (n & Hn & Hroom & Hok).
  destruct (createUser_outcome userData w) as [[msg ->]|(Hp & Hfree & ->)].
  - exists n. split; [assumption|]. split; [lia|assumption].
  - assert (Hb : 1 <= n <= 2 ^ 53) by (destruct Hok as (Hb & _); exact Hb).
    exists (n + 1). cbn [snd after_create this nextId users]. rewrite Hn.
    split; [apply succ_number_safe; lia|]. split; [lia|].
    destruct (passes_email_string _ Hp) as [e He].
    apply (store_ok_append n _ _ e).
    + exact Hok.
    + lia.
    + now apply created_user_passes.
    + rewrite created_user_id by exact Hno. now rewrite Hn.
    + rewrite created_user_field by discriminate. exact He.
    + apply not_taken_fresh. unfold email_taken in Hfree.
      apply bool_decide_eq_false in Hfree. rewrite He in Hfree.
      destruct (findUserByEmail _ _); [|reflexivity]. exfalso. apply Hfree. eauto.
Qed.

Lemma createUser_keeps_order (userData : obj) (w : world) :
  no_own_id userData = true ->
  service_room 1 (this w) ->
  service_ok (this (snd (createUser userData w))).
Proof.
  intros Hno Hroom. apply (service_room_ok 0); [lia|].
  apply createUser_keeps_room; [assumption|lia|exact Hroom].
Qed.

Lemma validateUser_passes (userData : obj) (v : validation) :
  validateUser userData = inr v -> negb (isValid v) = false -> passes userData = true.
Proof. intros Hv Hvalid. unfold passes. rewrite Hv. now apply negb_false_iff. Qed.

Lemma has_id_value (id : value) (user : obj) :
  has_id id user = true -> get user "id" = VNum (parseInt id).
Proof. apply strict_eq_true. Qed.

(** With ids that are all different, the record found by its id is the
    only one that has it. *)
Lemma same_id_same_record (us : list obj) (i : nat) (a b : obj) :
  NoDup (ids_of us) -> us !! i = Some a -> b ∈ us -> get b "id" = get a "id" -> b = a.
Proof.
  intros Hnd Ha Hb Hid. apply list_elem_of_lookup in Hb as [j Hj].
  assert (Hi' : ids_of us !! i = Some (get a "id")).
  { unfold ids_of. change (map ?f ?l) with (f <$> l). now rewrite list_lookup_fmap, Ha. }
  assert (Hj' : ids_of us !! j = Some (get a "id")).
  { unfold ids_of. change (map ?f ?l) with (f <$> l).
    rewrite list_lookup_fmap, Hj. simpl. now rewrite Hid. }
  pose proof (NoDup_lookup _ _ _ _ Hnd Hi' Hj') as ->. congruence.
Qed.

Lemma find_some_elem {A} (p : A -> bool) (l : list A) (x : A) :
  List.find p l = Some x -> x ∈ l /\ p x = true.
Proof. intros H. apply List.find_some in H as [Hin Hp]. split; [now apply list_elem_of_In|assumption]. Qed.

Lemma store_ok_update (n : Z) (us : list obj) (i : nat) (id : value)
    (old patch : obj) (now : string) :
  store_ok n us ->
  us !! i = Some old -> has_id id old = true ->
  passes patch = true -> no_own_id patch = true ->
  match findUserByEmail us (get patch "email") with
  | Some existingUser => negb (has_id id existingUser)
  | None => false
  end = false ->
  store_ok n (<[i := merged_literal old patch now]> us).
Proof.
  intros (Hn & Hall & Hids & Hemails) Hi Hold Hp Hno Hother.
  assert (Hold_ok : passes old = true /\ id_in 1 n old).
  { rewrite Forall_forall in Hall. apply Hall. apply list_elem_of_lookup. eauto. }
  split; [exact Hn|]. split; [|split].
  - apply Forall_insert; [exact Hall|]. split.
    + apply merged_literal_passes; tauto.
    + destruct Hold_ok as [_ (k & Hk & Hr)]. exists k.
      rewrite merged_literal_id by exact Hno. auto.
  - unfold ids_of. change (map ?f ?l) with (f <$> l). rewrite list_fmap_insert.
    rewrite merged_literal_id by exact Hno.
    rewrite list_insert_id; [exact Hids|]. now rewrite list_lookup_fmap, Hi.
  - unfold emails_of. change (map ?f ?l) with (f <$> l). rewrite list_fmap_insert.
    rewrite merged_literal_email by exact Hp.
    destruct (passes_email_string _ Hp) as [e He]. rewrite He in *.
    destruct (findUserByEmail us (VStr e)) as [existing|] eqn:Hfind.
    + apply negb_false_iff in Hother.
      apply find_some_elem in Hfind as [Hin Hmail]. apply strict_eq_true in Hmail.
      assert (existing = old) as ->.
      { eapply same_id_same_record; try eassumption.
        now rewrite (has_id_value _ _ Hother), (has_id_value _ _ Hold). }
      rewrite list_insert_id; [exact Hemails|].
      rewrite list_lookup_fmap, Hi. simpl. now rewrite Hmail.
    + apply NoDup_insert_fresh; [exact Hemails|]. now apply not_taken_fresh.
Qed.

Lemma updateUser_keeps_room (id : value) (userData : obj) (w : world) (k : Z) :
  no_own_id userData = true ->
  service_room k (this w) ->
  service_room k (this (snd (updateUser id userData w))).
Proof.
  intros Hno (n & Hn & Hroom & Hok). unfold updateUser, try_catch.
  rewrite updateUser_body_cases.
  destruct (findIndex _ _) as [i|] eqn:Hi; [|exists n; auto].
  destruct (validateUser userData) as [e|v] eqn:Hv; [exists n; auto|].
  destruct (negb (isValid v)) eqn:Hvalid; [exists n; auto|].
  destruct (email_taken_by_other w id userData) eqn:Hother; [exists n; auto|].
  destruct (findIndex_Some _ _ _ Hi) as (old & Hold & Hid & _).
  exists n. simpl. split; [exact Hn|]. split; [exact Hroom|].
  unfold updated_user, at_index. rewrite Hold. simpl.
  eapply store_ok_update; try eassumption.
  eapply validateUser_passes; eassumption.
Qed.

Lemma deleteUser_keeps_room (id : value) (w : world) (k : Z) :
  service_room k (this w) -> service_room k (this (snd (deleteUser id w))).
Proof.
  intros (n & Hn & Hroom & Hnpos & Hall & Hids & Hemails). unfold deleteUser, try_catch.
  rewrite deleteUser_body_cases.
  destruct (findIndex _ _) as [i|]; [|exists n; repeat split; assumption || lia].
  exists n. simpl. split; [exact Hn|]. split; [exact Hroom|].
  split; [exact Hnpos|]. split; [|split].
  - now apply Forall_delete.
  - unfold ids_of in *. change (map ?f ?l) with (f <$> l) in *. rewrite list_fmap_delete.
    exact (sublist_NoDup _ _ Hids (sublist_delete _ _)).
  - unfold emails_of in *. change (map ?f ?l) with (f <$> l) in *. rewrite list_fmap_delete.
    exact (sublist_NoDup _ _ Hemails (sublist_delete _ _)).
Qed.

Lemma createUser_localStorage (userData : obj) (w : world) :
  localStorage (snd (createUser userData w)) = localStorage w.
Proof.
  destruct (createUser_outcome userData w) as [[msg ->]|(_ & _ & ->)]; reflexivity.
Qed.

Lemma crud_call_localStorage (c : crud) (w : world) :
  localStorage (snd (crud_call c w)) = localStorage w.
Proof.
  destruct c as [userData|id userData|id]; simpl.
  - apply createUser_localStorage.
  - unfold updateUser, try_catch. rewrite updateUser_body_cases.
    destruct (findIndex _ _); [|reflexivity].
    destruct (validateUser userData) as [e|v]; [reflexivity|].
    destruct (negb _); [reflexivity|].
    destruct (email_taken_by_other _ _ _); reflexivity.
  - unfold deleteUser, try_catch. rewrite deleteUser_body_cases.
    destruct (findIndex _ _); reflexivity.
Qed.

Lemma create_each_localStorage (usersData : list obj) (w : world) :
  localStorage (snd (create_each usersData w)) = localStorage w.
Proof.
  revert w. induction usersData as [|userData rest IH]; intros w; simpl; [reflexivity|].
  pose proof (createUser_localStorage userData w) as Hls.
  destruct (createUser userData w) as [r w']. specialize (IH w').
  destruct (create_each rest w') as [rs w'']. simpl in *. congruence.
Qed.

Lemma create_each_keeps_room (usersData : list obj) (w : world) (k : Z) :
  forallb no_own_id usersData = true ->
  0 <= k ->
  service_room (k + Z.of_nat (length usersData)) (this w) ->
  service_room k (this (snd (create_each usersData w))).
Proof.
  revert w. induction usersData as [|userData rest IH]; intros w.
  - intros _ Hk Hroom. simpl in *. eapply service_room_weaken; [|exact Hroom]. lia.
  - cbn [forallb create_each length]. intros [Hno Hrest]%andb_true_iff Hk Hroom.
    assert (Hroom' : service_room (k + Z.of_nat (length rest))
                       (this (snd (createUser userData w)))).
    { apply createUser_keeps_room; [assumption|lia|].
      eapply service_room_weaken; [|exact Hroom]. lia. }
    destruct (createUser userData w) as [r w']. cbn [snd] in Hroom'.
    specialize (IH w' Hrest Hk Hroom').
    now destruct (create_each rest w') as [rs w''].
Qed.

Lemma loadSampleData_loop_create_each (l : list obj) (w : world) :
  loadSampleData_loop l w = (tt, snd (create_each l w)).
Proof.
  revert w. induction l as [|userData rest IH]; intros w; simpl; [reflexivity|].
  destruct (createUser userData w) as [r w']. rewrite IH.
  now destruct (create_each rest w').
Qed.

Lemma store_ok_round_trip (n : Z) (us : list obj) :
  store_ok n us -> store_ok n (JSON_parse (JSON_stringify us)).
Proof.
  intros (Hn & Hall & Hids & Hemails).
  assert (Hsame : ids_of (JSON_parse (JSON_stringify us)) = ids_of us
                  /\ emails_of (JSON_parse (JSON_stringify us)) = emails_of us
                  /\ Forall (fun r => passes r = true /\ id_in 1 n r)
                       (JSON_parse (JSON_stringify us))).
  { clear Hids Hemails. unfold JSON_parse, JSON_stringify, ids_of, emails_of.
    induction Hall as [|r us [Hp (k & Hk & Hr)] Hall (IH1 & IH2 & IH3)]; simpl.
    - repeat split; constructor.
    - destruct (passes_email_string _ Hp) as [e He].
      rewrite !json_round_trip_field, Hk, He, IH1, IH2.
      repeat split. constructor; [|exact IH3]. split.
      + now apply json_round_trip_passes.
      + exists k. now rewrite json_round_trip_field, Hk. }
  destruct Hsame as (Hi & He & Hall'). unfold store_ok. rewrite Hi, He.
  repeat split; assumption || lia.
Qed.

Section OrderFacts.

Variable StringToNumber : string -> number.

(** The largest of integer ids and 0. *)
Lemma Math_max_0_bound (us : list obj) (n : Z) :
  1 <= n ->
  Forall (fun r => passes r = true /\ id_in 1 n r) us ->
  exists m, Math_max_0 StringToNumber (map (fun u => get u "id") us) = Int m
            /\ 0 <= m < n
            /\ Forall (fun r => passes r = true /\ id_in 1 (m + 1) r) us.
Proof.
  intros Hn. induction 1 as [|r us [Hp (k & Hk & Hr)] Hall (m & Hm & Hpos & IH)]; simpl.
  - exists 0. repeat split; [lia|lia|constructor].
  - rewrite Hm, Hk. simpl. exists (Z.max k m). repeat split; [lia|lia|].
    constructor.
    + split; [assumption|]. exists k. split; [assumption|lia].
    + eapply Forall_impl; [exact IH|]. intros x [Hx Hxid]. split; [assumption|].
      eapply id_in_weaken; [|exact Hxid]. lia.
Qed.

Lemma loadUsers_empty_slot (w : world) :
  localStorage w !! storage_key = None ->
  this (snd (loadUsers StringToNumber w)) = this (snd (create_each sampleUsers w))
  /\ localStorage (snd (loadUsers StringToNumber w)) = localStorage w.
Proof.
  intros Hslot. unfold loadUsers, try_catch, loadUsers_body. unfold_monad.
  rewrite Hslot. unfold loadSampleData. rewrite loadSampleData_loop_create_each.
  cbv beta iota zeta. cbn [fst snd this localStorage].
  split; [reflexivity|]. apply create_each_localStorage.
Qed.

Lemma loadUsers_keeps_room (w : world) (k : Z) :
  0 <= k ->
  world_room (k + Z.of_nat (length sampleUsers)) w ->
  world_room k (snd (loadUsers StringToNumber w)).
Proof.
  intros Hk [Hsvc Hslot].
  destruct (localStorage w !! storage_key) as [text|] eqn:Htext.
  - rewrite (loadUsers_stored StringToNumber w text Htext). cbn [snd].
    destruct (Hslot text eq_refl) as (n & Hroom & Hb & Hall & Hids & Hemails).
    destruct (Math_max_0_bound _ n (proj1 Hb) Hall) as (m & Hm & Hpos & Hall').
    split.
    + exists (m + 1). cbn [this nextId users]. rewrite Hm.
      split; [apply succ_number_safe; lia|]. split; [lia|].
      repeat split; try assumption; lia.
    + intros t Ht. cbn [localStorage] in Ht. rewrite Htext in Ht.
      destruct (Hslot t Ht) as (n' & Hroom' & Hok'). exists n'. split; [lia|assumption].
  - destruct (loadUsers_empty_slot w Htext) as [Hthis Hls]. split.
    + rewrite Hthis. apply create_each_keeps_room; [reflexivity|assumption|exact Hsvc].
    + rewrite Hls. intros t Ht. rewrite Htext in Ht. discriminate.
Qed.

Lemma saveUsers_keeps_room (w : world) (k : Z) :
  world_room k w -> world_room k (snd (saveUsers w)).
Proof.
  intros [Hsvc Hslot].
  destruct (storage_throws w (writes w)) as [msg|] eqn:Hthrows.
  - destruct (saveUsers_fails w msg Hthrows) as (_ & Hthis & Hls & _).
    split; [now rewrite Hthis|]. now rewrite Hls.
  - rewrite saveUsers_spec by exact Hthrows. cbn [snd]. split; [exact Hsvc|].
    cbn [after_save localStorage]. intros text. rewrite lookup_insert_eq.
    intros [= <-]. destruct Hsvc as (n & _ & Hroom & Hok). exists n.
    split; [exact Hroom|]. now apply store_ok_round_trip.
Qed.

Lemma creations_nonneg (o : op) : 0 <= creations o.
Proof. destruct o as [[]| | | | |]; simpl; lia. Qed.

Lemma total_creations_nonneg (ops : list op) : 0 <= total_creations ops.
Proof.
  induction ops as [|o ops IH]; simpl; [lia|]. pose proof (creations_nonneg o). lia.
Qed.

Lemma world_room_weaken (k k' : Z) (w : world) :
  k' <= k -> world_room k w -> world_room k' w.
Proof.
  intros Hle [Hsvc Hslot]. split; [eapply service_room_weaken; eassumption|].
  intros text Ht. destruct (Hslot text Ht) as (n & Hroom & Hok). exists n.
  split; [lia|assumption].
Qed.

Lemma slot_room_kept (k k' : Z) (w w' : world) :
  k' <= k -> localStorage w' = localStorage w -> world_room k w ->
  forall text, localStorage w' !! storage_key = Some text ->
               exists n, n + k' <= 2 ^ 53 /\ store_ok n (JSON_parse text).
Proof.
  intros Hle Hls [_ Hslot] text Ht. rewrite Hls in Ht.
  destruct (Hslot text Ht) as (n & Hroom & Hok). exists n. split; [lia|assumption].
Qed.

Lemma step_keeps_room (o : op) (w : world) (k : Z) :
  keeps_ids o = true ->
  0 <= k ->
  world_room (k + creations o) w ->
  world_room k (snd (step StringToNumber o w)).
Proof.
  intros Hids Hk Hroom. pose proof Hroom as [Hsvc Hslot].
  destruct o as [c|usersData| | |cb|cb]; simpl in Hids.
  - assert (Hgoal : world_room k (snd (crud_call c w))).
    { split.
      - destruct c as [userData|id userData|id]; cbn [crud_call creations] in *.
        + now apply createUser_keeps_room.
        + apply updateUser_keeps_room; [assumption|].
          eapply service_room_weaken; [|exact Hsvc]. lia.
        + apply deleteUser_keeps_room.
          eapply service_room_weaken; [|exact Hsvc]. lia.
      - apply (slot_room_kept (k + creations (Crud c)) k w);
          [pose proof (creations_nonneg (Crud c)); lia
          |apply crud_call_localStorage|exact Hroom]. }
    destruct c as [userData|id userData|id]; cbn [step crud_call] in *; try exact Hgoal.
    destruct (createUser userData w) as [r w']. exact Hgoal.
  - cbn [step creations] in *. unfold importUsers.
    rewrite importUsers_loop_create_each. cbn [snd notify this localStorage]. split.
    + now apply create_each_keeps_room.
    + apply (slot_room_kept (k + Z.of_nat (length usersData)) k w);
        [lia|apply create_each_localStorage|exact Hroom].
  - cbn [step snd creations] in *. apply saveUsers_keeps_room.
    eapply world_room_weaken; [|exact Hroom]. lia.
  - cbn [step snd creations] in *. now apply loadUsers_keeps_room.
  - cbn [step snd creations subscribe with_this] in *.
    split; [|apply (slot_room_kept (k + 0) k w); [lia|reflexivity|exact Hroom]].
    destruct Hsvc as (n & Hn & Hr & Hok). exists n. cbn [this nextId users].
    split; [assumption|]. split; [lia|exact Hok].
  - cbn [step snd creations unsubscribe with_this] in *.
    split; [|apply (slot_room_kept (k + 0) k w); [lia|reflexivity|exact Hroom]].
    destruct Hsvc as (n & Hn & Hr & Hok). exists n. cbn [this nextId users].
    split; [assumption|]. split; [lia|exact Hok].
Qed.

Lemma run_keeps_room (ops : list op) (w : world) (k : Z) :
  forallb keeps_ids ops = true ->
  0 <= k ->
  world_room (k + total_creations ops) w ->
  world_room k (snd (run StringToNumber ops w)).
Proof.
  revert w. induction ops as [|o rest IH]; intros w.
  - intros _ _ Hroom. simpl in *. eapply world_room_weaken; [|exact Hroom]. lia.
  - cbn [forallb run total_creations fold_right]. fold (total_creations rest).
    intros [Ho Hrest]%andb_true_iff Hk Hroom.
    pose proof (total_creations_nonneg rest) as Hpos.
    assert (Hroom' : world_room (k + total_creations rest) (snd (step StringToNumber o w))).
    { apply step_keeps_room; [assumption|lia|].
      eapply world_room_weaken; [|exact Hroom]. lia. }
    destruct (step StringToNumber o w) as [ids w']. cbn [snd] in Hroom'.
    specialize (IH w' Hrest Hk Hroom').
    now destruct (run StringToNumber rest w') as [ids' w''].
Qed.

End OrderFacts.

Lemma world_room_page_constructor (k : Z) :
  0 <= k -> 1 + k <= 2 ^ 53 -> world_room k (page constructor).
Proof.
  intros Hk Hroom. split.
  - exists 1. split; [reflexivity|]. split; [exact Hroom|].
    repeat split; try constructor; lia.
  - intros text Ht. simpl in Ht. rewrite lookup_empty in Ht. discriminate.
Qed.

(** X3.  Take a state in order (a newly constructed service is one), and
    any sequence of createUser, updateUser, deleteUser, importUsers,
    saveUsers, loadUsers, subscribe and unsubscribe calls whose inputs
    bring no [id] property of their own, short enough for the counter to
    stay within 2^53: the counter, and the ids in the storage slot, are
    further below 2^53 than the sequence has [createUser] calls, entries
    of [importUsers] and sample records to seed.  In the state reached
    every stored record passes validation as a whole, the ids of the
    stored records are integers from 1 below the counter and all
    different, the counter is at most 2^53, and no two stored records
    have the same e-mail.  The same holds of what the storage slot
    contains. *)
Theorem store_stays_in_order (StringToNumber : string -> number)
    (ops : list op) (w : world) :
  world_room (total_creations ops) w ->
  forallb keeps_ids ops = true ->
  let s := this (snd (run StringToNumber ops w)) in
  world_ok (snd (run StringToNumber ops w))
  /\ Forall (fun r => passes r = true) (users s)
  /\ NoDup (emails_of (users s))
  /\ NoDup (ids_of (users s))
  /\ exists n, nextId s = Int n /\ 1 <= n <= 2 ^ 53 /\ Forall (id_in 1 n) (users s).
Proof.
  intros Hroom Hops. cbv zeta.
  assert (Hfinal : world_ok (snd (run StringToNumber ops w))).
  { apply (world_room_ok 0); [lia|].
    apply run_keeps_room; [exact Hops|lia|exact Hroom]. }
  split; [exact Hfinal|].
  destruct Hfinal as [(n & Hn & Hb & Hall & Hids & Hemails) _].
  split; [eapply Forall_impl; [exact Hall|]; intros r [Hr _]; exact Hr|].
  split; [exact Hemails|]. split; [exact Hids|].
  exists n. split; [exact Hn|]. split; [exact Hb|]. eapply Forall_impl; [exact Hall|].
  intros r [_ Hr]. exact Hr.
Qed.

Lemma store_stays_in_order_witness :
  let s := this (snd (run (fun _ => NaN)
                        [LoadUsers; Crud (CreateUser alice); Crud (DeleteUser (VStr "2"));
                         SaveUsers; Crud (UpdateUser (VStr "1") bob); LoadUsers;
                         ImportUsers [bob; alice; carol]] (page constructor))) in
  world_ok (snd (run (fun _ => NaN)
                   [LoadUsers; Crud (CreateUser alice); Crud (DeleteUser (VStr "2"));
                    SaveUsers; Crud (UpdateUser (VStr "1") bob); LoadUsers;
                    ImportUsers [bob; alice; carol]] (page constructor)))
  /\ Forall (fun r => passes r = true) (users s)
  /\ NoDup (emails_of (users s))
  /\ NoDup (ids_of (users s))
  /\ exists n, nextId s = Int n /\ 1 <= n <= 2 ^ 53 /\ Forall (id_in 1 n) (users s).
Proof.
  apply (store_stays_in_order (fun _ => NaN)
           [LoadUsers; Crud (CreateUser alice); Crud (DeleteUser (VStr "2"));
            SaveUsers; Crud (UpdateUser (VStr "1") bob); LoadUsers;
            ImportUsers [bob; alice; carol]] (page constructor)).
  - apply world_room_page_constructor; vm_compute; discriminate.
  - vm_compute. reflexivity.
Defined.

(** ** A successful createUser *)




(** ** A successful updateUser *)

Lemma getUserById_index (id : value) (w : world) (u : obj) :
  getUserById id w = Some u ->
  exists i, findIndex (has_id id) (users (this w)) = Some i
            /\ users (this w) !! i = Some u /\ has_id id u = true.
Proof.
  intros Hu. destruct (getUserById_findIndex id w) as [i Hi]; [eauto|].
  exists i. split; [exact Hi|].
  destruct (findIndex_Some _ _ _ Hi) as (x & Hx & Hp & Hfind).
  unfold getUserById in Hu. rewrite Hfind in Hu. injection Hu as ->. auto.
Qed.




Lemma same_email_same_record (us : list obj) (i : nat) (a b : obj) :
  NoDup (emails_of us) -> us !! i = Some a -> b ∈ us ->
  get b "email" = get a "email" -> b = a.
Proof.
  intros Hnd Ha Hb Hmail. apply list_elem_of_lookup in Hb as [j Hj].
  assert (Hi' : emails_of us !! i = Some (get a "email")).
  { unfold emails_of. change (map ?f ?l) with (f <$> l). now rewrite list_lookup_fmap, Ha. }
  assert (Hj' : emails_of us !! j = Some (get a "email")).
  { unfold emails_of. change (map ?f ?l) with (f <$> l).
    rewrite list_lookup_fmap, Hj. simpl. now rewrite Hmail. }
  pose proof (NoDup_lookup _ _ _ _ Hnd Hi' Hj') as ->. congruence.
Qed.


Lemma service_room_watched_alice : service_room 1 (this watched_alice).
Proof.
  apply (createUser_keeps_room alice watched 1); [reflexivity|lia|].
  exists 1. split; [reflexivity|]. split; [lia|]. repeat split; try constructor; lia.
Qed.

Lemma service_ok_watched_alice : service_ok (this watched_alice).
Proof. apply (service_room_ok 1); [lia|exact service_room_watched_alice]. Qed.



(** ** A successful deleteUser *)



(** ** The id argument *)






(** Without the assumption that ids are all different the last part
    fails: [deleteUser] removes the first record with the id only.  With
    two records of the same id (the second created from an input that
    carries the id), the id still addresses a record after the delete. *)
Example deleteUser_first_match_only :
  let w := snd (createUser (<["id" := VNum (Int 1)]> bob) watched_alice) in
  emails_of (users (this w)) = [VStr "a@b.com"; VStr "bob@c.org"]
  /\ ids_of (users (this w)) = [VNum (Int 1); VNum (Int 1)]
  /\ option_map (fun x => get x "email")
       (getUserById (VNum (Int 1)) (snd (deleteUser (VNum (Int 1)) w)))
     = Some (VStr "bob@c.org").
Proof. repeat split; vm_compute; reflexivity. Qed.

(** ** Lookups *)

Lemma find_first_of_unique (us : list obj) (key : obj -> value) (u : obj) :
  NoDup (map key us) -> u ∈ us ->
  (forall x, strict_eq (key x) (key u) = true -> key x = key u) ->
  strict_eq (key u) (key u) = true ->
  List.find (fun x => strict_eq (key x) (key u)) us = Some u.
Proof.
  intros Hnd Hin _ Hrefl.
  destruct (List.find _ us) as [x|] eqn:Hfind.
  - apply find_some_elem in Hfind as [Hx Hkey]. apply strict_eq_true in Hkey.
    apply list_elem_of_lookup in Hin as [i Hi].
    apply list_elem_of_lookup in Hx as [j Hj].
    assert (Hi' : map key us !! i = Some (key u)).
    { change (map ?f ?l) with (f <$> l). now rewrite list_lookup_fmap, Hi. }
    assert (Hj' : map key us !! j = Some (key u)).
    { change (map ?f ?l) with (f <$> l). rewrite list_lookup_fmap, Hj. simpl. now rewrite Hkey. }
    pose proof (NoDup_lookup _ _ _ _ Hnd Hi' Hj') as ->. congruence.
  - apply list_elem_of_In in Hin.
    pose proof (List.find_none _ _ Hfind u Hin) as Hno. simpl in Hno. congruence.
Qed.

(** X8.  In a store in order (the ids are then below 2^53, where a number
    prints in decimal), each record is what the lookups return for its own
    id and for its own e-mail: [getUserById(u.id)] and
    [getUserByEmail(u.email)] are [u] for every stored record [u], and the
    id may as well be given as its decimal string. *)
Theorem lookups_find_the_record (w : world) (u : obj) :
  service_ok (this w) ->
  u ∈ users (this w) ->
  getUserById (get u "id") w = Some u
  /\ getUserById (VStr (ToString (get u "id"))) w = Some u
  /\ getUserByEmail (get u "email") w = Some u.
Proof.
  intros (n & _ & Hb & Hall & Hids & Hemails) Hin.
  rewrite Forall_forall in Hall. destruct (Hall u Hin) as [Hp (k & Hk & Hr)].
  destruct (passes_email_string _ Hp) as [e He].
  assert (Hsafe : Z.abs k < 2 ^ 53) by lia.
  assert (Hfind : List.find (fun x => strict_eq (get x "id") (get u "id")) (users (this w))
                  = Some u).
  { apply (find_first_of_unique _ (fun x => get x "id")); try assumption.
    - intros x. apply strict_eq_true.
    - rewrite Hk. unfold strict_eq. now apply bool_decide_eq_true. }
  assert (Hparse : parseInt (VStr (ToString (get u "id"))) = Int k).
  { rewrite Hk. exact (parseInt_integer k Hsafe). }
  split; [|split].
  - unfold getUserById, has_id. rewrite Hk, parseInt_integer by exact Hsafe.
    now rewrite Hk in Hfind.
  - unfold getUserById, has_id. rewrite Hparse. now rewrite Hk in Hfind.
  - unfold getUserByEmail.
    apply (find_first_of_unique _ (fun x => get x "email")); try assumption.
    + intros x. apply strict_eq_true.
    + rewrite He. apply strict_eq_refl_string.
Qed.

Lemma lookups_find_the_record_witness :
  getUserById (get (created_user watched alice) "id") watched_alice
    = Some (created_user watched alice)
  /\ getUserById (VStr (ToString (get (created_user watched alice) "id"))) watched_alice
     = Some (created_user watched alice)
  /\ getUserByEmail (get (created_user watched alice) "email") watched_alice
     = Some (created_user watched alice).
Proof.
  apply (lookups_find_the_record watched_alice (created_user watched alice)).
  - exact service_ok_watched_alice.
  - change (users (this watched_alice)) with [created_user watched alice].
    apply list_elem_of_here.
Defined.

(** X9.  An id argument that [parseInt] cannot read (no digit after the
    optional white space and sign: [undefined], [null], "", "abc", ...)
    addresses no record in any store: [getUserById] returns [undefined],
    and [updateUser] and [deleteUser] fail with "User not found" and
    change nothing in the instance. *)
Theorem unreadable_id_finds_nothing (id : value) (userData : obj) (w : world) :
  parseInt id = NaN ->
  getUserById id w = None
  /\ fst (updateUser id userData w) = Failure "User not found"
  /\ fst (deleteUser id w) = Failure "User not found"
  /\ this (snd (updateUser id userData w)) = this w
  /\ this (snd (deleteUser id w)) = this w.
Proof.
  intros Hnan.
  assert (Hnone : getUserById id w = None).
  { unfold getUserById, has_id. rewrite Hnan.
    induction (users (this w)) as [|u us IH]; [reflexivity|]. simpl.
    replace (strict_eq (get u "id") (VNum NaN)) with false; [exact IH|].
    unfold strict_eq. now destruct (get u "id") as [| | |[|?]|]. }
  split; [exact Hnone|].
  pose proof Hnone as Hidx. apply find_findIndex_None in Hidx.
  unfold updateUser, deleteUser, try_catch.
  rewrite updateUser_body_cases, deleteUser_body_cases, Hidx. repeat split.
Qed.

Lemma unreadable_id_finds_nothing_witness :
  getUserById (VStr "abc") watched_alice = None
  /\ fst (updateUser (VStr "abc") bob watched_alice) = Failure "User not found"
  /\ fst (deleteUser (VStr "abc") watched_alice) = Failure "User not found"
  /\ this (snd (updateUser (VStr "abc") bob watched_alice)) = this watched_alice
  /\ this (snd (deleteUser (VStr "abc") watched_alice)) = this watched_alice.
Proof.
  apply (unreadable_id_finds_nothing (VStr "abc") bob watched_alice). reflexivity.
Defined.

(** ** Searching *)

Lemma toLowerCase_char_space (c : ascii) :
  Str.is_space (toLowerCase_char c) = Str.is_space c.
Proof. destruct c as [[] [] [] [] [] [] [] []]; reflexivity. Qed.

Lemma toLowerCase_all_space (s : string) :
  Str.all_space (toLowerCase s) = Str.all_space s.
Proof.
  induction s as [|c s IH]; simpl; [reflexivity|].
  now rewrite toLowerCase_char_space, IH.
Qed.

Lemma toLowerCase_empty (s : string) : String.eqb (toLowerCase s) "" = String.eqb s "".
Proof. now destruct s. Qed.

(** X10.  [searchUsers] returns all records, in store order, when the
    query is falsy ([undefined], [null], the empty string, ...) or a
    string of white space only.  A truthy query that is not a string makes
    it throw a TypeError, which nothing catches: unlike the mutating
    calls, [searchUsers] has no [try]. *)
Theorem searchUsers_blank_or_not_text (query : value) (w : world) :
  (blank query = true -> searchUsers query w = inr (getAllUsers w))
  /\ (string_or_falsy query = false ->
      searchUsers query w = inl (TypeError "query.trim is not a function")).
Proof.
  unfold searchUsers, blank, string_or_falsy. split.
  - destruct (truthy query) eqn:Ht; simpl; [|reflexivity].
    destruct query as [| | | |q]; try discriminate.
    intros Hq. now rewrite trim_empty_iff, Hq.
  - intros [Ht Hs]%orb_false_iff. rewrite Ht. simpl.
    destruct query; try reflexivity. discriminate.
Qed.

Lemma searchUsers_blank_or_not_text_witness :
  searchUsers (VStr "   ") watched_alice = inr (getAllUsers watched_alice)
  /\ searchUsers (VNum (Int 5)) watched_alice
     = inl (TypeError "query.trim is not a function").
Proof.
  split.
  - apply (proj1 (searchUsers_blank_or_not_text (VStr "   ") watched_alice)). reflexivity.
  - apply (proj2 (searchUsers_blank_or_not_text (VNum (Int 5)) watched_alice)). reflexivity.
Defined.

Lemma passes_field_text (u : obj) (k : string) :
  passes u = true -> k ∈ required -> get u k = VStr (field_text u k).
Proof.
  rewrite passes_acceptable. intros Hu Hk.
  destruct (acceptable_fields _ Hu) as (Hreq & _).
  destruct (Hreq k Hk) as (s & Hs & _). unfold field_text. now rewrite Hs.
Qed.

Lemma search_predicate_total (searchTerm : string) (u : obj) :
  passes u = true -> search_predicate searchTerm u = inr (matches_term searchTerm u).
Proof.
  intros Hu. unfold search_predicate, matches_term, lowercase_includes.
  rewrite (passes_field_text u "firstName"), (passes_field_text u "lastName"),
    (passes_field_text u "email"), (passes_field_text u "userType")
    by (assumption || (unfold required; set_solver)).
  simpl.
  destruct (Str.contains searchTerm (toLowerCase (field_text u "firstName"))),
    (Str.contains searchTerm (toLowerCase (field_text u "lastName"))),
    (Str.contains searchTerm (toLowerCase (field_text u "email"))),
    (Str.contains searchTerm (toLowerCase (field_text u "userType"))); reflexivity.
Qed.

Lemma filter_throwing_total {A} (p : A -> exn + bool) (q : A -> bool) (l : list A) :
  Forall (fun x => p x = inr (q x)) l -> filter_throwing p l = inr (List.filter q l).
Proof.
  induction 1 as [|x l Hx Hl IH]; simpl; [reflexivity|]. now rewrite Hx, IH.
Qed.

Lemma List_filter_sublist {A} (q : A -> bool) (l : list A) : List.filter q l `sublist_of` l.
Proof.
  induction l as [|x l IH]; simpl; [constructor|].
  destruct (q x); [now apply sublist_skip|now apply sublist_cons].
Qed.

(** X11.  When every stored record passes validation (as in every store
    in order), [searchUsers] with a query that has something other than
    white space in it does not throw: it returns, in store order, exactly
    the records of which the first name, the last name, the e-mail or the
    type contains the query, trimmed, letter case apart. *)
Theorem searchUsers_filters (q : string) (w : world) :
  Forall (fun r => passes r = true) (users (this w)) ->
  Str.all_space q = false ->
  searchUsers (VStr q) w
    = inr (List.filter (matches_term (Str.trim (toLowerCase q))) (users (this w)))
  /\ List.filter (matches_term (Str.trim (toLowerCase q))) (users (this w))
       `sublist_of` getAllUsers w.
Proof.
  intros Hall Hq. split; [|apply List_filter_sublist].
  unfold searchUsers.
  assert (Hne : String.eqb q "" = false) by (destruct q; [discriminate|reflexivity]).
  simpl. rewrite Hne. simpl. rewrite trim_empty_iff, Hq.
  apply filter_throwing_total. eapply Forall_impl; [exact Hall|].
  intros u Hu. now apply search_predicate_total.
Qed.

Lemma searchUsers_filters_witness :
  searchUsers (VStr " B.COM ") watched_alice
    = inr (List.filter (matches_term (Str.trim (toLowerCase " B.COM ")))
             (users (this watched_alice)))
  /\ List.filter (matches_term (Str.trim (toLowerCase " B.COM "))) (users (this watched_alice))
       `sublist_of` getAllUsers watched_alice.
Proof.
  apply (searchUsers_filters " B.COM " watched_alice).
  - change (users (this watched_alice)) with [created_user watched alice].
    constructor; [|constructor]. vm_compute. reflexivity.
  - reflexivity.
Defined.

Example searchUsers_examples :
  searchUsers (VStr " B.COM ") watched_alice = inr [created_user watched alice]
  /\ searchUsers (VStr "CLIENT") watched_alice = inr [created_user watched alice]
  /\ searchUsers (VStr "zz") watched_alice = inr []
  /\ searchUsers VUndef watched_alice = inr [created_user watched alice].
Proof. repeat split; apply (bool_decide_unpack _); vm_compute; exact I. Qed.

(** X12.  The letter case of the query does not matter: two queries that
    are equal once in lower case give the same answer (or the same
    throw) in every store. *)
Theorem searchUsers_ignores_case (q q' : string) (w : world) :
  toLowerCase q = toLowerCase q' ->
  searchUsers (VStr q) w = searchUsers (VStr q') w.
Proof.
  intros Hlow. unfold searchUsers. simpl.
  rewrite <- (toLowerCase_empty q), <- (toLowerCase_empty q'), Hlow.
  rewrite !trim_empty_iff.
  rewrite <- (toLowerCase_all_space q), <- (toLowerCase_all_space q'), Hlow.
  reflexivity.
Qed.

Lemma searchUsers_ignores_case_witness :
  searchUsers (VStr "Alice@B") watched_alice = searchUsers (VStr "aLICE@b") watched_alice.
Proof. apply (searchUsers_ignores_case "Alice@B" "aLICE@b" watched_alice). reflexivity. Defined.

(** ** Statistics *)

Lemma filter_partition_length {A} (p : A -> bool) (l : list A) :
  (length (List.filter p l) + length (List.filter (fun x => negb (p x)) l))%nat = length l.
Proof.
  induction l as [|x l IH]; simpl; [reflexivity|]. destruct (p x); simpl; lia.
Qed.

Lemma filter_length_le {A} (p : A -> bool) (l : list A) :
  (length (List.filter p l) <= length l)%nat.
Proof. pose proof (filter_partition_length p l). lia. Qed.

Lemma plain_not_proto (t : string) :
  t ∉ Object_prototype_names -> String.eqb t "__proto__" = false.
Proof.
  intros Hplain. apply String.eqb_neq. intros ->. apply Hplain.
  unfold Object_prototype_names. set_solver.
Qed.

(** The counting object after the [reduce]: each type has its count. *)
Lemma byType_counts (us : list obj) (counts : gmap string Z) :
  Forall plain_type us ->
  exists final,
    fold_left byType_step us (Some counts) = Some final
    /\ forall t, default 0 (final !! t) = default 0 (counts !! t) + count_type t us.
Proof.
  intros Hall. revert counts.
  induction Hall as [|u us (t0 & Ht0 & Hplain) Hall IH]; intros counts; simpl.
  - exists counts. split; [reflexivity|]. intros t. unfold count_type. simpl. lia.
  - rewrite Ht0. cbn [ToString]. rewrite (plain_not_proto t0 Hplain).
    rewrite bool_decide_eq_false_2 by exact Hplain.
    destruct (IH (<[t0 := default 0 (counts !! t0) + 1]> counts)) as (final & Hfold & Hcount).
    exists final. split; [exact Hfold|]. intros t. rewrite Hcount.
    unfold count_type. simpl. rewrite Ht0.
    destruct (decide (t0 = t)) as [->|Hne].
    + rewrite lookup_insert_eq. unfold strict_eq.
      rewrite bool_decide_eq_true_2 by reflexivity. simpl length. simpl. lia.
    + rewrite lookup_insert_ne by exact Hne. unfold strict_eq.
      rewrite bool_decide_eq_false_2 by congruence. lia.
Qed.

Lemma byType_positive (us : list obj) (counts : gmap string Z) :
  Forall plain_type us ->
  match fold_left byType_step us (Some counts) with
  | Some final => forall t, (forall t' z, counts !! t' = Some z -> 0 < z) ->
                            forall z, final !! t = Some z -> 0 < z
  | None => True
  end.
Proof.
  intros Hall. revert counts.
  induction Hall as [|u us (t0 & Ht0 & Hplain) Hall IH]; intros counts; simpl.
  - intros t Hpos z Hz. eapply Hpos; eassumption.
  - rewrite Ht0. cbn [ToString]. rewrite (plain_not_proto t0 Hplain).
    rewrite bool_decide_eq_false_2 by exact Hplain.
    specialize (IH (<[t0 := default 0 (counts !! t0) + 1]> counts)).
    destruct (fold_left _ _ _) as [final|]; [|exact I].
    intros t Hpos z Hz. apply (IH t); [|exact Hz].
    intros t' z'. destruct (decide (t0 = t')) as [->|Hne].
    + rewrite lookup_insert_eq. intros [= <-].
      destruct (counts !! t') as [c|] eqn:Hc; simpl; [|lia].
      specialize (Hpos _ _ Hc). lia.
    + rewrite lookup_insert_ne by exact Hne. apply Hpos.
Qed.

Lemma passes_valid_type (u : obj) :
  passes u = true -> exists t, get u "userType" = VStr t /\ t ∈ validTypes.
Proof.
  rewrite passes_acceptable. intros Hu.
  destruct (acceptable_fields _ Hu) as (_ & _ & Ht & _).
  unfold includes in Ht. destruct (get u "userType") as [| | | |t]; try discriminate.
  exists t. split; [reflexivity|]. now apply bool_decide_eq_true in Ht.
Qed.

Lemma valid_type_plain (t : string) : t ∈ validTypes -> t ∉ Object_prototype_names.
Proof.
  intros Ht Hp. apply list_elem_of_In in Ht. apply list_elem_of_In in Hp.
  simpl in Ht. destruct Ht as [<-|[<-|[<-|[]]]];
    simpl in Hp; repeat (destruct Hp as [Hp|Hp]; [discriminate|]); exact Hp.
Qed.

Lemma count_types_total (us : list obj) :
  Forall (fun r => passes r = true) us ->
  count_type "client" us + count_type "provider" us + count_type "admin" us
  = Z.of_nat (length us).
Proof.
  unfold count_type. induction 1 as [|u us Hu Hall IH]; simpl; [reflexivity|].
  destruct (passes_valid_type _ Hu) as (t & -> & Ht).
  apply list_elem_of_In in Ht. simpl in Ht.
  destruct Ht as [<-|[<-|[<-|[]]]]; simpl; lia.
Qed.

Section StatsFacts.

Variable Date_toDateString : value -> string.

(** X13.  [getStats] changes nothing (it reads the clock once).  Its
    [active] is the number of records whose status is exactly "active",
    its [inactive] is the number of all the other records (whatever their
    status is, also none), so both are at most [total] and they add up to
    it; [newToday] is at most [total]. *)
Theorem getStats_counts (w : world) :
  let st := fst (getStats Date_toDateString w) in
  let w' := snd (getStats Date_toDateString w) in
  total st = length (users (this w))
  /\ inactive st
     = Z.of_nat (length (List.filter
                           (fun user => negb (strict_eq (get user "status") (VStr "active")))
                           (users (this w))))
  /\ Z.of_nat (active st) + inactive st = Z.of_nat (total st)
  /\ (active st <= total st)%nat
  /\ (newToday st <= total st)%nat
  /\ this w' = this w /\ localStorage w' = localStorage w /\ delivered w' = delivered w
  /\ reads w' = S (reads w).
Proof.
  cbv zeta. unfold getStats, today. simpl.
  pose proof (filter_partition_length
                (fun user => strict_eq (get user "status") (VStr "active")) (users (this w))).
  repeat split; try apply filter_length_le; lia.
Qed.

(** X14.  When every stored record passes validation, the [byType] object
    of [getStats] has, for each type, the number of records that
    [getUsersByType] returns for it (and no property for a type without
    records), and the counts of client, provider and admin add up to
    [total]. *)
Theorem getStats_byType (w : world) :
  Forall (fun r => passes r = true) (users (this w)) ->
  exists counts,
    byType (fst (getStats Date_toDateString w)) = Some counts
    /\ (forall t, default 0 (counts !! t) = Z.of_nat (length (getUsersByType (VStr t) w)))
    /\ (forall t, counts !! t = None <-> getUsersByType (VStr t) w = [])
    /\ default 0 (counts !! "client") + default 0 (counts !! "provider")
       + default 0 (counts !! "admin")
       = Z.of_nat (total (fst (getStats Date_toDateString w))).
Proof.
  intros Hall.
  assert (Hplain : Forall plain_type (users (this w))).
  { eapply Forall_impl; [exact Hall|]. intros u Hu.
    destruct (passes_valid_type _ Hu) as (t & Ht & Hvalid).
    exists t. split; [exact Ht|]. now apply valid_type_plain. }
  destruct (byType_counts _ ∅ Hplain) as (counts & Hfold & Hcount).
  pose proof (byType_positive _ ∅ Hplain) as Hpos.
  rewrite Hfold in Hpos.
  exists counts. split; [exact Hfold|].
  assert (Heach : forall t, default 0 (counts !! t)
                            = Z.of_nat (length (getUsersByType (VStr t) w))).
  { intros t. rewrite Hcount, lookup_empty. reflexivity. }
  split; [exact Heach|]. split.
  - intros t. specialize (Heach t). split.
    + intros Hnone. rewrite Hnone in Heach. simpl in Heach.
      destruct (getUsersByType (VStr t) w); [reflexivity|simpl in Heach; lia].
    + intros Hnil. rewrite Hnil in Heach. simpl in Heach.
      destruct (counts !! t) as [z|] eqn:Hz; [|reflexivity].
      simpl in Heach. subst z. exfalso.
      assert (0 < 0); [|lia]. apply (Hpos t); [|exact Hz].
      intros t' z'. rewrite lookup_empty. discriminate.
  - rewrite !Hcount, !lookup_empty. simpl.
    pose proof (count_types_total _ Hall) as Htotal. lia.
Qed.

End StatsFacts.

Lemma getStats_byType_witness :
  exists counts,
    byType (fst (getStats (fun _ => "Mon Jan 01 2024") watched_alice)) = Some counts
    /\ (forall t, default 0 (counts !! t)
                  = Z.of_nat (length (getUsersByType (VStr t) watched_alice)))
    /\ (forall t, counts !! t = None <-> getUsersByType (VStr t) watched_alice = [])
    /\ default 0 (counts !! "client") + default 0 (counts !! "provider")
       + default 0 (counts !! "admin")
       = Z.of_nat (total (fst (getStats (fun _ => "Mon Jan 01 2024") watched_alice))).
Proof.
  apply (getStats_byType (fun _ => "Mon Jan 01 2024") watched_alice).
  change (users (this watched_alice)) with [created_user watched alice].
  constructor; [|constructor]. vm_compute. reflexivity.
Defined.


(** ** Subscribers *)

Lemma fan_out_app (obs : list callback) (evs evs' : list event) :
  fan_out obs (evs ++ evs') = fan_out obs evs ++ fan_out obs evs'.
Proof. unfold fan_out. apply flat_map_app. Qed.

Lemma fan_out_one (obs : list callback) (ev : event) :
  fan_out obs [ev] = map (fun cb => (cb, ev)) obs.
Proof. unfold fan_out. simpl. apply app_nil_r. Qed.

Lemma fan_out_two (obs : list callback) (ev ev' : event) :
  fan_out obs [ev; ev'] = map (fun cb => (cb, ev)) obs ++ map (fun cb => (cb, ev')) obs.
Proof. unfold fan_out. simpl. now rewrite app_nil_r. Qed.

Lemma try_catch_fan_out {A} (body : M A) (type : string) (w : world) :
  (forall r w1, body w = (r, w1) ->
     observers (this w1) = observers (this w)
     /\ exists evs, delivered w1 = delivered w ++ fan_out (observers (this w)) evs) ->
  observers (this (snd (try_catch body type w))) = observers (this w)
  /\ exists evs, delivered (snd (try_catch body type w))
                 = delivered w ++ fan_out (observers (this w)) evs.
Proof.
  intros Hbody. unfold try_catch. destruct (body w) as [[e|a] w1] eqn:Hb;
    destruct (Hbody _ _ eq_refl) as (Hobs & evs & Hd); simpl.
  - split; [exact Hobs|]. exists (evs ++ [error (message e) type]).
    rewrite Hd, Hobs, fan_out_app, fan_out_one. now rewrite app_assoc.
  - split; [exact Hobs|]. eauto.
Qed.

Lemma crud_call_fan_out (c : crud) (w : world) :
  observers (this (snd (crud_call c w))) = observers (this w)
  /\ exists evs, delivered (snd (crud_call c w))
                 = delivered w ++ fan_out (observers (this w)) evs.
Proof.
  rewrite crud_call_try_catch. apply try_catch_fan_out. intros r w1.
  destruct c as [userData|id userData|id]; simpl.
  - rewrite createUser_body_cases.
    destruct (validateUser userData) as [e|v];
      [intros [= <- <-]; split; [reflexivity|]; exists []; simpl; now rewrite app_nil_r|].
    destruct (negb (isValid v));
      [intros [= <- <-]; split; [reflexivity|]; exists []; simpl; now rewrite app_nil_r|].
    destruct (email_taken w userData);
      [intros [= <- <-]; split; [reflexivity|]; exists []; simpl; now rewrite app_nil_r|].
    intros [= <- <-]. split; [reflexivity|]. eexists. simpl.
    rewrite <- app_assoc, <- fan_out_two. reflexivity.
  - rewrite updateUser_body_cases.
    destruct (findIndex _ _) as [i|];
      [|intros [= <- <-]; split; [reflexivity|]; exists []; simpl; now rewrite app_nil_r].
    destruct (validateUser userData) as [e|v];
      [intros [= <- <-]; split; [reflexivity|]; exists []; simpl; now rewrite app_nil_r|].
    destruct (negb (isValid v));
      [intros [= <- <-]; split; [reflexivity|]; exists []; simpl; now rewrite app_nil_r|].
    destruct (email_taken_by_other w id userData);
      [intros [= <- <-]; split; [reflexivity|]; exists []; simpl; now rewrite app_nil_r|].
    intros [= <- <-]. split; [reflexivity|]. eexists. simpl.
    rewrite <- app_assoc, <- fan_out_two. reflexivity.
  - rewrite deleteUser_body_cases.
    destruct (findIndex _ _) as [i|];
      [|intros [= <- <-]; split; [reflexivity|]; exists []; simpl; now rewrite app_nil_r].
    intros [= <- <-]. split; [reflexivity|]. eexists. simpl.
    rewrite <- app_assoc, <- fan_out_two. reflexivity.
Qed.

Lemma create_each_fan_out (usersData : list obj) (w : world) :
  observers (this (snd (create_each usersData w))) = observers (this w)
  /\ exists evs, delivered (snd (create_each usersData w))
                 = delivered w ++ fan_out (observers (this w)) evs.
Proof.
  revert w. induction usersData as [|userData rest IH]; intros w; simpl.
  - split; [reflexivity|]. exists []. simpl. now rewrite app_nil_r.
  - destruct (crud_call_fan_out (CreateUser userData) w) as (Hobs & evs & Hd). simpl in *.
    destruct (createUser userData w) as [r w']. simpl in *.
    destruct (IH w') as (Hobs' & evs' & Hd').
    destruct (create_each rest w') as [rs w'']. simpl in *.
    split; [congruence|]. exists (evs ++ evs').
    rewrite Hd', Hd, Hobs, fan_out_app. now rewrite app_assoc.
Qed.

Section SubscriberFacts.

Variable StringToNumber : string -> number.

Lemma loadUsers_fan_out (w : world) :
  observers (this (snd (loadUsers StringToNumber w))) = observers (this w)
  /\ exists evs, delivered (snd (loadUsers StringToNumber w))
                 = delivered w ++ fan_out (observers (this w)) evs.
Proof.
  destruct (localStorage w !! storage_key) as [text|] eqn:Htext.
  - rewrite (loadUsers_stored StringToNumber w text Htext). simpl.
    split; [reflexivity|]. eexists. now rewrite <- fan_out_one.
  - unfold loadUsers, try_catch, loadUsers_body. unfold_monad. rewrite Htext.
    unfold loadSampleData. rewrite loadSampleData_loop_create_each.
    cbv beta iota zeta. cbn [fst snd this delivered observers].
    destruct (create_each_fan_out sampleUsers w) as (Hobs & evs & Hd).
    split; [exact Hobs|].
    exists (evs ++ [usersLoaded (users (this (snd (create_each sampleUsers w))))]).
    rewrite Hd, Hobs, fan_out_app, fan_out_one. now rewrite app_assoc.
Qed.

Lemma saveUsers_fan_out (w : world) :
  observers (this (snd (saveUsers w))) = observers (this w)
  /\ exists evs, delivered (snd (saveUsers w))
                 = delivered w ++ fan_out (observers (this w)) evs.
Proof.
  destruct (storage_throws w (writes w)) as [msg|] eqn:Hthrows.
  - destruct (saveUsers_fails w msg Hthrows) as (_ & Hthis & _ & Hd).
    rewrite Hthis, Hd. split; [reflexivity|]. eexists. unfold error_deliveries.
    now rewrite <- fan_out_one.
  - rewrite saveUsers_spec by exact Hthrows. cbn [snd after_save this delivered].
    split; [reflexivity|]. eexists. now rewrite <- fan_out_one.
Qed.

End SubscriberFacts.

Lemma fan_out_receivers (obs : list callback) (evs : list event) :
  Forall (fun d => fst d ∈ obs) (fan_out obs evs).
Proof.
  unfold fan_out. induction evs as [|ev evs IH]; simpl; [constructor|].
  apply Forall_app. split; [|exact IH].
  apply Forall_forall. intros d Hd. apply list_elem_of_fmap in Hd as (cb & -> & Hcb).
  exact Hcb.
Qed.

Section SilenceFacts.

Variable StringToNumber : string -> number.

(** What one operation adds to the log goes to subscribers of the moment,
    and only [subscribe] adds a subscriber. *)
Lemma step_receivers (cb : callback) (o : op) (w : world) :
  cb ∉ observers (this w) ->
  is_Subscribe_of cb o = false ->
  (cb ∉ observers (this (snd (step StringToNumber o w))))
  /\ exists new, delivered (snd (step StringToNumber o w)) = delivered w ++ new
                 /\ Forall (fun d => fst d <> cb) new.
Proof.
  intros Hout Hsub.
  assert (Hfan : forall w',
             observers (this w') = observers (this w) ->
             (exists evs, delivered w' = delivered w ++ fan_out (observers (this w)) evs) ->
             (cb ∉ observers (this w'))
             /\ exists new, delivered w' = delivered w ++ new
                            /\ Forall (fun d => fst d <> cb) new).
  { intros w' Hobs (evs & Hd). split; [now rewrite Hobs|].
    eexists. split; [exact Hd|].
    eapply Forall_impl; [apply fan_out_receivers|]. simpl. intros d Hd' Heq. rewrite Heq in Hd'. contradiction. }
  destruct o as [c|usersData| | |cb'|cb'].
  - assert (H : snd (step StringToNumber (Crud c) w) = snd (crud_call c w)).
    { destruct c; simpl; [|reflexivity|reflexivity]. now destruct (createUser _ _). }
    rewrite H. destruct (crud_call_fan_out c w) as [Hobs Hd]. now apply Hfan.
  - simpl. unfold importUsers. rewrite importUsers_loop_create_each. simpl.
    destruct (create_each_fan_out usersData w) as (Hobs & evs & Hd).
    split; [now rewrite Hobs|]. eexists. rewrite Hd, <- app_assoc. split; [reflexivity|].
    apply Forall_app. split.
    + eapply Forall_impl; [apply fan_out_receivers|]. simpl. intros d Hd' Heq. rewrite Heq in Hd'. contradiction.
    + apply Forall_forall. intros d Hin. apply list_elem_of_fmap in Hin as (x & -> & Hx).
      simpl. rewrite Hobs in Hx. intros Heq. rewrite Heq in Hx. contradiction.
  - cbn [step snd]. destruct (saveUsers_fan_out w) as [Hobs Hd]. now apply Hfan.
  - simpl. destruct (loadUsers_fan_out StringToNumber w) as [Hobs Hd]. now apply Hfan.
  - simpl in *. split.
    + intros [Hin|Hin]%elem_of_app; [contradiction|].
      apply list_elem_of_singleton in Hin. subst cb'.
      now rewrite bool_decide_eq_true_2 in Hsub.
    + exists []. split; [now rewrite app_nil_r|constructor].
  - simpl. split.
    + intros Hin. apply list_elem_of_filter in Hin as [_ Hin]. contradiction.
    + exists []. split; [now rewrite app_nil_r|constructor].
Qed.

Lemma run_receivers (cb : callback) (ops : list op) (w : world) :
  cb ∉ observers (this w) ->
  forallb (fun o => negb (is_Subscribe_of cb o)) ops = true ->
  (cb ∉ observers (this (snd (run StringToNumber ops w))))
  /\ exists new, delivered (snd (run StringToNumber ops w)) = delivered w ++ new
                 /\ Forall (fun d => fst d <> cb) new.
Proof.
  revert w. induction ops as [|o rest IH]; intros w Hout; simpl.
  - intros _. split; [exact Hout|]. exists []. split; [now rewrite app_nil_r|constructor].
  - intros [Ho Hrest]%andb_true_iff. apply negb_true_iff in Ho.
    destruct (step_receivers cb o w Hout Ho) as (Hout' & new & Hd & Hnew).
    destruct (step StringToNumber o w) as [ids w']. simpl in *.
    destruct (IH w' Hout' Hrest) as (Hout'' & new' & Hd' & Hnew').
    destruct (run StringToNumber rest w') as [ids' w'']. simpl in *.
    split; [exact Hout''|]. exists (new ++ new'). split.
    + rewrite Hd', Hd. symmetry. apply app_assoc.
    + apply Forall_app. split; assumption.
Qed.

(** X16.  [unsubscribe(cb)] removes every registration of the callback
    (also when it was subscribed more than once), and from then on, until
    it is subscribed again, no operation hands it anything: whatever the
    sequence of calls, the log grows by deliveries to other callbacks
    only. *)
Theorem unsubscribe_silences (cb : callback) (ops : list op) (w : world) :
  forallb (fun o => negb (is_Subscribe_of cb o)) ops = true ->
  let w0 := snd (unsubscribe cb w) in
  (cb ∉ observers (this w0))
  /\ delivered w0 = delivered w
  /\ (cb ∉ observers (this (snd (run StringToNumber ops w0))))
  /\ exists new, delivered (snd (run StringToNumber ops w0)) = delivered w ++ new
                 /\ Forall (fun d => fst d <> cb) new.
Proof.
  intros Hops. cbv zeta.
  assert (Hout : cb ∉ observers (this (snd (unsubscribe cb w)))).
  { simpl. intros Hin. apply list_elem_of_filter in Hin as [Hne _]. now apply Hne. }
  split; [exact Hout|]. split; [reflexivity|].
  exact (run_receivers cb ops _ Hout Hops).
Qed.

End SilenceFacts.

Lemma unsubscribe_silences_witness :
  let w0 := snd (unsubscribe 0%nat (snd (subscribe 0%nat watched_alice))) in
  (0%nat ∉ observers (this w0))
  /\ delivered w0 = delivered (snd (subscribe 0%nat watched_alice))
  /\ (0%nat ∉ observers
        (this (snd (run (fun _ => NaN)
                      [Crud (CreateUser bob); Subscribe 5%nat;
                       Crud (DeleteUser (VStr "1")); SaveUsers] w0))))
  /\ exists new,
       delivered (snd (run (fun _ => NaN)
                         [Crud (CreateUser bob); Subscribe 5%nat;
                          Crud (DeleteUser (VStr "1")); SaveUsers] w0))
       = delivered (snd (subscribe 0%nat watched_alice)) ++ new
       /\ Forall (fun d => fst d <> 0%nat) new.
Proof.
  apply (unsubscribe_silences (fun _ => NaN) 0%nat
           [Crud (CreateUser bob); Subscribe 5%nat; Crud (DeleteUser (VStr "1")); SaveUsers]
           (snd (subscribe 0%nat watched_alice))).
  reflexivity.
Defined.

(** ** Loading after saving *)

Section ReloadFacts.

Variable StringToNumber : string -> number.


End ReloadFacts.


(** X15.  When the storage does not take the write ([setItem] throws:
    the quota is exceeded, the storage is disabled), [saveUsers] catches
    the exception: it returns a failure with the message of the
    exception, hands every subscriber one [error] event of type "save"
    and no [usersSaved], and leaves the instance and the storage as they
    were, so that a later [loadUsers] still finds what the slot held
    before. *)
Theorem saveUsers_storage_failure (w : world) (msg : string) :
  storage_throws w (writes w) = Some msg ->
  fst (saveUsers w) = Failure msg
  /\ this (snd (saveUsers w)) = this w
  /\ localStorage (snd (saveUsers w)) = localStorage w
  /\ delivered (snd (saveUsers w))
     = delivered w ++ fan_out (observers (this w)) [error msg "save"]
  /\ writes (snd (saveUsers w)) = S (writes w).
Proof.
  intros Hthrows.
  destruct (saveUsers_fails w msg Hthrows) as (Hres & Hthis & Hls & Hd).
  split; [exact Hres|]. split; [exact Hthis|]. split; [exact Hls|].
  split; [rewrite Hd, fan_out_one; reflexivity|].
  unfold saveUsers, try_catch, saveUsers_body, setItem. unfold_monad.
  rewrite Hthrows. reflexivity.
Qed.

Lemma saveUsers_storage_failure_witness :
  fst (saveUsers full_storage_page) = Failure "The quota has been exceeded."
  /\ this (snd (saveUsers full_storage_page)) = this full_storage_page
  /\ localStorage (snd (saveUsers full_storage_page)) = localStorage full_storage_page
  /\ delivered (snd (saveUsers full_storage_page))
     = delivered full_storage_page
       ++ fan_out (observers (this full_storage_page))
            [error "The quota has been exceeded." "save"]
  /\ writes (snd (saveUsers full_storage_page)) = S (writes full_storage_page).
Proof.
  apply (saveUsers_storage_failure full_storage_page "The quota has been exceeded.").
  reflexivity.
Defined.

(** ** Exporting and importing *)

Lemma fresh_not_taken (us : list obj) (v : value) :
  v ∉ emails_of us -> findUserByEmail us v = None.
Proof.
  intros Hout. unfold findUserByEmail.
  destruct (List.find _ us) as [x|] eqn:Hfind; [|reflexivity]. exfalso.
  apply find_some_elem in Hfind as [Hin Heq]. apply strict_eq_true in Heq.
  apply Hout. unfold emails_of. apply list_elem_of_fmap. eauto.
Qed.

Lemma created_user_imported (w : world) (userData : obj) :
  imported_as userData (created_user w userData).
Proof.
  split.
  - intros k ? ? ? ?. now apply created_user_field.
  - intros [v Hv]. unfold get, created_user, new_user_literal.
    rewrite !lookup_insert_ne by discriminate. now rewrite lookup_union, Hv.
Qed.

(** Records that pass validation, with e-mails that differ from each other
    and from those of the store, are all taken in. *)
Lemma create_each_all_succeed (rs : list obj) (w : world) (n : Z) :
  nextId (this w) = Int n ->
  - 2 ^ 53 <= n ->
  n + Z.of_nat (length rs) <= 2 ^ 53 ->
  Forall (fun r => passes r = true) rs ->
  NoDup (emails_of rs) ->
  Forall (fun e => e ∉ emails_of (users (this w))) (emails_of rs) ->
  rejected (fst (create_each rs w)) = []
  /\ users (this (snd (create_each rs w))) = users (this w) ++ created (fst (create_each rs w))
  /\ Forall2 imported_as rs (created (fst (create_each rs w)))
  /\ nextId (this (snd (create_each rs w))) = Int (n + Z.of_nat (length rs)).
Proof.
  intros Hn Hlo Hhi Hall. revert w n Hn Hlo Hhi.
  induction Hall as [|r rs Hr Hall IH]; intros w n Hn Hlo Hhi Hnd Hfresh; simpl.
  - unfold rejected, created. simpl. rewrite app_nil_r, Z.add_0_r. repeat split; auto.
  - apply NoDup_cons in Hnd as [Hrnew Hnd]. apply Forall_cons in Hfresh as [Hrfresh Hfresh].
    cbn [length] in Hhi.
    rewrite (createUser_success r w Hr).
    2:{ unfold email_taken. apply bool_decide_eq_false. rewrite fresh_not_taken by exact Hrfresh.
        intros [x Hx]. discriminate. }
    assert (Hn' : nextId (this (after_create w r)) = Int (n + 1))
      by (cbn [after_create this nextId]; rewrite Hn; apply succ_number_safe; lia).
    destruct (IH (after_create w r) (n + 1) Hn' ltac:(lia) ltac:(lia) Hnd)
      as (Hrej & Husers & Himp & Hnext).
    { apply Forall_forall. intros e He. simpl. unfold emails_of. rewrite map_app.
      intros [Hin|Hin]%elem_of_app.
      - rewrite Forall_forall in Hfresh. now apply (Hfresh e He).
      - simpl in Hin. apply list_elem_of_singleton in Hin.
        rewrite created_user_field in Hin by discriminate. subst e. contradiction. }
    destruct (create_each rs (after_create w r)) as [outs w'']. simpl in *.
    unfold rejected, created in *. simpl. split; [exact Hrej|]. split.
    + rewrite Husers, <- app_assoc. reflexivity.
    + split; [constructor; [apply created_user_imported|exact Himp]|].
      rewrite Hnext. f_equal. lia.
Qed.

Lemma imported_ids (olds news : list obj) (n : Z) :
  Forall2 imported_as olds news ->
  Forall (fun r => passes r = true /\ id_in 1 n r) olds ->
  ids_of news = ids_of olds.
Proof.
  unfold ids_of. induction 1 as [|old new olds news [_ Hid] Himp IH]; simpl; [reflexivity|].
  intros Hall. apply Forall_cons in Hall as [[_ (k & Hk & _)] Hall].
  rewrite IH by exact Hall. f_equal. apply Hid.
  unfold get in Hk. destruct (old !! "id"); [eauto|discriminate].
Qed.

(** A store in order has fewer records than its counter says. *)
Lemma store_ok_length (n : Z) (us : list obj) :
  store_ok n us -> Z.of_nat (length us) < n.
Proof.
  intros (Hb & Hall & Hids & _).
  assert (Hsub : ids_of us ⊆+ ((fun k => VNum (Int k)) <$> seqZ 1 (n - 1))).
  { apply NoDup_submseteq; [exact Hids|]. intros v Hv.
    unfold ids_of in Hv. change (map ?f ?l) with (f <$> l) in Hv.
    apply list_elem_of_fmap in Hv as (u & -> & Hu).
    rewrite Forall_forall in Hall. destruct (Hall u Hu) as [_ (k & Hk & Hr)].
    rewrite Hk. apply list_elem_of_fmap. exists k. split; [reflexivity|].
    apply elem_of_seqZ. lia. }
  apply submseteq_length in Hsub. rewrite length_fmap, length_seqZ in Hsub.
  unfold ids_of in Hsub. rewrite length_map in Hsub. lia.
Qed.

Section ExportFacts.

Variable Date_toDateString : value -> string.

(** X18.  What [exportUsers] returns can be imported into a new instance:
    when the store is in order, [importUsers] of the exported records
    takes every one of them in ([failed] is empty), in the same order,
    each with the id it had (the id of the input wins over the counter)
    and with all its properties except for new [createdAt] and
    [lastActive] stamps and the status.  The counter of the new instance
    ends at the number of records plus one, whatever the imported ids
    are.  [exportUsers] itself returns the stored records with the clock
    reading as [exportDate], and changes nothing. *)
Theorem export_then_import (w : world) :
  service_ok (this w) ->
  let e := fst (exportUsers Date_toDateString w) in
  let w1 := snd (exportUsers Date_toDateString w) in
  let r := fst (importUsers (export_users e) (fresh_instance w1)) in
  let w2 := snd (importUsers (export_users e) (fresh_instance w1)) in
  export_users e = users (this w)
  /\ exportDate e = clock w (reads w)
  /\ this w1 = this w
  /\ failed r = []
  /\ users (this w2) = success r
  /\ Forall2 imported_as (users (this w)) (success r)
  /\ ids_of (success r) = ids_of (users (this w))
  /\ nextId (this w2) = Int (1 + Z.of_nat (length (users (this w)))).
Proof.
  intros (n & Hn & Hnpos & Hall & Hids & Hemails). cbv zeta.
  unfold exportUsers, getStats, today. simpl.
  split; [reflexivity|]. split; [reflexivity|]. split; [reflexivity|].
  unfold importUsers. rewrite importUsers_loop_create_each. simpl.
  set (w0 := fresh_instance _).
  assert (Hlen : Z.of_nat (length (users (this w))) < n)
    by (apply store_ok_length; repeat split; assumption || lia).
  destruct (create_each_all_succeed (users (this w)) w0 1 eq_refl) as (Hrej & Hus & Himp & Hnext).
  - lia.
  - lia.
  - eapply Forall_impl; [exact Hall|]. intros x [Hx _]. exact Hx.
  - exact Hemails.
  - apply Forall_forall. intros v _. simpl. apply not_elem_of_nil.
  - split; [exact Hrej|]. split; [exact Hus|]. split; [exact Himp|]. split; [|exact Hnext].
    apply (imported_ids _ _ n Himp Hall).
Qed.

End ExportFacts.

Lemma export_then_import_witness :
  let e := fst (exportUsers (fun _ => "Mon Jan 01 2024") watched_alice) in
  let w1 := snd (exportUsers (fun _ => "Mon Jan 01 2024") watched_alice) in
  let r := fst (importUsers (export_users e) (fresh_instance w1)) in
  let w2 := snd (importUsers (export_users e) (fresh_instance w1)) in
  export_users e = users (this watched_alice)
  /\ exportDate e = clock watched_alice (reads watched_alice)
  /\ this w1 = this watched_alice
  /\ failed r = []
  /\ users (this w2) = success r
  /\ Forall2 imported_as (users (this watched_alice)) (success r)
  /\ ids_of (success r) = ids_of (users (this watched_alice))
  /\ nextId (this w2) = Int (1 + Z.of_nat (length (users (this watched_alice)))).
Proof.
  apply (export_then_import (fun _ => "Mon Jan 01 2024") watched_alice).
  exact service_ok_watched_alice.
Defined.

(** ** Auto-save timers *)

Lemma clearInterval_other (handle : nat) (l : list (nat * Z)) :
  Forall (fun e => fst e <> handle) l -> AutoSave.clearInterval handle l = l.
Proof.
  unfold AutoSave.clearInterval. induction 1 as [|e l He Hl IH]; simpl; [reflexivity|].
  apply Nat.eqb_neq in He. now rewrite He, IH.
Qed.

Lemma timers_ok_perform (t : AutoSave.timers) (c : AutoSave.call) :
  timers_ok t -> timers_ok (AutoSave.perform t c).
Proof.
  intros [Hrun Hcur]. destruct c as [interval|]; simpl.
  - split; simpl; [|lia]. apply Forall_app. split.
    + eapply Forall_impl; [exact Hrun|]. simpl. intros; lia.
    + constructor; [simpl; lia|constructor].
  - unfold AutoSave.disableAutoSave.
    destruct (AutoSave.autoSaveInterval t) as [h|] eqn:Hh; [|split; [assumption|now rewrite Hh]].
    destruct (h =? 0)%nat; [split; [assumption|now rewrite Hh]|].
    split; simpl; [|exact I]. unfold AutoSave.clearInterval.
    clear -Hrun. induction Hrun as [|e l He Hl IH]; simpl; [constructor|].
    destruct (negb _); [constructor; assumption|assumption].
Qed.

(** X19.  [enableAutoSave] followed by [disableAutoSave] leaves the
    page's timers as they were and the instance without a handle;
    [disableAutoSave] on an instance without a handle does nothing. *)
Theorem enable_then_disable (t : AutoSave.timers) (interval : option Z) :
  timers_ok t ->
  AutoSave.running (AutoSave.disableAutoSave (AutoSave.enableAutoSave interval t))
    = AutoSave.running t
  /\ AutoSave.autoSaveInterval (AutoSave.disableAutoSave (AutoSave.enableAutoSave interval t))
     = None
  /\ (AutoSave.autoSaveInterval t = None -> AutoSave.disableAutoSave t = t).
Proof.
  intros [Hrun _]. split; [|split].
  - unfold AutoSave.disableAutoSave, AutoSave.enableAutoSave. simpl.
    unfold AutoSave.clearInterval. rewrite List.filter_app. simpl.
    rewrite Nat.eqb_refl. simpl. rewrite app_nil_r.
    apply clearInterval_other. eapply Forall_impl; [exact Hrun|]. simpl. intros; lia.
  - reflexivity.
  - intros Hnone. unfold AutoSave.disableAutoSave. now rewrite Hnone.
Qed.

Lemma enable_then_disable_witness :
  AutoSave.running (AutoSave.disableAutoSave
                      (AutoSave.enableAutoSave (Some 500)
                         (AutoSave.enableAutoSave None AutoSave.initial)))
    = AutoSave.running (AutoSave.enableAutoSave None AutoSave.initial)
  /\ AutoSave.autoSaveInterval
       (AutoSave.disableAutoSave
          (AutoSave.enableAutoSave (Some 500) (AutoSave.enableAutoSave None AutoSave.initial)))
     = None
  /\ (AutoSave.autoSaveInterval (AutoSave.enableAutoSave None AutoSave.initial) = None ->
      AutoSave.disableAutoSave (AutoSave.enableAutoSave None AutoSave.initial)
      = AutoSave.enableAutoSave None AutoSave.initial).
Proof.
  apply (enable_then_disable (AutoSave.enableAutoSave None AutoSave.initial) (Some 500)).
  split; simpl; [|lia]. constructor; [simpl; lia|constructor].
Defined.

(** X20.  [enableAutoSave] does not stop the timer it started before: the
    instance remembers the newest handle only.  After a second
    [enableAutoSave] with no [disableAutoSave] in between, the first timer
    keeps running through every later sequence of [enableAutoSave] and
    [disableAutoSave] calls, with the interval it was given (30000 when
    none was given), and each time it comes due it still calls
    [saveUsers]. *)
Theorem first_timer_keeps_running (t : AutoSave.timers) (first second : option Z)
    (calls : list AutoSave.call) (w : world) :
  timers_ok t ->
  let handle := S (AutoSave.started t) in
  let t' := foldl AutoSave.perform
              (AutoSave.enableAutoSave second (AutoSave.enableAutoSave first t)) calls in
  (handle, default 30000 first) ∈ AutoSave.running t'
  /\ AutoSave.autoSaveInterval t' <> Some handle
  /\ timer_fires t' handle w = (tt, snd (saveUsers w)).
Proof.
  intros Hok. cbv zeta.
  set (handle := S (AutoSave.started t)).
  set (t2 := AutoSave.enableAutoSave second (AutoSave.enableAutoSave first t)).
  assert (Hinv : forall t0,
             (handle, default 30000 first) ∈ AutoSave.running t0
             /\ AutoSave.autoSaveInterval t0 <> Some handle
             /\ (handle < S (AutoSave.started t0))%nat ->
             (handle, default 30000 first) ∈ AutoSave.running (foldl AutoSave.perform t0 calls)
             /\ AutoSave.autoSaveInterval (foldl AutoSave.perform t0 calls) <> Some handle).
  { induction calls as [|c calls IH]; intros t0 (Hin & Hcur & Hlt); simpl; [auto|].
    apply IH. destruct c as [interval|]; simpl.
    - split; [apply elem_of_app; now left|]. split; [intros [= Heq]; lia|lia].
    - unfold AutoSave.disableAutoSave.
      destruct (AutoSave.autoSaveInterval t0) as [h|] eqn:Hh; [|rewrite Hh; auto].
      destruct (h =? 0)%nat; [rewrite Hh; auto|]. simpl.
      split; [|split; [discriminate|exact Hlt]].
      unfold AutoSave.clearInterval. apply list_elem_of_In, List.filter_In.
      split; [now apply list_elem_of_In|]. cbn [fst].
      apply negb_true_iff. apply Nat.eqb_neq. congruence. }
  destruct (Hinv t2) as [Hin Hcur].
  { subst t2 handle. simpl. split; [|split; [intros [= Heq]; lia|lia]].
    apply elem_of_app. left. apply elem_of_app. right. apply list_elem_of_here. }
  split; [exact Hin|]. split; [exact Hcur|].
  unfold timer_fires.
  replace (existsb _ _) with true; [reflexivity|].
  symmetry. apply List.existsb_exists. exists (handle, default 30000 first).
  split; [now apply list_elem_of_In|]. cbn [fst]. apply Nat.eqb_refl.
Qed.

Lemma first_timer_keeps_running_witness :
  let t' := foldl AutoSave.perform
              (AutoSave.enableAutoSave (Some 500) (AutoSave.enableAutoSave None AutoSave.initial))
              [AutoSave.Disable; AutoSave.Disable; AutoSave.Enable None; AutoSave.Disable] in
  (1%nat, 30000) ∈ AutoSave.running t'
  /\ AutoSave.autoSaveInterval t' <> Some 1%nat
  /\ timer_fires t' 1 watched_alice = (tt, snd (saveUsers watched_alice)).
Proof.
  apply (first_timer_keeps_running AutoSave.initial None (Some 500)
           [AutoSave.Disable; AutoSave.Disable; AutoSave.Enable None; AutoSave.Disable]
           watched_alice).
  split; [constructor|exact I].
Defined.

(** ** More on updateUser *)

(** X21.  [updateUser] turns down a patch whose e-mail another record
    holds: in a store in order, when the patch passes validation and a
    record with another id has the patch's e-mail, the call fails with "A
    user with this email already exists", the instance is unchanged, and
    the subscribers get the [error] event of type "update" only. *)
Theorem updateUser_rejects_taken_email (id : value) (patch old other : obj) (w : world) :
  service_ok (this w) ->
  getUserById id w = Some old ->
  passes patch = true ->
  other ∈ users (this w) ->
  get other "email" = get patch "email" ->
  get other "id" <> get old "id" ->
  updateUser id patch w
  = (Failure "A user with this email already exists",
     after_error w "A user with this email already exists" "update").
Proof.
  intros (n & _ & _ & _ & _ & Hemails) Hold Hp Hin Hmail Hid.
  destruct (getUserById_index _ _ _ Hold) as (i & Hi & Hlook & Hhas).
  assert (Hother : email_taken_by_other w id patch = true).
  { unfold email_taken_by_other.
    apply list_elem_of_lookup in Hin as [j Hj].
    destruct (passes_email_string _ Hp) as [e He].
    destruct (findUserByEmail _ _) as [existing|] eqn:Hfind.
    - apply find_some_elem in Hfind as [Hex Heq]. apply strict_eq_true in Heq.
      assert (existing = other) as ->
        by (eapply same_email_same_record; try eassumption; congruence).
      apply negb_true_iff. unfold has_id. apply strict_eq_neq.
      rewrite <- (has_id_value _ _ Hhas). exact Hid.
    - exfalso. rewrite He in Hfind. apply not_taken_fresh in Hfind. apply Hfind.
      unfold emails_of. apply list_elem_of_fmap. exists other.
      split; [congruence|]. apply list_elem_of_lookup. eauto. }
  unfold updateUser, try_catch. rewrite updateUser_body_cases, Hi.
  unfold passes in Hp. destruct (validateUser patch) as [ex|v]; [discriminate|].
  now rewrite Hp, Hother.
Qed.

Lemma service_ok_two_records : service_ok (this (snd (createUser bob watched_alice))).
Proof.
  apply createUser_keeps_order; [reflexivity|exact service_room_watched_alice].
Qed.

Lemma updateUser_rejects_taken_email_witness :
  updateUser (VStr "2") (<["email" := VStr "a@b.com"]> bob) (snd (createUser bob watched_alice))
  = (Failure "A user with this email already exists",
     after_error (snd (createUser bob watched_alice))
       "A user with this email already exists" "update").
Proof.
  apply (updateUser_rejects_taken_email (VStr "2") (<["email" := VStr "a@b.com"]> bob)
           (created_user watched_alice bob) (created_user watched alice)
           (snd (createUser bob watched_alice))).
  - exact service_ok_two_records.
  - apply (bool_decide_unpack _). vm_compute. exact I.
  - vm_compute. reflexivity.
  - change (users (this (snd (createUser bob watched_alice))))
      with [created_user watched alice; created_user watched_alice bob].
    apply list_elem_of_here.
  - vm_compute. reflexivity.
  - vm_compute. discriminate.
Defined.

Lemma required_message_reported (u : obj) (f : string) :
  f ∈ required -> truthy (get u f) = false ->
  (f +:+ " is required") ∈ spec_errors u.
Proof.
  intros Hf Ht. unfold spec_errors. apply elem_of_app. left.
  apply list_elem_of_In. apply List.in_flat_map. exists f.
  split; [now apply list_elem_of_In|].
  unfold blank. rewrite Ht. simpl. now left.
Qed.

(** X22.  A patch has to be complete: [updateUser] validates the patch as
    if it were a whole record, so a patch in which one of firstName,
    lastName, email, phone, userType is missing (or falsy) is turned down,
    although the stored record has the field.  The call fails, the
    instance is unchanged, and, when the patch has only strings in its
    required fields, the message is the list of validation messages, with
    "<field> is required" among them. *)
Theorem updateUser_needs_complete_patch (id : value) (patch : obj) (f : string) (w : world) :
  is_Some (getUserById id w) ->
  f ∈ required ->
  truthy (get patch f) = false ->
  exists msg,
    updateUser id patch w = (Failure msg, after_error w msg "update")
    /\ (textual patch = true ->
        msg = Str.join ", " (spec_errors patch)
        /\ (f +:+ " is required") ∈ spec_errors patch).
Proof.
  intros [i Hi]%getUserById_findIndex Hf Ht.
  unfold updateUser, try_catch. rewrite updateUser_body_cases, Hi.
  destruct (textual patch) eqn:Htext.
  - rewrite validateUser_textual by exact Htext. cbn [isValid errors].
    pose proof (required_message_reported patch f Hf Ht) as Hin.
    rewrite bool_decide_eq_false_2 by (intros Heq; rewrite Heq in Hin; inversion Hin).
    simpl. eexists. split; [reflexivity|]. auto.
  - unfold validateUser. rewrite forEach_required_throws by exact Htext.
    simpl. eexists. split; [reflexivity|]. discriminate.
Qed.

Lemma updateUser_needs_complete_patch_witness :
  exists msg,
    updateUser (VStr "1") {[ "phone" := VStr "555" ]} watched_alice
    = (Failure msg, after_error watched_alice msg "update")
    /\ (textual {[ "phone" := VStr "555" ]} = true ->
        msg = Str.join ", " (spec_errors {[ "phone" := VStr "555" ]})
        /\ ("userType" +:+ " is required") ∈ spec_errors {[ "phone" := VStr "555" ]}).
Proof.
  apply (updateUser_needs_complete_patch (VStr "1") {[ "phone" := VStr "555" ]}
           "userType" watched_alice).
  - exists (created_user watched alice). apply (bool_decide_unpack _). vm_compute. exact I.
  - unfold required. apply (bool_decide_unpack _). vm_compute. exact I.
  - reflexivity.
Defined.

(** ** What importUsers and the seeding leave in the store *)




(** ** The shape of an accepted e-mail address *)

Lemma star_class_all (p : ascii -> bool) (s : string) :
  Regex.matches (Regex.Star (Regex.Class p)) s <-> all_chars p s = true.
Proof.
  split.
  - intros H. remember (Regex.Star (Regex.Class p)) as r eqn:Hr.
    induction H as [|? ? ?|? ? ? ? ? ? ? ?|? ? ? ? ?|? ? ? ? ?|?|r0 s1 s2 H1 _ H2 IH2];
      try discriminate.
    + reflexivity.
    + injection Hr as ->. inversion H1; subst.
      change (String c "" +:+ s2) with (String c s2). simpl.
      rewrite IH2 by reflexivity. now rewrite andb_true_r.
  - induction s as [|c s IH]; simpl.
    + intros _. constructor.
    + intros [Hc Hs]%andb_true_iff.
      change (String c s) with (String c "" +:+ s).
      constructor; [now constructor|now apply IH].
Qed.

Lemma plus_class_part (p : ascii -> bool) (s : string) :
  Regex.matches (Regex.Plus (Regex.Class p)) s <-> s <> "" /\ all_chars p s = true.
Proof.
  unfold Regex.Plus. split.
  - intros H. inversion H as [| |r1 r2 s1 s2 H1 H2| | | |]; subst.
    inversion H1; subst. change (String c "" +:+ s2) with (String c s2).
    split; [discriminate|]. simpl.
    apply andb_true_iff. split; [assumption|now apply star_class_all].
  - intros [Hne Hall]. destruct s as [|c s]; [contradiction|].
    simpl in Hall. apply andb_true_iff in Hall as [Hc Hs].
    change (String c s) with (String c "" +:+ s).
    constructor; [now constructor|now apply star_class_all].
Qed.

(** X24.  [isValidEmail] accepts exactly the strings of the shape
    [a@b.c] in which a, b and c are not empty and hold neither white
    space nor [@].  (b and c may hold further dots, and nothing asks for
    letters: [!@#.$] is accepted.) *)
Theorem isValidEmail_shape (email : string) :
  isValidEmail (VStr email) = true
  <-> exists a b c,
        email = a +:+ "@" +:+ b +:+ "." +:+ c
        /\ address_part a /\ address_part b /\ address_part c.
Proof.
  rewrite isValidEmail_matches. unfold emailRegex, address_part. split.
  - intros H.
    inversion H as [| |? ? a s1 Ha H1| | | |]; subst.
    inversion H1 as [| |? ? at_ s2 Hat H2| | | |]; subst.
    inversion H2 as [| |? ? b s3 Hb H3| | | |]; subst.
    inversion H3 as [| |? ? dot c Hdot Hc| | | |]; subst.
    inversion Hat as [|? ch Hch| | | | |]; subst.
    inversion Hdot as [|? ch' Hch'| | | | |]; subst.
    apply Ascii.eqb_eq in Hch, Hch'. subst ch ch'.
    exists a, b, c. split; [reflexivity|].
    split; [now apply plus_class_part|]. split; now apply plus_class_part.
  - intros (a & b & c & -> & Ha & Hb & Hc).
    constructor; [now apply plus_class_part|].
    change ("@" +:+ b +:+ "." +:+ c) with (String "@" "" +:+ (b +:+ String "." "" +:+ c)).
    constructor; [constructor; reflexivity|].
    constructor; [now apply plus_class_part|].
    constructor; [constructor; reflexivity|now apply plus_class_part].
Qed.

Example isValidEmail_shape_examples :
  isValidEmail (VStr "a@b.com") = true
  /\ isValidEmail (VStr "!@#.$") = true
  /\ isValidEmail (VStr "a@b.c.d") = true
  /\ isValidEmail (VStr "a@b") = false
  /\ isValidEmail (VStr "a@b.") = false
  /\ isValidEmail (VStr "a b@c.d") = false
  /\ isValidEmail (VStr "a@b@c.d") = false.
Proof. vm_compute. repeat split. Qed.

(** ** Seeding *)

Section SeedingFacts.

Variable StringToNumber : string -> number.




End SeedingFacts.

